(** * Text normalisation scripts: number, symbol and anusvara rewriting

    A shallow embedding of
      - [normalize_texts/english/normalize-numbers-and-symbols.py]
        (class [TextProcessor]) and
      - [normalize_texts/hindi/normalize-texts.py] ([normalize_text]),
    followed by the properties of the specification that were checked
    against them.

    Modelling conventions.
      - A Python [str] is a sequence of Unicode code points: [list N].
      - A Python [int] is a [Z]; [//] and [%] with a positive divisor are
        [Z.div] and [Z.modulo].
      - A [dict] is an association list in insertion order (the order in
        which [.items()] and [.keys()] iterate).
      - Code that can raise returns an [outcome]; the self-call of
        [process_text] is bounded by a fuel argument.
      - [re] patterns are values of type [regex], run by a backtracking
        matcher with ordered alternation and greedy repetition. *)

From Stdlib Require Import List ZArith NArith Lia Bool String Ascii Permutation.
Import ListNotations.

Set Implicit Arguments.

(* ================================================================== *)
(** ** Strings *)

Definition char := N.
Definition str := list char.

(** ASCII literals of the source, as code-point sequences. *)
Definition u (s : string) : str := map N_of_ascii (list_ascii_of_string s).

Fixpoint str_eqb (a b : str) : bool :=
  match a, b with
  | [], [] => true
  | x :: a', y :: b' => N.eqb x y && str_eqb a' b'
  | _, _ => false
  end.

(** [sep.join(l)] *)
Fixpoint join (sep : str) (l : list str) : str :=
  match l with
  | [] => []
  | [w] => w
  | w :: l' => w ++ sep ++ join sep l'
  end.

(** [s.startswith(p)], returning the remainder after [p]. *)
Fixpoint strip_prefix (p s : str) : option str :=
  match p, s with
  | [], _ => Some s
  | a :: p', b :: s' => if N.eqb a b then strip_prefix p' s' else None
  | _ :: _, [] => None
  end.

(** [s.replace(old, new)] for a non-empty [old]: left to right, no overlap.
    [skip] counts the characters of a replaced occurrence still to pass. *)
Fixpoint replace_from (old new : str) (s : str) (skip : nat) : str :=
  match s with
  | [] => []
  | c :: s' =>
      match skip with
      | S n => replace_from old new s' n
      | O =>
          match strip_prefix old s with
          | Some _ => new ++ replace_from old new s' (List.length old - 1)
          | None => c :: replace_from old new s' 0
          end
      end
  end.

Definition replace (old new s : str) : str := replace_from old new s 0.

(** Unicode white space, as [str.isspace], [str.split()], [str.strip()] and
    the pattern [\s] see it. *)
Definition isspace (c : char) : bool :=
  ((0x09 <=? c) && (c <=? 0x0D) || (0x1C <=? c) && (c <=? 0x20)
   || (c =? 0x85) || (c =? 0xA0) || (c =? 0x1680)
   || (0x2000 <=? c) && (c <=? 0x200A)
   || (c =? 0x2028) || (c =? 0x2029) || (c =? 0x202F) || (c =? 0x205F)
   || (c =? 0x3000))%N.

(** [s.split()]: the maximal runs of non-space characters. *)
Fixpoint split (s : str) : list str :=
  match s with
  | [] => []
  | c :: s' =>
      if isspace c then split s'
      else match s' with
           | [] => [[c]]
           | d :: _ =>
               if isspace d then [c] :: split s'
               else match split s' with
                    | w :: ws => (c :: w) :: ws
                    | [] => [[c]]
                    end
           end
  end.

Fixpoint lstrip (s : str) : str :=
  match s with
  | c :: s' => if isspace c then lstrip s' else s
  | [] => []
  end.

(** [s.strip()] *)
Definition strip (s : str) : str := rev (lstrip (rev (lstrip s))).

(** The first characters of the decimal-digit blocks of the Unicode
    database (version 14.0.0); each block holds the digits 0 to 9 in order.
    These are the characters [\d] matches and [int] converts. *)
Definition decimal_zeros : list N :=
  [0x30; 0x660; 0x6F0; 0x7C0; 0x966; 0x9E6; 0xA66; 0xAE6; 0xB66; 0xBE6;
   0xC66; 0xCE6; 0xD66; 0xDE6; 0xE50; 0xED0; 0xF20; 0x1040; 0x1090; 0x17E0;
   0x1810; 0x1946; 0x19D0; 0x1A80; 0x1A90; 0x1B50; 0x1BB0; 0x1C40; 0x1C50;
   0xA620; 0xA8D0; 0xA900; 0xA9D0; 0xA9F0; 0xAA50; 0xABF0; 0xFF10; 0x104A0;
   0x10D30; 0x11066; 0x110F0; 0x11136; 0x111D0; 0x112F0; 0x11450; 0x114D0;
   0x11650; 0x116C0; 0x11730; 0x118E0; 0x11950; 0x11C50; 0x11D50; 0x11DA0;
   0x16A60; 0x16AC0; 0x16B50; 0x1D7CE; 0x1D7D8; 0x1D7E2; 0x1D7EC; 0x1D7F6;
   0x1E140; 0x1E2F0; 0x1E950; 0x1FBF0]%N.

Fixpoint digit_in (zeros : list N) (c : char) : option Z :=
  match zeros with
  | [] => None
  | z :: zs =>
      if ((z <=? c) && (c <? z + 10))%N then Some (Z.of_N (c - z))
      else digit_in zs c
  end.

Definition digit_value (c : char) : option Z := digit_in decimal_zeros c.

Definition isdecimal (c : char) : bool :=
  match digit_value c with Some _ => true | None => false end.

(* ================================================================== *)
(** ** Exceptions *)

Inductive exn : Type :=
| KeyError (key : Z)
| ValueError.

Inductive outcome (A : Type) : Type :=
| Ret (a : A)
| Raise (e : exn)
| OutOfFuel.

Arguments Ret {A} a.
Arguments Raise {A} e.
Arguments OutOfFuel {A}.

Definition bind {A B : Type} (m : outcome A) (f : A -> outcome B) : outcome B :=
  match m with
  | Ret a => f a
  | Raise e => Raise e
  | OutOfFuel => OutOfFuel
  end.

Notation "x <- m ;; k" := (bind m (fun x => k))
  (at level 61, m at next level, right associativity).

(** [try: body except ValueError: handler] *)
Definition try_ValueError {A : Type} (body handler : outcome A) : outcome A :=
  match body with
  | Raise ValueError => handler
  | r => r
  end.

(* ================================================================== *)
(** ** Dictionaries *)

Definition dict (K V : Type) := list (K * V).

Fixpoint dict_find {K V : Type} (eqb : K -> K -> bool) (k : K) (d : dict K V)
  : option V :=
  match d with
  | [] => None
  | (k', v) :: d' => if eqb k k' then Some v else dict_find eqb k d'
  end.

(** [d[k]] on an integer-keyed dictionary *)
Definition subscript {V : Type} (d : dict Z V) (k : Z) : outcome V :=
  match dict_find Z.eqb k d with
  | Some v => Ret v
  | None => Raise (KeyError k)
  end.

(** [d.get(k, default)] on a string-keyed dictionary *)
Definition get_default (d : dict str str) (k default : str) : str :=
  match dict_find str_eqb k d with
  | Some v => v
  | None => default
  end.

(** [int(s)] on the strings that reach it here: a non-empty run of decimal
    digits converts, anything else (an empty string, a string with a [.])
    is a [ValueError].  Signs, blanks and underscores, which [int] also
    accepts, never occur in its arguments in this program; the interpreter's
    optional limit on the length of a converted string is not modelled. *)
Fixpoint int_digits (s : str) (acc : Z) : outcome Z :=
  match s with
  | [] => Ret acc
  | c :: s' =>
      match digit_value c with
      | Some d => int_digits s' (10 * acc + d)
      | None => Raise ValueError
      end
  end.

Definition int (s : str) : outcome Z :=
  match s with
  | [] => Raise ValueError
  | _ => int_digits s 0
  end.

(** [s.split('.')] *)
Fixpoint split_on (sep : char) (s : str) : list str :=
  match s with
  | [] => [[]]
  | c :: s' =>
      if N.eqb c sep then [] :: split_on sep s'
      else match split_on sep s' with
           | w :: ws => (c :: w) :: ws
           | [] => [[c]]
           end
  end.

(* ================================================================== *)
(** ** TextProcessor: tables ([__init__]) *)

Definition units : dict Z str :=
  [(0, u "zero"); (1, u "one"); (2, u "two"); (3, u "three"); (4, u "four");
   (5, u "five"); (6, u "six"); (7, u "seven"); (8, u "eight"); (9, u "nine");
   (10, u "ten"); (11, u "eleven"); (12, u "twelve"); (13, u "thirteen");
   (14, u "fourteen"); (15, u "fifteen"); (16, u "sixteen");
   (17, u "seventeen"); (18, u "eighteen"); (19, u "nineteen")]%Z.

Definition tens : dict Z str :=
  [(2, u "twenty"); (3, u "thirty"); (4, u "forty"); (5, u "fifty");
   (6, u "sixty"); (7, u "seventy"); (8, u "eighty"); (9, u "ninety")]%Z.

(** Indian numbering system scales *)
Definition scales : dict str Z :=
  [(u "crore", 10000000); (u "lakh", 100000); (u "thousand", 1000);
   (u "hundred", 100)]%Z.

Definition RUPEE : char := 0x20B9%N.
Definition EURO : char := 0x20AC%N.
Definition POUND : char := 0xA3%N.

Definition currency_symbols : dict str str :=
  [(u "Rs", u "Rupees"); ([RUPEE], u "Rupees"); (u "$", u "Dollars");
   ([EURO], u "Euros"); ([POUND], u "Pounds")].

Definition symbols : dict str str :=
  [(u "%", u "percent"); (u "@", u "at"); (u "&", u "and"); (u "+", u "plus");
   (u "=", u "equals"); (u "/", u "per"); (u "#", u "number");
   (u "*", u "asterisk"); ([0xB0%N], u "degrees"); ([0xA7%N], u "section");
   ([0xB6%N], u "paragraph"); ([0xA9%N], u "copyright");
   ([0xAE%N], u "registered"); ([0x2122%N], u "trademark")].

Definition letter_prefixes : dict str str :=
  [(u "Q", u "Quarter"); (u "P", u "Phase"); (u "V", u "Version");
   (u "Ch", u "Chapter"); (u "Fig", u "Figure"); (u "Sec", u "Section");
   (u "App", u "Appendix"); (u "Vol", u "Volume"); (u "Pg", u "Page");
   (u "Rev", u "Revision"); (u "ID", u "ID"); (u "No", u "Number");
   (u "Ref", u "Reference"); (u "Table", u "Table"); (u "Type", u "Type");
   (u "Level", u "Level"); (u "Grade", u "Grade"); (u "Stage", u "Stage");
   (u "Step", u "Step"); (u "Part", u "Part")].

(** [_generate_lookup_table]: the loop over [range(100)], adding one entry
    per iteration. *)
Fixpoint lookup_loop (todo : list Z) (lookup : dict Z str)
  : outcome (dict Z str) :=
  match todo with
  | [] => Ret lookup
  | i :: todo' =>
      w <- (if (i <? 20)%Z then subscript units i
            else
              let tens_digit := (i / 10)%Z in
              let ones_digit := (i mod 10)%Z in
              if (ones_digit =? 0)%Z then subscript tens tens_digit
              else
                t <- subscript tens tens_digit ;;
                o <- subscript units ones_digit ;;
                Ret (t ++ u "-" ++ o)) ;;
      lookup_loop todo' (lookup ++ [(i, w)])
  end.

Definition range (n : nat) : list Z := map Z.of_nat (seq 0 n).

Definition _generate_lookup_table : outcome (dict Z str) :=
  lookup_loop (range 100) [].

(** [self.number_lookup], as built by the constructor. *)
Definition number_lookup : dict Z str :=
  Eval vm_compute in
    match _generate_lookup_table with
    | Ret t => t
    | _ => []
    end.

(* ================================================================== *)
(** ** TextProcessor: the cardinal converter *)

(** [_process_smaller_number]: "numbers under 100". *)
Definition _process_smaller_number (num : Z) : outcome str :=
  subscript number_lookup num.

(** The [for scale, value in self.scales.items()] loop of
    [_process_number], threading [parts] and [remaining]. *)
Fixpoint scale_loop (sc : dict str Z) (parts : list str) (remaining : Z)
  : outcome (list str * Z) :=
  match sc with
  | [] => Ret (parts, remaining)
  | (scale, value) :: sc' =>
      if (remaining >=? value)%Z then
        let count := (remaining / value)%Z in
        let remaining' := (remaining mod value)%Z in
        if (count >? 0)%Z then
          w <- _process_smaller_number count ;;
          scale_loop sc' (parts ++ [w ++ u " " ++ scale]) remaining'
        else scale_loop sc' parts remaining'
      else scale_loop sc' parts remaining
  end.

Definition _process_number (num : Z) : outcome str :=
  if (num =? 0)%Z then subscript units 0%Z
  else
    st <- scale_loop scales [] num ;;
    let '(parts, remaining) := st in
    parts' <- (if (remaining >? 0)%Z then
                 w <- _process_smaller_number remaining ;;
                 Ret (parts ++ [w])
               else Ret parts) ;;
    Ret (join (u ", ") parts').

(** [' '.join(self.units[int(d)] for d in decimal_part)] *)
Fixpoint digit_words (decimal_part : str) : outcome (list str) :=
  match decimal_part with
  | [] => Ret []
  | d :: rest =>
      n <- int [d] ;;
      w <- subscript units n ;;
      ws <- digit_words rest ;;
      Ret (w :: ws)
  end.

Definition DOT : char := 0x2E%N.

Definition _handle_decimal (num_str : str) : outcome str :=
  try_ValueError
    (match split_on DOT num_str with
     | [integer_part; decimal_part] =>
         n <- int integer_part ;;
         integer_words <- _process_number n ;;
         ws <- digit_words decimal_part ;;
         Ret (integer_words ++ u " point " ++ join (u " ") ws)
     | _ => Raise ValueError
     end)
    (n <- int num_str ;; _process_number n).


(* ================================================================== *)
(** ** Regular expressions ([re])

    The fragment of the pattern language the two scripts use: literals,
    [\d], [\s], character ranges and sets, concatenation, ordered
    alternation, greedy [?], greedy [*] and [+] on a single-character
    expression, bounded repetition and numbered capturing groups. *)

Inductive atom : Type :=
| Lit (c : char)            (* a literal character *)
| Digit                     (* \d *)
| Space                     (* \s *)
| Range (lo hi : char)      (* [lo-hi] *)
| OneOf (l : list char).    (* [abc] *)

Inductive regex : Type :=
| Atom (a : atom)
| Eps
| Cat (r1 r2 : regex)
| Alt (r1 r2 : regex)       (* r1|r2, r1 tried first *)
| Opt (r : regex)           (* r?, greedy *)
| Star (a : atom)           (* a*, greedy *)
| Group (n : nat) (r : regex).

(** a+ *)
Definition plus (a : atom) : regex := Cat (Atom a) (Star a).

(** a{n} *)
Fixpoint rep (n : nat) (a : atom) : regex :=
  match n with
  | O => Eps
  | S n' => Cat (Atom a) (rep n' a)
  end.

(** A string matched literally (what [re.escape] of it denotes). *)
Fixpoint lit_str (s : str) : regex :=
  match s with
  | [] => Eps
  | [c] => Atom (Lit c)
  | c :: s' => Cat (Atom (Lit c)) (lit_str s')
  end.

(** ['|'.join(...)] of sub-patterns *)
Fixpoint alt_of (l : list regex) : regex :=
  match l with
  | [] => Eps
  | [r] => r
  | r :: l' => Alt r (alt_of l')
  end.

(** Simple case mappings, exact wherever the image is an ASCII letter: the
    only characters outside ASCII whose lower case is an ASCII letter are
    U+0130 and U+212A, and the only ones whose upper case is one are U+0131
    and U+017F.  Elsewhere they are the identity, which keeps every other
    character away from the ASCII letters, as the real mappings do. *)
Definition tolower (c : char) : char :=
  (if (0x41 <=? c) && (c <=? 0x5A) then c + 32
   else if c =? 0x130 then 0x69
   else if c =? 0x212A then 0x6B
   else c)%N.

Definition toupper (c : char) : char :=
  (if (0x61 <=? c) && (c <=? 0x7A) then c - 32
   else if c =? 0x131 then 0x49
   else if c =? 0x17F then 0x53
   else c)%N.

(** Lowercase characters with the same upper case as [lo] (the [re]
    module's table of extra cases, at the ASCII letters and their
    partners). *)
Definition extra_cases (lo : char) : list char :=
  (if lo =? 0x69 then [0x131]
   else if lo =? 0x73 then [0x17F]
   else if lo =? 0x131 then [0x69]
   else if lo =? 0x17F then [0x73]
   else [])%N.

Definition in_range (lo hi x : char) : bool := ((lo <=? x) && (x <=? hi))%N.

Definition lit_ok (ignorecase : bool) (c x : char) : bool :=
  if ignorecase then
    let lo := tolower c in
    let y := tolower x in
    N.eqb y lo || existsb (N.eqb y) (extra_cases lo)
  else N.eqb x c.

(** Does character [x] match the single-character expression [a]?
    [ignorecase] is the [re.IGNORECASE] flag. *)
Definition atom_ok (ignorecase : bool) (a : atom) (x : char) : bool :=
  match a with
  | Lit c => lit_ok ignorecase c x
  | Digit => isdecimal x
  | Space => isspace x
  | Range lo hi =>
      if ignorecase then
        let y := tolower x in
        in_range lo hi y || in_range lo hi (toupper y)
      else in_range lo hi x
  | OneOf l => existsb (fun c => lit_ok ignorecase c x) l
  end.

(** Captured groups: number and text. *)
Definition groups := list (nat * str).

Fixpoint get_group (n : nat) (g : groups) : option str :=
  match g with
  | [] => None
  | (k, w) :: g' => if Nat.eqb n k then Some w else get_group n g'
  end.

Definition set_group (n : nat) (w : str) (g : groups) : groups := (n, w) :: g.

Section Matcher.

Variable ignorecase : bool.
Variable R : Type.

(** Greedy repetition of a character test: the longest run first, giving
    characters back one at a time while the continuation fails. *)
Fixpoint star (p : char -> bool) (s : str) (k : str -> option R) : option R :=
  match s with
  | c :: s' =>
      if p c then
        match star p s' k with
        | Some x => Some x
        | None => k s
        end
      else k s
  | [] => k []
  end.

(** The backtracking matcher: [run r s g k] matches [r] at the start of
    [s] and passes what is left, with the groups set so far, to [k]; the
    first success in priority order wins. *)
Fixpoint run (r : regex) (s : str) (g : groups)
         (k : str -> groups -> option R) : option R :=
  match r with
  | Atom a =>
      match s with
      | c :: s' => if atom_ok ignorecase a c then k s' g else None
      | [] => None
      end
  | Eps => k s g
  | Cat r1 r2 => run r1 s g (fun s1 g1 => run r2 s1 g1 k)
  | Alt r1 r2 =>
      match run r1 s g k with
      | Some x => Some x
      | None => run r2 s g k
      end
  | Opt r1 =>
      match run r1 s g k with
      | Some x => Some x
      | None => k s g
      end
  | Star a => star (atom_ok ignorecase a) s (fun s' => k s' g)
  | Group n r1 =>
      run r1 s g
        (fun s' g' =>
           k s' (set_group n (firstn (List.length s - List.length s') s) g'))
  end.

End Matcher.

(** A match object: the whole match and the captured groups. *)
Record rmatch : Type := { group0 : str; captures : groups }.

(** [m.group(n)]; [None] for a group that took no part in the match. *)
Definition group (m : rmatch) (n : nat) : option str :=
  match n with
  | O => Some (group0 m)
  | _ => get_group n (captures m)
  end.

(** [m.group(n)] where the pattern always sets group [n], and
    [m.group(n) or ''] otherwise. *)
Definition group_str (m : rmatch) (n : nat) : str :=
  match group m n with
  | Some w => w
  | None => []
  end.

(** [re.match(r, s)]: a match at the start of [s]. *)
Definition re_match (ignorecase : bool) (r : regex) (s : str) : option rmatch :=
  run ignorecase r s []
    (fun s' g =>
       Some {| group0 := firstn (List.length s - List.length s') s;
               captures := g |}).

(** [re.search(r, s)]: the leftmost match. *)
Fixpoint re_search (ignorecase : bool) (r : regex) (s : str) : option rmatch :=
  match re_match ignorecase r s with
  | Some m => Some m
  | None =>
      match s with
      | [] => None
      | _ :: s' => re_search ignorecase r s'
      end
  end.

(** What [re.sub] sees of a string: characters it copies and the
    non-overlapping matches it replaces, left to right. *)
Inductive piece : Type :=
| Keep (c : char)
| Hit (m : rmatch).

(** [skip] counts the characters of the last match still to pass.  An
    empty match leaves its replacement and the scan moves on by one
    character. *)
Fixpoint scan_from (ignorecase : bool) (r : regex) (s : str) (skip : nat)
  : list piece :=
  match s with
  | [] =>
      match skip with
      | S _ => []
      | O =>
          match re_match ignorecase r [] with
          | Some m => [Hit m]
          | None => []
          end
      end
  | c :: s' =>
      match skip with
      | S n => scan_from ignorecase r s' n
      | O =>
          match re_match ignorecase r s with
          | Some m =>
              match List.length (group0 m) with
              | O => Hit m :: Keep c :: scan_from ignorecase r s' 0
              | S n => Hit m :: scan_from ignorecase r s' n
              end
          | None => Keep c :: scan_from ignorecase r s' 0
          end
      end
  end.

Definition scan (ignorecase : bool) (r : regex) (s : str) : list piece :=
  scan_from ignorecase r s 0.

(** The replacement function is called once per match, in order; the first
    exception ends the substitution. *)
Fixpoint fill (repl : rmatch -> outcome str) (ps : list piece) : outcome str :=
  match ps with
  | [] => Ret []
  | Keep c :: ps' => rest <- fill repl ps' ;; Ret (c :: rest)
  | Hit m :: ps' => w <- repl m ;; rest <- fill repl ps' ;; Ret (w ++ rest)
  end.

(** [re.sub(r, repl, s, flags)] with a function [repl] *)
Definition re_sub (ignorecase : bool) (r : regex)
           (repl : rmatch -> outcome str) (s : str) : outcome str :=
  fill repl (scan ignorecase r s).

(** A replacement template: literal characters and group references. *)
Inductive titem : Type :=
| TLit (c : char)
| TRef (n : nat).

Definition expand (template : list titem) (m : rmatch) : str :=
  flat_map (fun t => match t with
                     | TLit c => [c]
                     | TRef n => group_str m n
                     end) template.

(** [re.sub(r, template, s)] with a template string *)
Definition re_sub_template (r : regex) (template : list titem) (s : str) : str :=
  flat_map (fun p => match p with
                     | Keep c => [c]
                     | Hit m => expand template m
                     end) (scan false r s).

(* ================================================================== *)
(** ** TextProcessor: the rewriting pipeline *)

(** \d+(?:\.\d+)? *)
Definition number_re : regex :=
  Cat (plus Digit) (Opt (Cat (Atom (Lit DOT)) (plus Digit))).

(** (?:Rs|₹|\$|€|£), in the order of the source *)
Definition currency_re : regex :=
  alt_of [lit_str (u "Rs"); Atom (Lit RUPEE); Atom (Lit 0x24%N);
          Atom (Lit EURO); Atom (Lit POUND)].

(** (?:AD|BC|CE|BCE) *)
Definition era_re : regex :=
  alt_of [lit_str (u "AD"); lit_str (u "BC"); lit_str (u "CE");
          lit_str (u "BCE")].

Definition HYPHEN : char := 0x2D%N.
Definition PERCENT : char := 0x25%N.

(** [year_range_pattern]: (\d{4})-(\d{2}) *)
Definition year_range_pattern : regex :=
  Cat (Group 1 (rep 4 Digit)) (Cat (Atom (Lit HYPHEN)) (Group 2 (rep 2 Digit))).

(** [currency_pattern]: (Rs|₹|\$|€|£)\s*(\d+(?:\.\d+)?) *)
Definition currency_pattern : regex :=
  Cat (Group 1 currency_re) (Cat (Star Space) (Group 2 number_re)).

(** [num_pattern]: (\d+(?:\.\d+)?)\s*(AD|BC|CE|BCE)? *)
Definition num_pattern : regex :=
  Cat (Group 1 number_re) (Cat (Star Space) (Opt (Group 2 era_re))).

(** The percentage pattern: (\d+(?:\.\d+)?)\s*% *)
Definition percent_pattern : regex :=
  Cat (Group 1 number_re) (Cat (Star Space) (Atom (Lit PERCENT))).

(** The numeral-span [pattern] of [process_text]:
    (?:Rs|₹|\$|€|£)\s*\d+(?:\.\d+)?
    |\d+(?:\.\d+)?(?:\s*(?:AD|BC|CE|BCE))?
    |\d{4}-\d{2} *)
Definition pattern : regex :=
  Alt (Cat currency_re (Cat (Star Space) number_re))
      (Alt (Cat number_re (Opt (Cat (Star Space) era_re)))
           (Cat (rep 4 Digit) (Cat (Atom (Lit HYPHEN)) (rep 2 Digit)))).

(** [prefix_pattern]: the keys of [letter_prefixes], escaped and joined
    with [|]. *)
Definition prefix_pattern : regex :=
  alt_of (map (fun kv => lit_str (fst kv)) letter_prefixes).

(** [pattern] of [_process_letter_number_combination]:
    ({prefix_pattern}|[A-Z])(\d+)(\.?\d* ) *)
Definition letter_pattern : regex :=
  Cat (Group 1 (Alt prefix_pattern (Atom (Range 0x41%N 0x5A%N))))
      (Cat (Group 2 (plus Digit))
           (Group 3 (Cat (Opt (Atom (Lit DOT))) (Star Digit)))).

(** [_process_year_range] *)
Definition _process_year_range (m : rmatch) : outcome str :=
  let full_year := group_str m 1 in
  let short_year := group_str m 2 in
  let century := firstn 2 full_year in
  let decade := skipn 2 full_year in
  d <- int decade ;;
  w1 <- subscript number_lookup d ;;
  let first_year := u "twenty " ++ w1 in
  y <- int short_year ;;
  w2 <- subscript number_lookup y ;;
  let second_year := u "twenty " ++ w2 in
  Ret (first_year ++ u "-" ++ second_year).

(** [replace_match], the local function of
    [_process_letter_number_combination] *)
Definition replace_match (m : rmatch) : outcome str :=
  let prefix := group_str m 1 in
  let number := group_str m 2 in
  let decimal := group_str m 3 in
  let full_prefix := get_default letter_prefixes prefix prefix in
  number_word <- (match decimal with
                  | _ :: _ => _handle_decimal (number ++ decimal)
                  | [] => n <- int number ;; _process_number n
                  end) ;;
  Ret (full_prefix ++ u " " ++ number_word).

Definition _process_letter_number_combination (text : str) : outcome str :=
  re_sub true letter_pattern replace_match text.

(** The generic symbol pass: every symbol but [%], in table order. *)
Fixpoint symbol_loop (table : dict str str) (text : str) : str :=
  match table with
  | [] => text
  | (symbol, word) :: table' =>
      if str_eqb symbol (u "%") then symbol_loop table' text
      else symbol_loop table' (replace symbol (u " " ++ word ++ u " ") text)
  end.

Section Pipeline.

(** [self.process_text], as the handlers below call it. *)
Variable self_process_text : str -> outcome str.

(** [_handle_currency] *)
Definition _handle_currency (amount symbol : str) : outcome str :=
  let currency_name := get_default currency_symbols symbol symbol in
  amount_in_words <- self_process_text amount ;;
  Ret (currency_name ++ u " " ++ amount_in_words).

(** [_handle_percentage] *)
Definition _handle_percentage (m : rmatch) : outcome str :=
  let number := group_str m 1 in
  processed_number <- self_process_text number ;;
  Ret (processed_number ++ u " percent").

(** [process_match], the local function of [process_text] *)
Definition process_match (m : rmatch) : outcome str :=
  let full_match := group_str m 0 in
  match re_search false year_range_pattern full_match with
  | Some _ => re_sub false year_range_pattern _process_year_range full_match
  | None =>
      match re_match false currency_pattern full_match with
      | Some currency_match =>
          _handle_currency (group_str currency_match 2)
                           (group_str currency_match 1)
      | None =>
          match re_match false num_pattern full_match with
          | Some num_match =>
              let num := group_str num_match 1 in
              let suffix := group_str num_match 2 in
              if existsb (N.eqb DOT) num then
                w <- _handle_decimal num ;;
                Ret (strip (w ++ u " " ++ suffix))
              else
                n <- int num ;;
                w <- _process_number n ;;
                Ret (strip (w ++ u " " ++ suffix))
          | None => Ret full_match
          end
      end
  end.

(** The body of [process_text]. *)
Definition process_text_body (text : str) : outcome str :=
  text1 <- _process_letter_number_combination text ;;
  text2 <- re_sub false percent_pattern _handle_percentage text1 ;;
  let text3 := symbol_loop symbols text2 in
  text4 <- re_sub false pattern process_match text3 ;;
  Ret (join (u " ") (split text4)).

End Pipeline.

(** [process_text]; [fuel] bounds the depth of the self-calls made by the
    percentage and currency handlers. *)
Fixpoint process_text (fuel : nat) (text : str) : outcome str :=
  match fuel with
  | O => OutOfFuel
  | S fuel' => process_text_body (process_text fuel') text
  end.

(* ================================================================== *)
(** ** The Hindi anusvara normaliser ([normalize_text]) *)

Definition ANUSVARA : char := 0x902%N.
Definition VIRAMA : char := 0x94D%N.

(** One entry of [mappings]: the consonant class after the anusvara, and
    the nasal consonant that replaces it. *)
Record rule : Type := { consonants : list char; nasal : char }.

(** The pattern of a rule: anusvara, then ([class]) *)
Definition rule_pattern (r : rule) : regex :=
  Cat (Atom (Lit ANUSVARA)) (Group 1 (Atom (OneOf (consonants r)))).

(** The replacement of a rule: nasal, virama, \1 *)
Definition rule_replacement (r : rule) : list titem :=
  [TLit (nasal r); TLit VIRAMA; TRef 1].

Definition mappings : list rule :=
  [ {| consonants := [0x915; 0x916; 0x917; 0x918]; nasal := 0x919 |};
    {| consonants := [0x91A; 0x91B; 0x91C; 0x91D]; nasal := 0x91E |};
    {| consonants := [0x91F; 0x920; 0x921; 0x922; 0x923]; nasal := 0x923 |};
    {| consonants := [0x924; 0x925; 0x926; 0x927; 0x928]; nasal := 0x928 |};
    {| consonants := [0x92A; 0x92B; 0x92C; 0x92D; 0x92E]; nasal := 0x92E |}
  ]%N.

Definition apply_rule (text : str) (r : rule) : str :=
  re_sub_template (rule_pattern r) (rule_replacement r) text.

(** The loop [for pattern, replacement in mappings.items()], over any
    ordering of the rules. *)
Definition apply_rules (rules : list rule) (text : str) : str :=
  fold_left apply_rule rules text.

Definition normalize_text (text : str) : str := apply_rules mappings text.


(* ================================================================== *)
(** ** The decomposition rule of the cardinal converter, as specified *)

(** One "<count-in-words> <scale-name>" segment for a nonzero count, none
    for a zero count. *)
Definition segment (count : Z) (scale : str) : outcome (list str) :=
  if (count =? 0)%Z then Ret []
  else w <- subscript number_lookup count ;; Ret [w ++ u " " ++ scale].

(** The leftover below 100, through the 0-99 lookup. *)
Definition leftover (n : Z) : outcome (list str) :=
  if (n =? 0)%Z then Ret []
  else w <- subscript number_lookup n ;; Ret [w].

(** Scale by scale, in descending order, comma-joined. *)
Definition to_words (n : Z) : outcome str :=
  if (n =? 0)%Z then Ret (u "zero")
  else
    crore <- segment (n / 10000000) (u "crore") ;;
    lakh <- segment (n mod 10000000 / 100000) (u "lakh") ;;
    thousand <- segment (n mod 100000 / 1000) (u "thousand") ;;
    hundred <- segment (n mod 1000 / 100) (u "hundred") ;;
    rest <- leftover (n mod 100) ;;
    Ret (join (u ", ") (crore ++ lakh ++ thousand ++ hundred ++ rest)).

(* ================================================================== *)
(** ** What a pattern can match

    [den r w g g']: the pattern [r] can consume exactly [w], taking the
    groups from [g] to [g'].  The matcher only ever returns matches of
    this relation ([run_sound] below); which of them it returns is decided
    by its priorities. *)

Fixpoint den (ignorecase : bool) (r : regex) (w : str) (g g' : groups) : Prop :=
  match r with
  | Atom a => exists c, w = [c] /\ atom_ok ignorecase a c = true /\ g' = g
  | Eps => w = [] /\ g' = g
  | Cat r1 r2 =>
      exists w1 w2 g1,
        w = w1 ++ w2 /\ den ignorecase r1 w1 g g1 /\ den ignorecase r2 w2 g1 g'
  | Alt r1 r2 => den ignorecase r1 w g g' \/ den ignorecase r2 w g g'
  | Opt r1 => den ignorecase r1 w g g' \/ (w = [] /\ g' = g)
  | Star a => forallb (atom_ok ignorecase a) w = true /\ g' = g
  | Group n r1 => exists g1, den ignorecase r1 w g g1 /\ g' = set_group n w g1
  end.

(** Can [r] match the empty string? *)
Fixpoint nullable (r : regex) : bool :=
  match r with
  | Atom _ => false
  | Eps => true
  | Cat r1 r2 => nullable r1 && nullable r2
  | Alt r1 r2 => nullable r1 || nullable r2
  | Opt _ => true
  | Star _ => true
  | Group _ r1 => nullable r1
  end.

(** The single-character expressions a match of [r] can start with. *)
Fixpoint first_atoms (r : regex) : list atom :=
  match r with
  | Atom a => [a]
  | Eps => []
  | Cat r1 r2 =>
      first_atoms r1 ++ (if nullable r1 then first_atoms r2 else [])
  | Alt r1 r2 => first_atoms r1 ++ first_atoms r2
  | Opt r1 => first_atoms r1
  | Star a => [a]
  | Group _ r1 => first_atoms r1
  end.

(** The single-character expressions of [r]. *)
Fixpoint atoms (r : regex) : list atom :=
  match r with
  | Atom a => [a]
  | Eps => []
  | Cat r1 r2 => atoms r1 ++ atoms r2
  | Alt r1 r2 => atoms r1 ++ atoms r2
  | Opt r1 => atoms r1
  | Star a => [a]
  | Group _ r1 => atoms r1
  end.

Definition atom_eqb (a b : atom) : bool :=
  match a, b with
  | Lit c, Lit d => N.eqb c d
  | Digit, Digit => true
  | Space, Space => true
  | Range l h, Range l' h' => N.eqb l l' && N.eqb h h'
  | OneOf l, OneOf l' => str_eqb l l'
  | _, _ => false
  end.

(** Does every match of [r] go through the expression [a0]? *)
Fixpoint needs (a0 : atom) (r : regex) : bool :=
  match r with
  | Atom a => atom_eqb a a0
  | Eps => false
  | Cat r1 r2 => needs a0 r1 || needs a0 r2
  | Alt r1 r2 => needs a0 r1 && needs a0 r2
  | Opt _ => false
  | Star _ => false
  | Group _ r1 => needs a0 r1
  end.

(** [sub in s] *)
Fixpoint contains (sub s : str) : bool :=
  match strip_prefix sub s with
  | Some _ => true
  | None =>
      match s with
      | [] => false
      | _ :: s' => contains sub s'
      end
  end.

(** The characters of a numeral: decimal digits and the point. *)
Definition numeral_char (c : char) : bool := isdecimal c || N.eqb c DOT.

Definition SPACE : str := u " ".

(** A word of [split]: not empty, no white space. *)
Definition word (w : str) : Prop := w <> [] /\ existsb isspace w = false.

(** The characters [[A-Z]] matches when case is ignored: the ASCII letters
    and the four characters that share their case mappings. *)
Definition letterish (c : char) : Prop :=
  (0x41 <= c <= 0x5A \/ 0x61 <= c <= 0x7A
   \/ c = 0x130 \/ c = 0x131 \/ c = 0x17F \/ c = 0x212A)%N.

(** An expression for an ASCII letter, or [[A-Z]]. *)
Definition letter_atom (a : atom) : bool :=
  match a with
  | Lit l => in_range 0x41%N 0x5A%N l || in_range 0x61%N 0x7A%N l
  | Range lo hi => N.eqb lo 0x41%N && N.eqb hi 0x5A%N
  | _ => false
  end.

(** An expression for a digit or the point. *)
Definition numeral_atom (a : atom) : bool :=
  match a with
  | Digit => true
  | Lit c => N.eqb c DOT
  | _ => false
  end.

(** A literal that is no numeral character. *)
Definition other_atom (a : atom) : bool :=
  match a with
  | Lit c => negb (numeral_char c)
  | _ => false
  end.

(** The substitution of one anusvara rule, read off its pattern: an
    anusvara before a consonant of the class becomes the nasal and a
    virama, and the scan goes on after the consonant. *)
Fixpoint nasalize (cls : list char) (n : char) (s : str) : str :=
  match s with
  | [] => []
  | a :: s1 =>
      match s1 with
      | c :: s2 =>
          if N.eqb a ANUSVARA && existsb (N.eqb c) cls
          then n :: VIRAMA :: c :: nasalize cls n s2
          else a :: nasalize cls n s1
      | [] => [a]
      end
  end.

(** Two rules in one pass. *)
Fixpoint nasalize2 (cls1 : list char) (n1 : char) (cls2 : list char)
         (n2 : char) (s : str) : str :=
  match s with
  | [] => []
  | a :: s1 =>
      match s1 with
      | c :: s2 =>
          if N.eqb a ANUSVARA && existsb (N.eqb c) cls1
          then n1 :: VIRAMA :: c :: nasalize2 cls1 n1 cls2 n2 s2
          else if N.eqb a ANUSVARA && existsb (N.eqb c) cls2
          then n2 :: VIRAMA :: c :: nasalize2 cls1 n1 cls2 n2 s2
          else a :: nasalize2 cls1 n1 cls2 n2 s1
      | [] => [a]
      end
  end.

(** Two rules that do not meet: disjoint classes, neither nasal in the
    class of the other, and the anusvara neither a consonant nor a nasal. *)
Definition apart (r1 r2 : rule) : bool :=
  forallb (fun c => negb (existsb (N.eqb c) (consonants r2))) (consonants r1)
  && negb (existsb (N.eqb (nasal r1)) (consonants r2))
  && negb (existsb (N.eqb (nasal r2)) (consonants r1))
  && negb (existsb (N.eqb ANUSVARA) (consonants r1))
  && negb (existsb (N.eqb ANUSVARA) (consonants r2))
  && negb (N.eqb (nasal r1) ANUSVARA)
  && negb (N.eqb (nasal r2) ANUSVARA).

(** The symbols the generic symbol pass replaces: the keys of the symbol
    table other than [%]. *)
Definition generic_symbol (c : char) : bool :=
  existsb (fun kw : str * str =>
             match fst kw with
             | [k] => N.eqb c k && negb (N.eqb k PERCENT)
             | _ => false
             end) symbols.

(** A character the generic symbol pass does not replace. *)
Definition safe (c : char) : Prop := generic_symbol c = false.

(** The characters of the words the pipeline writes: ASCII letters, the
    space, the comma and the hyphen. *)
Definition wordy (c : char) : bool :=
  in_range 0x41%N 0x5A%N c || in_range 0x61%N 0x7A%N c
  || N.eqb c 0x20%N || N.eqb c 0x2C%N || N.eqb c 0x2D%N.

(** A self-call that answers on numerals only. *)
Definition on_numerals (f : str -> outcome str) (w : str) : outcome str :=
  if forallb numeral_char w then f w else OutOfFuel.

(** The word a decimal digit is read with: its value through [units]. *)
Definition digit_word (d : char) : str :=
  match digit_value d with
  | Some v =>
      match dict_find Z.eqb v units with
      | Some w => w
      | None => []
      end
  | None => []
  end.

(** The single-character expressions inside the groups numbered [n]. *)
Fixpoint group_atoms (n : nat) (r : regex) : list atom :=
  match r with
  | Atom _ => []
  | Eps => []
  | Cat r1 r2 => group_atoms n r1 ++ group_atoms n r2
  | Alt r1 r2 => group_atoms n r1 ++ group_atoms n r2
  | Opt r1 => group_atoms n r1
  | Star _ => []
  | Group k r1 =>
      (if Nat.eqb n k then atoms r1 else []) ++ group_atoms n r1
  end.

(** An expression that matches no decimal digit. *)
Definition digitless_atom (a : atom) : bool :=
  match a with
  | Lit c => negb (isdecimal c)
  | _ => false
  end.

(** A character that is no decimal digit. *)
Definition nondigit (c : char) : Prop := isdecimal c = false.

(** Words joined by single spaces. *)
Definition phrase (w : str) : Prop :=
  exists ws, ws <> [] /\ Forall word ws /\ w = join SPACE ws.

(** The passes of [process_text] after the letter-prefix pass. *)
Definition later_passes (f : str -> outcome str) (text1 : str) : outcome str :=
  text2 <- re_sub false percent_pattern (_handle_percentage f) text1 ;;
  let text3 := symbol_loop symbols text2 in
  text4 <- re_sub false pattern (process_match f) text3 ;;
  Ret (join (u " ") (split text4)).

(** The passes of [process_text] after the percentage pass. *)
Definition final_passes (f : str -> outcome str) (text2 : str) : outcome str :=
  let text3 := symbol_loop symbols text2 in
  text4 <- re_sub false pattern (process_match f) text3 ;;
  Ret (join (u " ") (split text4)).

(** The nasal of the first rule whose class holds [c]. *)
Definition class_nasal (rules : list rule) (c : char) : option char :=
  option_map nasal (find (fun r => existsb (N.eqb c) (consonants r)) rules).

(** The rules in one pass: an anusvara before a consonant of a class
    becomes the nasal of that class and a virama. *)
Fixpoint homorganic (rules : list rule) (s : str) : str :=
  match s with
  | [] => []
  | a :: s1 =>
      match s1 with
      | c :: s2 =>
          match (if N.eqb a ANUSVARA then class_nasal rules c else None) with
          | Some n => n :: VIRAMA :: c :: homorganic rules s2
          | None => a :: homorganic rules s1
          end
      | [] => [a]
      end
  end.

(** The number of anusvaras that stand before a consonant of a class. *)
Fixpoint clusters (rules : list rule) (s : str) : nat :=
  match s with
  | [] => 0
  | a :: s1 =>
      match s1 with
      | c :: _ =>
          (if N.eqb a ANUSVARA
           then match class_nasal rules c with
                | Some _ => 1
                | None => 0
                end
           else 0) + clusters rules s1
      | [] => 0
      end
  end.

(** No anusvara stands before another. *)
Fixpoint no_double_anusvara (s : str) : bool :=
  match s with
  | [] => true
  | a :: s1 =>
      match s1 with
      | c :: _ =>
          negb (N.eqb a ANUSVARA && N.eqb c ANUSVARA) && no_double_anusvara s1
      | [] => true
      end
  end.

(** A rule that can follow the rules [done] without meeting them: the
    anusvara is in none of the classes and is none of the nasals, and no
    nasal of [done] is in the class of the rule. *)
Definition joins (done : list rule) (r : rule) : bool :=
  negb (existsb (N.eqb ANUSVARA) (consonants r))
  && forallb (fun r' => negb (existsb (N.eqb ANUSVARA) (consonants r'))
                        && negb (N.eqb (nasal r') ANUSVARA)
                        && negb (existsb (N.eqb (nasal r')) (consonants r)))
             done.

Fixpoint chain (done todo : list rule) : bool :=
  match todo with
  | [] => true
  | r :: todo' => joins done r && chain (done ++ [r]) todo'
  end.

(** How the alternation (?:AD|BC|CE|BCE) reads an era suffix: what it
    takes and what it leaves.  [BC] comes before [BCE], so of [BCE] the
    last letter is left. *)
Definition era_readings : list (str * str) :=
  [(u "AD", []); (u "BC", []); (u "CE", []); (u "BC", u "E")].

(** What the symbol pass over [table] writes for one character: the word of
    its first entry between two spaces, or the character itself. *)
Definition spell_in (table : dict str str) (c : char) : str :=
  match find (fun kw : str * str =>
                match fst kw with
                | [k] => N.eqb c k && negb (N.eqb k PERCENT)
                | _ => false
                end) table with
  | Some kw => u " " ++ snd kw ++ u " "
  | None => [c]
  end.

Definition spell_symbol (c : char) : str := spell_in symbols c.

(** A part of a reading, split at its first space: the count in words
    before it and the scale name after it (none for the leftover). *)
Fixpoint before_space (p : str) : str :=
  match p with
  | [] => []
  | c :: p' => if N.eqb c 0x20%N then [] else c :: before_space p'
  end.

Fixpoint after_space (p : str) : str :=
  match p with
  | [] => []
  | c :: p' => if N.eqb c 0x20%N then p' else after_space p'
  end.

(** The counts in words of the parts that carry the scale name [scale]. *)
Definition slot (scale : str) (parts : list str) : list str :=
  map before_space (filter (fun p => str_eqb (after_space p) scale) parts).

(** The word of a count, none for zero. *)
Definition count_word (k : Z) : list str :=
  if (k =? 0)%Z then []
  else match subscript number_lookup k with
       | Ret w => [w]
       | _ => []
       end.

(** The parts of a reading: the five counts in words, each with its scale
    name. *)
Definition reading_parts (n : Z) : list str :=
  map (fun w : str => w ++ 0x20%N :: u "crore") (count_word (n / 10000000))
  ++ map (fun w : str => w ++ 0x20%N :: u "lakh")
       (count_word (n mod 10000000 / 100000))
  ++ map (fun w : str => w ++ 0x20%N :: u "thousand")
       (count_word (n mod 100000 / 1000))
  ++ map (fun w : str => w ++ 0x20%N :: u "hundred") (count_word (n mod 1000 / 100))
  ++ count_word (n mod 100).

(** A result other than running out of fuel. *)
Definition finished {A : Type} (o : outcome A) : Prop := o <> OutOfFuel.

(* ================================================================== *)
(** * Properties *)

(** ** The cardinal converter *)

Lemma bind_assoc {A B C : Type} (m : outcome A) (f : A -> outcome B)
      (g : B -> outcome C) :
  bind (bind m f) g = bind m (fun a => bind (f a) g).
Proof. destruct m; reflexivity. Qed.

(** One turn of the scale loop emits the segment of [remaining / value]
    and goes on with [remaining mod value]. *)
Lemma scale_loop_step (scale : str) (value : Z) (sc : dict str Z)
      (parts : list str) (remaining : Z) :
  (0 <= remaining)%Z -> (0 < value)%Z ->
  scale_loop ((scale, value) :: sc) parts remaining =
  (seg <- segment (remaining / value) scale ;;
   scale_loop sc (parts ++ seg) (remaining mod value)).
Proof.
  intros Hrem Hval. cbn [scale_loop]. unfold segment.
  destruct (Z.geb_spec remaining value) as [Hge | Hlt].
  - assert (Hcount : (0 < remaining / value)%Z)
      by (apply Z.div_str_pos; lia).
    destruct (Z.gtb_spec (remaining / value) 0) as [_ | Hle]; [| lia].
    destruct (Z.eqb_spec (remaining / value) 0) as [H0 | _]; [lia |].
    rewrite bind_assoc. reflexivity.
  - rewrite (Z.div_small remaining value) by lia.
    rewrite (Z.mod_small remaining value) by lia.
    cbn. rewrite app_nil_r. reflexivity.
Qed.

Lemma mod_mod_scale (n a b : Z) :
  (0 < b)%Z -> (b | a)%Z -> (0 < a)%Z -> ((n mod a) mod b = n mod b)%Z.
Proof.
  intros Hb Hdiv Ha. apply Z.mod_mod_divide; assumption.
Qed.

Lemma process_number_to_words (n : Z) :
  (0 <= n)%Z -> _process_number n = to_words n.
Proof.
  intros Hn. unfold _process_number, to_words.
  destruct (Z.eqb_spec n 0) as [-> | Hnz]; [reflexivity |].
  unfold scales.
  rewrite scale_loop_step by lia.
  rewrite bind_assoc.
  destruct (segment (n / 10000000) (u "crore")) as [crore | e |]; cbn [bind];
    [| reflexivity | reflexivity].
  rewrite scale_loop_step by (try apply Z.mod_pos_bound; lia).
  rewrite bind_assoc.
  destruct (segment (n mod 10000000 / 100000) (u "lakh")) as [lakh | e |];
    cbn [bind]; [| reflexivity | reflexivity].
  rewrite (mod_mod_scale n (a := 10000000) (b := 100000));
    [| lia | exists 100%Z; reflexivity | lia].
  rewrite scale_loop_step by (try apply Z.mod_pos_bound; lia).
  rewrite bind_assoc.
  destruct (segment (n mod 100000 / 1000) (u "thousand")) as [thousand | e |];
    cbn [bind]; [| reflexivity | reflexivity].
  rewrite (mod_mod_scale n (a := 100000) (b := 1000));
    [| lia | exists 100%Z; reflexivity | lia].
  rewrite scale_loop_step by (try apply Z.mod_pos_bound; lia).
  rewrite bind_assoc.
  destruct (segment (n mod 1000 / 100) (u "hundred")) as [hundred | e |];
    cbn [bind]; [| reflexivity | reflexivity].
  rewrite (mod_mod_scale n (a := 1000) (b := 100));
    [| lia | exists 10%Z; reflexivity | lia].
  cbn [scale_loop bind].
  unfold leftover, _process_smaller_number.
  pose proof (Z.mod_pos_bound n 100 ltac:(lia)) as Hb.
  destruct (Z.gtb_spec (n mod 100) 0) as [Hpos | Hzero].
  - destruct (Z.eqb_spec (n mod 100) 0) as [H0 | _]; [lia |].
    rewrite !bind_assoc.
    destruct (subscript number_lookup (n mod 100)) as [w | e |]; cbn [bind];
      [| reflexivity | reflexivity].
    rewrite <- !app_assoc. reflexivity.
  - destruct (Z.eqb_spec (n mod 100) 0) as [_ | Hne]; [| lia].
    cbn [bind]. rewrite <- !app_assoc, !app_nil_r. reflexivity.
Qed.

(** C4. The cardinal converter follows the decomposition rule of the
    specification on every non-negative integer: scale by scale in the
    order crore, lakh, thousand, hundred, one segment per nonzero count,
    the leftover below 100 through the 0-99 lookup, the segments joined
    with commas.  In particular 0, 19, 43, 100 and 125000 read "zero",
    "nineteen", "forty-three", "one hundred" and
    "one lakh, twenty-five thousand". *)
Theorem process_number_decomposition :
  (forall n : Z, (0 <= n)%Z -> _process_number n = to_words n)
  /\ _process_number 0 = Ret (u "zero")
  /\ _process_number 19 = Ret (u "nineteen")
  /\ _process_number 43 = Ret (u "forty-three")
  /\ _process_number 100 = Ret (u "one hundred")
  /\ _process_number 125000 = Ret (u "one lakh, twenty-five thousand").
Proof.
  split; [exact process_number_to_words |].
  repeat split; vm_compute; reflexivity.
Qed.

Lemma process_number_decomposition_witness :
  (0 <= 125000)%Z /\
  _process_number 125000 = to_words 125000.
Proof.
  split; [lia |].
  apply (proj1 process_number_decomposition 125000%Z); lia.
Defined.

(** ** The matcher returns matches of the pattern *)

Lemma star_sound (R : Type) (p : char -> bool) (s : str)
      (k : str -> option R) (x : R) :
  star p s k = Some x ->
  exists w s', s = w ++ s' /\ forallb p w = true /\ k s' = Some x.
Proof.
  induction s as [| c s IH]; cbn [star]; intros H.
  - exists [], []. auto.
  - destruct (p c) eqn:Hp.
    + destruct (star p s k) as [y |] eqn:Hs.
      * injection H as ->.
        destruct (IH eq_refl) as (w & s' & -> & Hw & Hk).
        exists (c :: w), s'. cbn. rewrite Hp, Hw. auto.
      * exists [], (c :: s). auto.
    + exists [], (c :: s). auto.
Qed.

Lemma firstn_consumed (w s' : str) :
  firstn (List.length (w ++ s') - List.length s') (w ++ s') = w.
Proof.
  rewrite length_app, Nat.add_sub.
  rewrite firstn_app, Nat.sub_diag, firstn_all. cbn. apply app_nil_r.
Qed.

Lemma run_sound (ic : bool) (R : Type) (r : regex) :
  forall (s : str) (g : groups) (k : str -> groups -> option R) (x : R),
    run ic r s g k = Some x ->
    exists w s' g', s = w ++ s' /\ den ic r w g g' /\ k s' g' = Some x.
Proof.
  induction r as [a | | r1 IH1 r2 IH2 | r1 IH1 r2 IH2 | r1 IH1 | a | n r1 IH1];
    intros s g k x H; cbn [run] in H; cbn [den].
  - destruct s as [| c s]; [discriminate |].
    destruct (atom_ok ic a c) eqn:Ha; [| discriminate].
    exists [c], s, g. repeat split; eauto.
  - exists [], s, g. auto.
  - apply IH1 in H. destruct H as (w1 & s1 & g1 & -> & D1 & H).
    apply IH2 in H. destruct H as (w2 & s2 & g2 & -> & D2 & H).
    exists (w1 ++ w2), s2, g2. rewrite app_assoc. repeat split; eauto.
    exists w1, w2, g1. auto.
  - destruct (run ic r1 s g k) as [y |] eqn:H1.
    + injection H as ->. apply IH1 in H1.
      destruct H1 as (w & s' & g' & -> & D & H). exists w, s', g'. auto.
    + apply IH2 in H.
      destruct H as (w & s' & g' & -> & D & H). exists w, s', g'. auto.
  - destruct (run ic r1 s g k) as [y |] eqn:H1.
    + injection H as ->. apply IH1 in H1.
      destruct H1 as (w & s' & g' & -> & D & H). exists w, s', g'. auto.
    + exists [], s, g. auto.
  - apply star_sound in H. destruct H as (w & s' & -> & Hw & H).
    exists w, s', g. auto.
  - apply IH1 in H. destruct H as (w & s' & g1 & -> & D & H).
    rewrite firstn_consumed in H.
    exists w, s', (set_group n w g1). repeat split; eauto.
Qed.

Lemma re_match_sound (ic : bool) (r : regex) (s : str) (m : rmatch) :
  re_match ic r s = Some m ->
  exists s', s = group0 m ++ s' /\ den ic r (group0 m) [] (captures m).
Proof.
  unfold re_match. intros H. apply run_sound in H.
  destruct H as (w & s' & g' & -> & D & H).
  rewrite firstn_consumed in H. injection H as <-. cbn. eauto.
Qed.

(** *** Consequences for the shape of a match *)

Lemma den_first (ic : bool) (r : regex) :
  forall w g g',
    den ic r w g g' ->
    match w with
    | [] => nullable r = true
    | c :: _ => exists a, In a (first_atoms r) /\ atom_ok ic a c = true
    end.
Proof.
  induction r as [a | | r1 IH1 r2 IH2 | r1 IH1 r2 IH2 | r1 IH1 | a | n r1 IH1];
    intros w g g' D; cbn [den] in D; cbn [nullable first_atoms].
  - destruct D as (c & -> & Ha & _). exists a. cbn. auto.
  - destruct D as [-> _]. reflexivity.
  - destruct D as (w1 & w2 & g1 & -> & D1 & D2).
    apply IH1 in D1. apply IH2 in D2.
    destruct w1 as [| c w1]; cbn.
    + rewrite D1. destruct w2 as [| c w2]; [exact D2 |].
      destruct D2 as (a & Ha & Hc). exists a. split; [| exact Hc].
      apply in_or_app. auto.
    + destruct D1 as (a & Ha & Hc). exists a. split; [| exact Hc].
      apply in_or_app. auto.
  - destruct D as [D | D]; [apply IH1 in D | apply IH2 in D];
      (destruct w as [| c w];
       [rewrite D; auto using orb_true_r
       | destruct D as (a & Ha & Hc); exists a; split;
         [apply in_or_app; auto | exact Hc]]).
  - destruct D as [D | [-> _]]; [| reflexivity].
    apply IH1 in D. destruct w; auto.
  - destruct D as [Hw _]. destruct w as [| c w]; [reflexivity |].
    cbn in Hw. apply andb_true_iff in Hw. exists a. cbn. tauto.
  - destruct D as (g1 & D & _). apply IH1 in D. exact D.
Qed.

Lemma atom_eqb_eq (a b : atom) : atom_eqb a b = true -> a = b.
Proof.
  destruct a, b; cbn; try discriminate; intros H; try reflexivity.
  - apply N.eqb_eq in H. congruence.
  - apply andb_true_iff in H. destruct H as [H1 H2].
    apply N.eqb_eq in H1, H2. congruence.
  - f_equal. revert l0 H.
    induction l as [| x l IH]; intros [| y l0]; cbn; try discriminate; auto.
    intros H. apply andb_true_iff in H. destruct H as [H1 H2].
    apply N.eqb_eq in H1. f_equal; auto.
Qed.

Lemma den_needs (ic : bool) (a0 : atom) (r : regex) :
  forall w g g',
    den ic r w g g' -> needs a0 r = true ->
    existsb (atom_ok ic a0) w = true.
Proof.
  induction r as [a | | r1 IH1 r2 IH2 | r1 IH1 r2 IH2 | r1 IH1 | a | n r1 IH1];
    intros w g g' D N; cbn [den] in D; cbn [needs] in N;
    try discriminate.
  - apply atom_eqb_eq in N. subst a0.
    destruct D as (c & -> & Ha & _). cbn. rewrite Ha. reflexivity.
  - destruct D as (w1 & w2 & g1 & -> & D1 & D2).
    rewrite existsb_app. apply orb_true_iff in N. apply orb_true_iff.
    destruct N as [N | N]; [left; eapply IH1 | right; eapply IH2]; eauto.
  - apply andb_true_iff in N. destruct N as [N1 N2].
    destruct D as [D | D]; [eapply IH1 | eapply IH2]; eauto.
  - destruct D as (g1 & D & _). eapply IH1; eauto.
Qed.

Lemma den_atoms (ic : bool) (r : regex) :
  forall w g g',
    den ic r w g g' ->
    forall c, In c w -> exists a, In a (atoms r) /\ atom_ok ic a c = true.
Proof.
  induction r as [a | | r1 IH1 r2 IH2 | r1 IH1 r2 IH2 | r1 IH1 | a | n r1 IH1];
    intros w g g' D c Hc; cbn [den] in D; cbn [atoms].
  - destruct D as (c' & -> & Ha & _). destruct Hc as [<- | []].
    exists a. cbn. auto.
  - destruct D as [-> _]. destruct Hc.
  - destruct D as (w1 & w2 & g1 & -> & D1 & D2).
    apply in_app_or in Hc.
    destruct Hc as [Hc | Hc];
      [destruct (IH1 _ _ _ D1 c Hc) as (a & Ha & Hok)
      | destruct (IH2 _ _ _ D2 c Hc) as (a & Ha & Hok)];
      exists a; (split; [apply in_or_app; auto | exact Hok]).
  - destruct D as [D | D];
      [destruct (IH1 _ _ _ D c Hc) as (a & Ha & Hok)
      | destruct (IH2 _ _ _ D c Hc) as (a & Ha & Hok)];
      exists a; (split; [apply in_or_app; auto | exact Hok]).
  - destruct D as [D | [-> _]]; [eauto | destruct Hc].
  - destruct D as [Hw _]. rewrite forallb_forall in Hw.
    exists a. cbn. auto.
  - destruct D as (g1 & D & _). eauto.
Qed.

(** Every captured group is a piece of text that satisfies what the
    matched text satisfies. *)
Lemma den_groups (ic : bool) (P : char -> Prop) (r : regex) :
  forall w g g',
    den ic r w g g' ->
    Forall P w ->
    (forall n x, get_group n g = Some x -> Forall P x) ->
    forall n x, get_group n g' = Some x -> Forall P x.
Proof.
  induction r as [a | | r1 IH1 r2 IH2 | r1 IH1 r2 IH2 | r1 IH1 | a | k r1 IH1];
    intros w g g' D Hw Hg; cbn [den] in D.
  - destruct D as (c & _ & _ & ->). exact Hg.
  - destruct D as [_ ->]. exact Hg.
  - destruct D as (w1 & w2 & g1 & -> & D1 & D2).
    apply Forall_app in Hw. destruct Hw as [Hw1 Hw2].
    eapply IH2; eauto.
  - destruct D as [D | D]; eauto.
  - destruct D as [D | [_ ->]]; eauto.
  - destruct D as [_ ->]. exact Hg.
  - destruct D as (g1 & D & ->). intros n x. cbn.
    destruct (Nat.eqb n k).
    + intros [= <-]. exact Hw.
    + eapply IH1; eauto.
Qed.

(** ** Substitution: what [re.sub] copies and what it replaces *)

Lemma scan_from_hit (ic : bool) (r : regex) :
  forall (s : str) (skip : nat) (m : rmatch),
    In (Hit m) (scan_from ic r s skip) ->
    exists a b, s = a ++ b /\ re_match ic r b = Some m.
Proof.
  induction s as [| c s IH]; intros skip m H; cbn [scan_from] in H.
  - destruct skip; [| destruct H].
    destruct (re_match ic r []) as [m' |] eqn:Hm; [| destruct H].
    destruct H as [[= ->] | []]. exists [], []. auto.
  - destruct skip as [| n].
    + destruct (re_match ic r (c :: s)) as [m' |] eqn:Hm.
      * assert (Hrest : forall k, In (Hit m) (scan_from ic r s k) ->
                              exists a b, c :: s = a ++ b
                                          /\ re_match ic r b = Some m).
        { intros k Hk. destruct (IH k m Hk) as (a & b & -> & Hb).
          exists (c :: a), b. auto. }
        destruct (List.length (group0 m')).
        -- destruct H as [[= ->] | [[=] | H]]; eauto.
           exists [], (c :: s). auto.
        -- destruct H as [[= ->] | H]; eauto.
           exists [], (c :: s). auto.
      * destruct H as [[=] | H].
        destruct (IH 0 m H) as (a & b & -> & Hb). exists (c :: a), b. auto.
    + destruct (IH n m H) as (a & b & -> & Hb). exists (c :: a), b. auto.
Qed.

Lemma scan_from_keep (ic : bool) (r : regex) :
  forall (s : str) (skip : nat) (c : char),
    In (Keep c) (scan_from ic r s skip) -> In c s.
Proof.
  induction s as [| d s IH]; intros skip c H; cbn [scan_from] in H.
  - destruct skip; [| destruct H].
    destruct (re_match ic r []); [| destruct H].
    destruct H as [[=] | []].
  - destruct skip as [| n]; [| right; eauto].
    destruct (re_match ic r (d :: s)) as [m' |].
    + destruct (List.length (group0 m')).
      * destruct H as [[=] | [[= ->] | H]]; [left; reflexivity | right; eauto].
      * destruct H as [[=] | H]. right; eauto.
    + destruct H as [[= ->] | H]; [left; reflexivity | right; eauto].
Qed.

(** Where the pattern matches nowhere, everything is copied. *)
Lemma scan_no_match (ic : bool) (r : regex) (Q : str -> Prop) :
  (forall c s, Q (c :: s) -> Q s) ->
  (forall s, Q s -> re_match ic r s = None) ->
  forall s, Q s -> scan ic r s = map Keep s.
Proof.
  intros Htl Hnone. unfold scan.
  induction s as [| c s IH]; intros HQ; cbn [scan_from map].
  - rewrite (Hnone [] HQ). reflexivity.
  - rewrite (Hnone (c :: s) HQ). f_equal. apply IH. eapply Htl; eauto.
Qed.

Lemma fill_keep (repl : rmatch -> outcome str) (s : str) :
  fill repl (map Keep s) = Ret s.
Proof.
  induction s as [| c s IH]; cbn; [reflexivity |]. rewrite IH. reflexivity.
Qed.

Lemma fill_ext (f g : rmatch -> outcome str) (ps : list piece) :
  (forall m, In (Hit m) ps -> f m = g m) -> fill f ps = fill g ps.
Proof.
  induction ps as [| [c | m] ps IH]; intros H; cbn [fill].
  - reflexivity.
  - rewrite IH; [reflexivity |]. intros m Hm. apply H. right. exact Hm.
  - rewrite (H m) by (left; reflexivity).
    rewrite IH; [reflexivity |]. intros m' Hm. apply H. right. exact Hm.
Qed.

Lemma finished_bind {A B : Type} (m : outcome A) (f : A -> outcome B) :
  finished m -> (forall a, m = Ret a -> finished (f a)) -> finished (bind m f).
Proof.
  unfold finished. destruct m; cbn; intros Hm Hf; auto; discriminate.
Qed.

Lemma fill_finished (repl : rmatch -> outcome str) (ps : list piece) :
  (forall m, In (Hit m) ps -> finished (repl m)) -> finished (fill repl ps).
Proof.
  induction ps as [| [c | m] ps IH]; intros H; cbn [fill].
  - discriminate.
  - apply finished_bind; [apply IH; intros; apply H; right; auto |].
    discriminate.
  - apply finished_bind; [apply H; left; reflexivity |]. intros w _.
    apply finished_bind; [apply IH; intros; apply H; right; auto |].
    discriminate.
Qed.

(** A property of characters that holds of the copied characters and of
    the replacements holds of the result. *)
Lemma fill_forall (P : char -> Prop) (repl : rmatch -> outcome str)
      (ps : list piece) :
  (forall c, In (Keep c) ps -> P c) ->
  (forall m w, In (Hit m) ps -> repl m = Ret w -> Forall P w) ->
  forall out, fill repl ps = Ret out -> Forall P out.
Proof.
  induction ps as [| [c | m] ps IH]; intros HK HH out H; cbn [fill] in H.
  - injection H as <-. constructor.
  - destruct (fill repl ps) as [rest | |] eqn:Hrest; try discriminate.
    injection H as <-. constructor.
    + apply HK. left. reflexivity.
    + apply IH; auto; intros; [apply HK | eapply HH]; try right; eauto.
  - destruct (repl m) as [w | |] eqn:Hw; try discriminate. cbn [bind] in H.
    destruct (fill repl ps) as [rest | |] eqn:Hrest; try discriminate.
    injection H as <-. apply Forall_app. split.
    + eapply HH; [left; reflexivity | exact Hw].
    + apply IH; auto; intros; [apply HK | eapply HH]; try right; eauto.
Qed.

(** A pattern whose matches all hold a digit matches nowhere in a text
    without digits. *)
Lemma no_digit_no_match (ic : bool) (r : regex) (s : str) :
  needs Digit r = true -> existsb isdecimal s = false ->
  re_match ic r s = None.
Proof.
  intros Hn Hs. destruct (re_match ic r s) as [m |] eqn:Hm; [| reflexivity].
  apply re_match_sound in Hm. destruct Hm as (s' & Heq & D).
  apply (den_needs _ Digit) in D; [| exact Hn].
  change (atom_ok ic Digit) with isdecimal in D.
  rewrite Heq, existsb_app, D in Hs. discriminate.
Qed.

Lemma no_digit_tail (c : char) (s : str) :
  existsb isdecimal (c :: s) = false -> existsb isdecimal s = false.
Proof. cbn. intros H. apply orb_false_iff in H. tauto. Qed.

Lemma re_sub_no_digit (ic : bool) (r : regex) (repl : rmatch -> outcome str)
      (s : str) :
  needs Digit r = true -> existsb isdecimal s = false ->
  re_sub ic r repl s = Ret s.
Proof.
  intros Hn Hs. unfold re_sub.
  rewrite (@scan_no_match ic r (fun s => existsb isdecimal s = false)).
  - apply fill_keep.
  - exact no_digit_tail.
  - intros s0 H0. apply no_digit_no_match; assumption.
  - exact Hs.
Qed.

(** ** White space *)

Lemma split_one_word (w : str) : word w -> split w = [w].
Proof.
  intros [Hne Hsp]. induction w as [| c w IH]; [congruence |].
  cbn in Hsp. apply orb_false_iff in Hsp. destruct Hsp as [Hc Hw].
  cbn [split]. rewrite Hc. destruct w as [| d w]; [reflexivity |].
  assert (Hd : isspace d = false)
    by (cbn in Hw; apply orb_false_iff in Hw; tauto).
  rewrite Hd, IH; [reflexivity | discriminate | exact Hw].
Qed.

Lemma split_word_space (w s : str) :
  word w -> split (w ++ SPACE ++ s) = w :: split s.
Proof.
  intros [Hne Hsp]. induction w as [| c w IH]; [congruence |].
  cbn in Hsp. apply orb_false_iff in Hsp. destruct Hsp as [Hc Hw].
  destruct w as [| d w].
  - cbn. rewrite Hc. reflexivity.
  - assert (Hd : isspace d = false)
      by (cbn in Hw; apply orb_false_iff in Hw; tauto).
    change ((c :: d :: w) ++ SPACE ++ s) with (c :: (d :: w) ++ SPACE ++ s).
    cbn [split]. rewrite Hc.
    change ((d :: w) ++ SPACE ++ s) with (d :: w ++ SPACE ++ s) at 1.
    cbv iota. rewrite Hd.
    change (d :: w ++ SPACE ++ s) with ((d :: w) ++ SPACE ++ s).
    rewrite IH; [reflexivity | discriminate | exact Hw].
Qed.

Lemma split_words (s : str) : Forall word (split s).
Proof.
  induction s as [| c s IH]; cbn [split]; [constructor |].
  destruct (isspace c) eqn:Hc; [exact IH |].
  destruct s as [| d s].
  - repeat constructor; [discriminate | cbn; rewrite Hc; reflexivity].
  - destruct (isspace d) eqn:Hd.
    + constructor; [| exact IH].
      split; [discriminate | cbn; rewrite Hc; reflexivity].
    + destruct (split (d :: s)) as [| w ws].
      * repeat constructor; [discriminate | cbn; rewrite Hc; reflexivity].
      * inversion IH as [| w' ws' [Hne Hw] Hws]; subst.
        constructor; [| exact Hws].
        split; [discriminate | cbn; rewrite Hc, Hw; reflexivity].
Qed.

Lemma split_join (ws : list str) :
  Forall word ws -> split (join SPACE ws) = ws.
Proof.
  induction ws as [| w ws IH]; intros H; [reflexivity |].
  inversion H as [| w' ws' Hw Hws]; subst.
  destruct ws as [| w2 ws].
  - cbn [join]. apply split_one_word. exact Hw.
  - change (join SPACE (w :: w2 :: ws))
      with (w ++ SPACE ++ join SPACE (w2 :: ws)).
    rewrite split_word_space by exact Hw. rewrite IH by exact Hws.
    reflexivity.
Qed.

(** Collapsing white space twice is collapsing it once. *)
Lemma join_split_idempotent (s : str) :
  join SPACE (split (join SPACE (split s))) = join SPACE (split s).
Proof. rewrite split_join by apply split_words. reflexivity. Qed.

(** ** The symbol pass *)

Lemma replace_absent (old new s : str) :
  contains old s = false -> replace old new s = s.
Proof.
  unfold replace. induction s as [| c s IH]; intros H; [reflexivity |].
  cbn [contains] in H. cbn [replace_from].
  destruct (strip_prefix old (c :: s)); [discriminate |].
  rewrite IH by exact H. reflexivity.
Qed.

Lemma symbol_loop_absent (table : dict str str) (text : str) :
  forallb (fun kw => negb (contains (fst kw) text)) table = true ->
  symbol_loop table text = text.
Proof.
  induction table as [| [symbol w] table IH]; intros H; [reflexivity |].
  cbn [forallb fst] in H. apply andb_true_iff in H. destruct H as [H1 H2].
  apply negb_true_iff in H1. cbn [symbol_loop].
  destruct (str_eqb symbol (u "%")); [apply IH; exact H2 |].
  rewrite replace_absent by exact H1. apply IH. exact H2.
Qed.

(** ** Idempotence *)

(** What [process_text] returns went through the white-space collapse. *)
Lemma process_text_collapsed (fuel : nat) (t out : str) :
  process_text fuel t = Ret out ->
  exists text4, out = join SPACE (split text4).
Proof.
  destruct fuel as [| fuel]; [discriminate |].
  cbn [process_text]. unfold process_text_body.
  destruct (_process_letter_number_combination t) as [t1 | |];
    try discriminate; cbn [bind].
  destruct (re_sub false percent_pattern _ t1) as [t2 | |];
    try discriminate; cbn [bind].
  destruct (re_sub false pattern _ _) as [t4 | |];
    try discriminate; cbn [bind].
  intros [= <-]. exists t4. reflexivity.
Qed.

(** A text without digits and without symbols of the table, once its white
    space is collapsed, is a fixed point of [process_text]. *)
Lemma process_text_fixed_point (fuel : nat) (text4 : str) :
  let out := join SPACE (split text4) in
  existsb isdecimal out = false ->
  forallb (fun kw => negb (contains (fst kw) out)) symbols = true ->
  process_text (S fuel) out = Ret out.
Proof.
  intros out Hd Hs. cbn [process_text]. unfold process_text_body.
  unfold _process_letter_number_combination.
  rewrite re_sub_no_digit by (reflexivity || exact Hd). cbn [bind].
  rewrite re_sub_no_digit by (reflexivity || exact Hd). cbn [bind].
  rewrite symbol_loop_absent by exact Hs.
  rewrite re_sub_no_digit by (reflexivity || exact Hd). cbn [bind].
  unfold out. fold SPACE. rewrite join_split_idempotent. reflexivity.
Qed.

(** C8. Idempotence on normalised output: when [process_text t] returns a
    string with no decimal digit (no character that [\d] matches) and no
    symbol of the symbol table, [process_text] returns that string
    unchanged when run on it again. *)
Theorem process_text_idempotent (fuel : nat) (t out : str) :
  process_text fuel t = Ret out ->
  existsb isdecimal out = false ->
  forallb (fun kw => negb (contains (fst kw) out)) symbols = true ->
  process_text fuel out = Ret out.
Proof.
  intros Hrun Hd Hs.
  destruct (process_text_collapsed fuel t Hrun) as (text4 & ->).
  destruct fuel as [| fuel]; [discriminate |].
  apply process_text_fixed_point; assumption.
Qed.

Lemma process_text_idempotent_witness :
  process_text 2 (u "Phase P1 & 5%") = Ret (u "Phase Phase one and five percent")
  /\ process_text 2 (u "Phase Phase one and five percent")
     = Ret (u "Phase Phase one and five percent").
Proof.
  split; [vm_compute; reflexivity |].
  apply (@process_text_idempotent 2 (u "Phase P1 & 5%")
           (u "Phase Phase one and five percent"));
    vm_compute; reflexivity.
Defined.

(** ** Characters *)

Ltac nstep :=
  match goal with
  | H : context [N.leb ?a ?b] |- _ => destruct (N.leb_spec a b)
  | H : context [N.ltb ?a ?b] |- _ => destruct (N.ltb_spec a b)
  | H : context [N.eqb ?a ?b] |- _ => destruct (N.eqb_spec a b)
  | |- context [N.leb ?a ?b] => destruct (N.leb_spec a b)
  | |- context [N.ltb ?a ?b] => destruct (N.ltb_spec a b)
  | |- context [N.eqb ?a ?b] => destruct (N.eqb_spec a b)
  end.

Ltac nbool :=
  repeat (nstep; cbn [andb orb negb existsb forallb] in * );
  try discriminate; try lia.

Lemma digit_in_range (zs : list N) (c : char) (d : Z) :
  digit_in zs c = Some d ->
  exists z, In z zs /\ (z <= c < z + 10)%N /\ d = Z.of_N (c - z).
Proof.
  induction zs as [| z zs IH]; cbn [digit_in]; [discriminate |].
  destruct (N.leb_spec z c); cbn [andb].
  - destruct (N.ltb_spec c (z + 10)).
    + intros [= <-]. exists z. cbn. auto.
    + intros H'. destruct (IH H') as (z' & Hz & Hr). exists z'. cbn. auto.
  - intros H'. destruct (IH H') as (z' & Hz & Hr). exists z'. cbn. auto.
Qed.

(** A decimal digit is an ASCII digit or lies at U+0660 or beyond. *)
Lemma isdecimal_where (c : char) :
  isdecimal c = true -> (0x30 <= c <= 0x39 \/ 0x660 <= c)%N.
Proof.
  unfold isdecimal, digit_value. destruct (digit_in decimal_zeros c) as [d |] eqn:H;
    [intros _ | discriminate].
  apply digit_in_range in H. destruct H as (z & Hz & Hr & _).
  assert (Hall : forallb (fun z => (z =? 0x30) || (0x660 <=? z))%N
                         decimal_zeros = true) by reflexivity.
  rewrite forallb_forall in Hall. specialize (Hall z Hz).
  apply orb_true_iff in Hall. destruct Hall as [Hz0 | Hbig].
  - apply N.eqb_eq in Hz0. lia.
  - apply N.leb_le in Hbig. lia.
Qed.

Lemma digit_value_bound (c : char) (d : Z) :
  digit_value c = Some d -> (0 <= d <= 9)%Z.
Proof.
  intros H. apply digit_in_range in H. destruct H as (z & _ & Hr & ->). lia.
Qed.

Lemma letterish_not_numeral (c : char) : letterish c -> numeral_char c = false.
Proof.
  intros H. unfold numeral_char. apply orb_false_iff. split.
  - destruct (isdecimal c) eqn:Hd; [exfalso | reflexivity].
    destruct H as [H | [H | [H | [H | [H | H]]]]];
      try (subst c; vm_compute in Hd; discriminate);
      apply isdecimal_where in Hd; lia.
  - unfold DOT. apply N.eqb_neq. unfold letterish in H. lia.
Qed.

Lemma tolower_letter (c : char) :
  (0x61 <= tolower c <= 0x7A)%N -> letterish c.
Proof. unfold tolower, letterish. intros H. nbool. Qed.

Lemma tolower_extra (c : char) :
  (tolower c = 0x131 \/ tolower c = 0x17F)%N -> letterish c.
Proof. unfold tolower, letterish. intros H. nbool. Qed.

Lemma letter_atom_ok (a : atom) (c : char) :
  letter_atom a = true -> atom_ok true a c = true -> letterish c.
Proof.
  destruct a as [l | | | lo hi | l]; cbn [letter_atom atom_ok];
    try discriminate.
  - intros Hl. unfold lit_ok.
    assert (Hlo : (0x61 <= tolower l <= 0x7A)%N)
      by (revert Hl; unfold in_range, tolower; intros Hl; nbool).
    clear Hl. generalize dependent (tolower l). intros lo Hlo H.
    apply orb_true_iff in H. destruct H as [H | H].
    + apply N.eqb_eq in H. apply tolower_letter. lia.
    + apply tolower_extra. revert H. unfold extra_cases.
      generalize (tolower c). intros y H. nbool.
  - intros H. apply andb_true_iff in H. destruct H as [H1 H2].
    apply N.eqb_eq in H1, H2. subst lo hi.
    unfold in_range, toupper. intros H.
    destruct (N.leb_spec 0x61 (tolower c)) as [Ha | Ha].
    + destruct (N.leb_spec (tolower c) 0x7A) as [Hb | Hb].
      * apply tolower_letter. lia.
      * apply tolower_extra. revert H Hb. generalize (tolower c).
        intros y H Hb. nbool.
    + revert H Ha. unfold tolower, letterish. intros H Ha. nbool.
Qed.

Lemma numeral_atom_ok (a : atom) (c : char) :
  numeral_atom a = true -> atom_ok false a c = true -> numeral_char c = true.
Proof.
  destruct a as [l | | | lo hi | l]; cbn [numeral_atom atom_ok lit_ok];
    try discriminate; unfold numeral_char.
  - intros Hl Hc. apply N.eqb_eq in Hl, Hc. subst.
    rewrite N.eqb_refl. apply orb_true_r.
  - intros _ ->. reflexivity.
Qed.

Lemma other_atom_ok (a : atom) (c : char) :
  other_atom a = true -> atom_ok false a c = true -> numeral_char c = false.
Proof.
  destruct a as [l | | | lo hi | l]; cbn [other_atom atom_ok lit_ok];
    try discriminate.
  intros Hl Hc. apply N.eqb_eq in Hc. subst. apply negb_true_iff. exact Hl.
Qed.

(** ** Where the patterns cannot match *)

Lemma needs_no_match (ic : bool) (a0 : atom) (r : regex) (s : str) :
  needs a0 r = true -> existsb (atom_ok ic a0) s = false ->
  re_match ic r s = None.
Proof.
  intros Hn Hs. destruct (re_match ic r s) as [m |] eqn:Hm; [| reflexivity].
  apply re_match_sound in Hm. destruct Hm as (s' & Heq & D).
  apply (den_needs _ a0) in D; [| exact Hn].
  rewrite Heq, existsb_app, D in Hs. discriminate.
Qed.

Lemma re_match_first (ic : bool) (r : regex) (s : str) (m : rmatch) :
  re_match ic r s = Some m -> nullable r = false ->
  exists c s' a,
    s = c :: s' /\ In a (first_atoms r) /\ atom_ok ic a c = true.
Proof.
  intros Hm Hn. apply re_match_sound in Hm. destruct Hm as (s' & Heq & D).
  apply den_first in D. destruct (group0 m) as [| c w]; [congruence |].
  destruct D as (a & Ha & Hc). exists c, (w ++ s'), a. rewrite Heq. auto.
Qed.

Lemma numeral_tail (c : char) (s : str) :
  forallb numeral_char (c :: s) = true -> forallb numeral_char s = true.
Proof. cbn. intros H. apply andb_true_iff in H. tauto. Qed.

Lemma numeral_without (x : char) (s : str) :
  numeral_char x = false -> forallb numeral_char s = true ->
  existsb (fun c => N.eqb c x) s = false.
Proof.
  intros Hx. induction s as [| c s IH]; cbn; [reflexivity |].
  intros H. apply andb_true_iff in H. destruct H as [Hc Hs].
  rewrite IH by exact Hs. destruct (N.eqb_spec c x); [congruence | reflexivity].
Qed.

Lemma numeral_letter_no_match (s : str) :
  forallb numeral_char s = true -> re_match true letter_pattern s = None.
Proof.
  intros Hs. destruct (re_match true letter_pattern s) as [m |] eqn:Hm;
    [exfalso | reflexivity].
  apply re_match_first in Hm; [| reflexivity].
  destruct Hm as (c & s' & a & -> & Ha & Hc).
  assert (Hall : forallb letter_atom (first_atoms letter_pattern) = true)
    by reflexivity.
  rewrite forallb_forall in Hall.
  pose proof (letterish_not_numeral (letter_atom_ok a c (Hall a Ha) Hc)) as Hn.
  cbn in Hs. rewrite Hn in Hs. discriminate.
Qed.

Lemma numeral_percent_no_match (s : str) :
  forallb numeral_char s = true -> re_match false percent_pattern s = None.
Proof.
  intros Hs. apply (needs_no_match false (Lit PERCENT)); [reflexivity |].
  apply (numeral_without PERCENT); [reflexivity | exact Hs].
Qed.

Lemma numeral_currency_no_match (s : str) :
  forallb numeral_char s = true -> re_match false currency_pattern s = None.
Proof.
  intros Hs. destruct (re_match false currency_pattern s) as [m |] eqn:Hm;
    [exfalso | reflexivity].
  apply re_match_first in Hm; [| reflexivity].
  destruct Hm as (c & s' & a & -> & Ha & Hc).
  assert (Hall : forallb other_atom (first_atoms currency_pattern) = true)
    by reflexivity.
  rewrite forallb_forall in Hall.
  pose proof (other_atom_ok a c (Hall a Ha) Hc) as Hn.
  cbn in Hs. rewrite Hn in Hs. discriminate.
Qed.

Lemma contains_single (c : char) (s : str) :
  contains [c] s = existsb (fun x => N.eqb x c) s.
Proof.
  induction s as [| x s IH]; [reflexivity |].
  cbn [contains strip_prefix existsb]. rewrite (N.eqb_sym x c).
  destruct (N.eqb c x); [reflexivity | exact IH].
Qed.

Lemma numeral_no_symbol (s : str) :
  forallb numeral_char s = true ->
  forallb (fun kw => negb (contains (fst kw) s)) symbols = true.
Proof.
  intros Hs.
  assert (Hall : forallb (fun kw : str * str =>
                            match fst kw with
                            | [c] => negb (numeral_char c)
                            | _ => false
                            end) symbols = true) by reflexivity.
  rewrite forallb_forall in Hall. apply forallb_forall.
  intros [k w] Hk. specialize (Hall _ Hk).
  cbn [fst] in *. destruct k as [| c [| d k]]; try discriminate.
  apply negb_true_iff in Hall. rewrite contains_single.
  rewrite (numeral_without c) by assumption. reflexivity.
Qed.

(** ** A numeral is all that the handlers pass back to [process_text] *)

Lemma number_re_numeral (w : str) (g g' : groups) :
  den false number_re w g g' -> forallb numeral_char w = true.
Proof.
  intros D. apply forallb_forall. intros c Hc.
  destruct (den_atoms _ _ _ _ _ D c Hc) as (a & Ha & Hok).
  assert (Hall : forallb numeral_atom (atoms number_re) = true) by reflexivity.
  rewrite forallb_forall in Hall. eapply numeral_atom_ok; eauto.
Qed.

Lemma percent_group_numeral (s : str) (m : rmatch) :
  re_match false percent_pattern s = Some m ->
  forallb numeral_char (group_str m 1) = true.
Proof.
  intros Hm. apply re_match_sound in Hm. destruct Hm as (s' & _ & D).
  unfold group_str, group. destruct (captures m) as [| p g'] eqn:Hg;
    cbn [den percent_pattern] in D;
    destruct D as (w1 & w2 & g1 & _ & (g0 & D1 & ->) & D2);
    destruct D2 as (w3 & w4 & g2 & _ & (_ & ->) & (c & _ & _ & Heq));
    [discriminate |].
  injection Heq as -> ->. cbn. eapply number_re_numeral; eauto.
Qed.

Lemma currency_group_numeral (s : str) (m : rmatch) :
  re_match false currency_pattern s = Some m ->
  forallb numeral_char (group_str m 2) = true.
Proof.
  intros Hm. apply re_match_sound in Hm. destruct Hm as (s' & _ & D).
  unfold group_str, group.
  cbn [den currency_pattern] in D.
  destruct D as (w1 & w2 & g1 & _ & _ & D2).
  destruct D2 as (w3 & w4 & g2 & _ & _ & (g3 & D4 & Heq)).
  rewrite Heq. cbn. eapply number_re_numeral; eauto.
Qed.

Lemma scan_hit_infix (ic : bool) (r : regex) (s : str) (m : rmatch) :
  In (Hit m) (scan ic r s) ->
  exists a b, s = a ++ group0 m ++ b /\ re_match ic r (group0 m ++ b) = Some m.
Proof.
  intros H. apply scan_from_hit in H. destruct H as (a & b & -> & Hm).
  pose proof Hm as Hs. apply re_match_sound in Hs.
  destruct Hs as (s' & -> & _). exists a, s'. auto.
Qed.

Lemma numeral_infix (a w b : str) :
  forallb numeral_char (a ++ w ++ b) = true -> forallb numeral_char w = true.
Proof.
  rewrite !forallb_app. intros H.
  apply andb_true_iff in H. destruct H as [_ H].
  apply andb_true_iff in H. tauto.
Qed.

(** On a span of digits and points [process_match] does not reach the
    currency handler. *)
Lemma process_match_numeral (f g : str -> outcome str) (m : rmatch) :
  forallb numeral_char (group0 m) = true ->
  process_match f m = process_match g m.
Proof.
  intros Hm. unfold process_match.
  change (group_str m 0) with (group0 m).
  rewrite numeral_currency_no_match by exact Hm. reflexivity.
Qed.

Lemma re_sub_no_match (ic : bool) (r : regex) (Q : str -> Prop)
      (repl : rmatch -> outcome str) (s : str) :
  (forall c s, Q (c :: s) -> Q s) ->
  (forall s, Q s -> re_match ic r s = None) ->
  Q s -> re_sub ic r repl s = Ret s.
Proof.
  intros Htl Hnone HQ. unfold re_sub.
  rewrite (@scan_no_match ic r Q Htl Hnone s HQ). apply fill_keep.
Qed.

(** On a numeral [process_text] calls itself no further. *)
Lemma process_text_body_numeral (f g : str -> outcome str) (w : str) :
  forallb numeral_char w = true ->
  process_text_body f w = process_text_body g w.
Proof.
  intros Hw. unfold process_text_body, _process_letter_number_combination.
  rewrite (@re_sub_no_match true letter_pattern
             (fun s => forallb numeral_char s = true)
             replace_match w numeral_tail numeral_letter_no_match Hw).
  cbn [bind].
  rewrite !(fun repl =>
              @re_sub_no_match false percent_pattern
                (fun s => forallb numeral_char s = true)
                repl w numeral_tail numeral_percent_no_match Hw).
  cbn [bind].
  rewrite symbol_loop_absent by (apply numeral_no_symbol; exact Hw).
  unfold re_sub.
  rewrite (@fill_ext (process_match f) (process_match g)); [reflexivity |].
  intros m Hm. apply process_match_numeral.
  apply scan_hit_infix in Hm. destruct Hm as (a & b & Heq & _).
  rewrite Heq in Hw. eapply numeral_infix; eauto.
Qed.

(** [process_text] depends on its self-calls through numerals only. *)
Lemma process_text_body_ext (f g : str -> outcome str) (text : str) :
  (forall w, forallb numeral_char w = true -> f w = g w) ->
  process_text_body f text = process_text_body g text.
Proof.
  intros Hfg. unfold process_text_body.
  destruct (_process_letter_number_combination text) as [t1 | |];
    cbn [bind]; try reflexivity.
  unfold re_sub.
  rewrite (@fill_ext (_handle_percentage f) (_handle_percentage g)).
  - destruct (fill (_handle_percentage g) _) as [t2 | |];
      cbn [bind]; try reflexivity.
    rewrite (@fill_ext (process_match f) (process_match g)); [reflexivity |].
    intros m _. unfold process_match.
    destruct (re_search false year_range_pattern (group_str m 0));
      [reflexivity |].
    destruct (re_match false currency_pattern (group_str m 0))
      as [cm |] eqn:Hcm; [| reflexivity].
    unfold _handle_currency. rewrite Hfg; [reflexivity |].
    eapply currency_group_numeral; eauto.
  - intros m Hm. unfold _handle_percentage. rewrite Hfg; [reflexivity |].
    apply scan_from_hit in Hm. destruct Hm as (a & b & _ & Hm).
    eapply percent_group_numeral; eauto.
Qed.

(** ** Termination *)

Lemma finished_ret {A : Type} (a : A) : finished (Ret a).
Proof. discriminate. Qed.

Lemma finished_raise {A : Type} (e : exn) : finished (@Raise A e).
Proof. discriminate. Qed.

Lemma finished_subscript {V : Type} (d : dict Z V) (k : Z) :
  finished (subscript d k).
Proof. unfold subscript. destruct (dict_find Z.eqb k d); discriminate. Qed.

Lemma finished_int (s : str) : finished (int s).
Proof.
  unfold int. destruct s as [| c s]; [discriminate |].
  generalize (c :: s) 0%Z. clear. intros s.
  induction s as [| c s IH]; intros acc; cbn [int_digits]; [discriminate |].
  destruct (digit_value c); [apply IH | discriminate].
Qed.

Lemma finished_try {A : Type} (body handler : outcome A) :
  finished body -> finished handler -> finished (try_ValueError body handler).
Proof.
  unfold try_ValueError. destruct body as [a | [k |] |]; auto.
Qed.

Create HintDb fin.
#[local] Hint Resolve finished_ret finished_raise finished_subscript
  finished_int : fin.

Ltac fin :=
  repeat first
    [ solve [auto with fin]
    | apply finished_bind; [| intros ? _]
    | apply finished_try
    | match goal with
      | |- finished (if ?b then _ else _) => destruct b
      | |- finished (match ?x with _ => _ end) => destruct x
      end ].

Lemma finished_scale_loop (sc : dict str Z) :
  forall parts remaining, finished (scale_loop sc parts remaining).
Proof.
  induction sc as [| [scale value] sc IH]; intros parts remaining;
    cbn [scale_loop]; unfold _process_smaller_number; fin; apply IH.
Qed.

Lemma finished_process_number (num : Z) : finished (_process_number num).
Proof.
  unfold _process_number, _process_smaller_number.
  destruct (num =? 0)%Z; [fin |].
  apply finished_bind; [apply finished_scale_loop |].
  intros [parts remaining] _. fin.
Qed.

Lemma finished_digit_words (s : str) : finished (digit_words s).
Proof. induction s as [| d s IH]; cbn [digit_words]; fin. Qed.

#[local] Hint Resolve finished_process_number finished_digit_words : fin.

Lemma finished_handle_decimal (s : str) : finished (_handle_decimal s).
Proof. unfold _handle_decimal. fin. Qed.

#[local] Hint Resolve finished_handle_decimal : fin.

Lemma finished_replace_match (m : rmatch) : finished (replace_match m).
Proof. unfold replace_match. fin. Qed.

Lemma finished_process_year_range (m : rmatch) :
  finished (_process_year_range m).
Proof. unfold _process_year_range. fin. Qed.

Lemma finished_re_sub (ic : bool) (r : regex) (repl : rmatch -> outcome str)
      (s : str) :
  (forall m, finished (repl m)) -> finished (re_sub ic r repl s).
Proof. intros H. apply fill_finished. auto. Qed.

(** With self-calls that return, [process_text] returns. *)
Lemma finished_process_text_body (f : str -> outcome str) (text : str) :
  (forall w, finished (f w)) -> finished (process_text_body f text).
Proof.
  intros Hf. unfold process_text_body, _process_letter_number_combination.
  apply finished_bind;
    [apply finished_re_sub, finished_replace_match | intros t1 _].
  apply finished_bind; [apply finished_re_sub | intros t2 _].
  { intros m. unfold _handle_percentage. fin. }
  apply finished_bind; [apply finished_re_sub | intros t4 _; fin].
  intros m. unfold process_match.
  destruct (re_search false year_range_pattern (group_str m 0)).
  - apply finished_re_sub, finished_process_year_range.
  - destruct (re_match false currency_pattern (group_str m 0)).
    + unfold _handle_currency. fin.
    + fin.
Qed.

Lemma process_text_numeral (fuel : nat) (w : str) :
  forallb numeral_char w = true ->
  process_text (S fuel) w = process_text 1 w.
Proof. intros Hw. cbn [process_text]. apply process_text_body_numeral, Hw. Qed.

Lemma finished_process_text_numeral (w : str) :
  forallb numeral_char w = true -> finished (process_text 1 w).
Proof.
  intros Hw.
  change (process_text 1 w) with (process_text_body (process_text 0) w).
  rewrite (@process_text_body_numeral (process_text 0) (fun _ => Ret []) w Hw).
  apply finished_process_text_body. intros. apply finished_ret.
Qed.

(** C9. [process_text] terminates on every input.  Its self-calls, from
    the percentage and the currency handlers, are on the numeral alone (a
    self-call that answers on numerals only serves as well), and on a
    numeral it calls itself no further: two levels of the recursion are
    enough for every text, more change nothing, and the result is a string
    or an exception, never an exhausted recursion. *)
Theorem process_text_terminates (text : str) (fuel : nat) :
  (forall f, process_text_body f text = process_text_body (on_numerals f) text)
  /\ process_text (S (S fuel)) text = process_text 2 text
  /\ process_text 2 text <> OutOfFuel.
Proof.
  split; [| split].
  - intros f. apply process_text_body_ext. intros w Hw.
    unfold on_numerals. rewrite Hw. reflexivity.
  - cbn [process_text]. apply process_text_body_ext. intros w Hw.
    apply (@process_text_numeral fuel w Hw).
  - change (finished (process_text_body (process_text 1) text)).
    rewrite (@process_text_body_ext (process_text 1)
               (fun w => if forallb numeral_char w then process_text 1 w
                         else Ret [])).
    + apply finished_process_text_body. intros w.
      destruct (forallb numeral_char w) eqn:Hw;
        [apply finished_process_text_numeral, Hw | apply finished_ret].
    + intros w Hw. rewrite Hw. reflexivity.
Qed.

(** ** The anusvara rules *)

Lemma rule_match (r : rule) (s : str) :
  re_match false (rule_pattern r) s =
  match s with
  | a :: c :: _ =>
      if N.eqb a ANUSVARA && existsb (N.eqb c) (consonants r)
      then Some {| group0 := [a; c]; captures := [(1%nat, [c])] |}
      else None
  | _ => None
  end.
Proof.
  unfold re_match, rule_pattern.
  destruct s as [| a [| c s2]]; cbn [run atom_ok lit_ok].
  - reflexivity.
  - destruct (N.eqb a ANUSVARA); reflexivity.
  - destruct (N.eqb a ANUSVARA); cbn [andb]; [| reflexivity].
    replace (existsb (fun c0 : char => N.eqb c c0) (consonants r))
      with (existsb (N.eqb c) (consonants r)) by reflexivity.
    destruct (existsb (N.eqb c) (consonants r)); [| reflexivity].
    pose proof (firstn_consumed [a; c] s2) as E2.
    pose proof (firstn_consumed [c] s2) as E1.
    cbn [app] in E1, E2. rewrite E1, E2. reflexivity.
Qed.

Lemma scan_from_cons (ic : bool) (r : regex) (c : char) (s : str) :
  scan_from ic r (c :: s) 0 =
  match re_match ic r (c :: s) with
  | Some m =>
      match List.length (group0 m) with
      | O => Hit m :: Keep c :: scan_from ic r s 0
      | S n => Hit m :: scan_from ic r s n
      end
  | None => Keep c :: scan_from ic r s 0
  end.
Proof. reflexivity. Qed.

(** [re.sub] with the pattern and template of a rule is [nasalize]. *)
Lemma apply_rule_nasalize (r : rule) (text : str) :
  apply_rule text r = nasalize (consonants r) (nasal r) text.
Proof.
  unfold apply_rule, re_sub_template, scan.
  remember (List.length text) as n eqn:Hn.
  assert (Hle : (List.length text <= n)%nat) by lia. clear Hn.
  revert text Hle.
  induction n as [| n IH]; intros text Hle.
  - destruct text; [| cbn in Hle; lia].
    cbn [scan_from]. rewrite rule_match. reflexivity.
  - destruct text as [| a [| c s2]].
    + cbn [scan_from]. rewrite rule_match. reflexivity.
    + cbn [scan_from]. rewrite !rule_match. reflexivity.
    + rewrite scan_from_cons, rule_match. cbn [nasalize].
      destruct (N.eqb a ANUSVARA && existsb (N.eqb c) (consonants r)).
      * cbn [List.length group0].
        change (scan_from false (rule_pattern r) (c :: s2) 1)
          with (scan_from false (rule_pattern r) s2 0).
        cbn [flat_map]. rewrite IH by (cbn [List.length] in *; lia). reflexivity.
      * cbn [flat_map]. rewrite IH by (cbn [List.length] in *; lia). reflexivity.
Qed.

Section TwoRules.

Variables (cls1 cls2 : list char) (n1 n2 : char).

Hypothesis disjoint12 :
  forall c, existsb (N.eqb c) cls1 = true -> existsb (N.eqb c) cls2 = false.
Hypothesis nasal2 : existsb (N.eqb n2) cls1 = false.
Hypothesis anusvara1 : existsb (N.eqb ANUSVARA) cls1 = false.
Hypothesis anusvara2 : existsb (N.eqb ANUSVARA) cls2 = false.
Hypothesis nasal2_other : N.eqb n2 ANUSVARA = false.

Lemma nasalize_skip (cls : list char) (n a : char) (s : str) :
  N.eqb a ANUSVARA = false ->
  nasalize cls n (a :: s) = a :: nasalize cls n s.
Proof. intros Ha. destruct s; cbn [nasalize]; rewrite ?Ha; reflexivity. Qed.

Lemma nasalize_head (cls : list char) (n x : char) (s : str) :
  exists y t, nasalize cls n (x :: s) = y :: t /\ (y = x \/ y = n).
Proof.
  destruct s as [| c s]; cbn [nasalize]; [eauto |].
  destruct (N.eqb x ANUSVARA && existsb (N.eqb c) cls); eauto.
Qed.

Lemma member_not_anusvara (cls : list char) (c : char) :
  existsb (N.eqb ANUSVARA) cls = false -> existsb (N.eqb c) cls = true ->
  N.eqb c ANUSVARA = false.
Proof.
  intros Ha Hc. destruct (N.eqb_spec c ANUSVARA) as [-> |]; congruence.
Qed.

Lemma nasalize_pair (cls : list char) (n a c : char) (s2 : str) :
  nasalize cls n (a :: c :: s2) =
  if N.eqb a ANUSVARA && existsb (N.eqb c) cls
  then n :: VIRAMA :: c :: nasalize cls n s2
  else a :: nasalize cls n (c :: s2).
Proof. reflexivity. Qed.

Lemma nasalize2_pair (a c : char) (s2 : str) :
  nasalize2 cls1 n1 cls2 n2 (a :: c :: s2) =
  if N.eqb a ANUSVARA && existsb (N.eqb c) cls1
  then n1 :: VIRAMA :: c :: nasalize2 cls1 n1 cls2 n2 s2
  else if N.eqb a ANUSVARA && existsb (N.eqb c) cls2
  then n2 :: VIRAMA :: c :: nasalize2 cls1 n1 cls2 n2 s2
  else a :: nasalize2 cls1 n1 cls2 n2 (c :: s2).
Proof. reflexivity. Qed.

(** Rule 1 after rule 2 is the two rules in one pass. *)
Lemma nasalize_after (s : str) :
  nasalize cls1 n1 (nasalize cls2 n2 s) = nasalize2 cls1 n1 cls2 n2 s.
Proof.
  remember (List.length s) as n eqn:Hn.
  assert (Hle : (List.length s <= n)%nat) by lia. clear Hn.
  revert s Hle. induction n as [| n IH]; intros s Hle.
  - destruct s; [reflexivity | cbn in Hle; lia].
  - destruct s as [| a [| c s2]]; [reflexivity | reflexivity |].
    assert (IH2 := IH s2 ltac:(cbn [List.length] in *; lia)).
    assert (IH1 := IH (c :: s2) ltac:(cbn [List.length] in *; lia)).
    rewrite nasalize2_pair, (nasalize_pair cls2 n2 a c s2).
    destruct (N.eqb a ANUSVARA) eqn:Ha; cbn [andb].
    + destruct (existsb (N.eqb c) cls1) eqn:Hc1.
      * (* the first rule applies; the second leaves the pair alone *)
        pose proof (disjoint12 c Hc1) as Hc2.
        pose proof (member_not_anusvara cls1 c anusvara1 Hc1) as Hc.
        rewrite Hc2, (nasalize_skip cls2 n2 c s2 Hc).
        rewrite nasalize_pair, Ha, Hc1. cbn [andb]. rewrite IH2. reflexivity.
      * destruct (existsb (N.eqb c) cls2) eqn:Hc2.
        -- (* the second rule applies; the first copies its result *)
           pose proof (member_not_anusvara cls2 c anusvara2 Hc2) as Hc.
           rewrite (nasalize_skip cls1 n1 n2 _ nasal2_other).
           rewrite (nasalize_skip cls1 n1 VIRAMA _ eq_refl).
           rewrite (nasalize_skip cls1 n1 c _ Hc).
           rewrite IH2. reflexivity.
        -- (* neither applies here *)
           rewrite <- IH1.
           destruct (nasalize_head cls2 n2 c s2) as (y & t & Heq & Hy).
           rewrite Heq, nasalize_pair, Ha.
           assert (Hy1 : existsb (N.eqb y) cls1 = false)
             by (destruct Hy as [-> | ->]; assumption).
           rewrite Hy1. reflexivity.
    + rewrite <- IH1. apply nasalize_skip. exact Ha.
Qed.

Lemma nasalize2_sym (s : str) :
  nasalize2 cls1 n1 cls2 n2 s = nasalize2 cls2 n2 cls1 n1 s.
Proof.
  remember (List.length s) as n eqn:Hn.
  assert (Hle : (List.length s <= n)%nat) by lia. clear Hn.
  revert s Hle. induction n as [| n IH]; intros s Hle.
  - destruct s; [reflexivity | cbn in Hle; lia].
  - destruct s as [| a [| c s2]]; [reflexivity | reflexivity |].
    assert (IH2 := IH s2 ltac:(cbn [List.length] in *; lia)).
    assert (IH1 := IH (c :: s2) ltac:(cbn [List.length] in *; lia)).
    change (nasalize2 cls1 n1 cls2 n2 (a :: c :: s2))
      with (if N.eqb a ANUSVARA && existsb (N.eqb c) cls1
            then n1 :: VIRAMA :: c :: nasalize2 cls1 n1 cls2 n2 s2
            else if N.eqb a ANUSVARA && existsb (N.eqb c) cls2
            then n2 :: VIRAMA :: c :: nasalize2 cls1 n1 cls2 n2 s2
            else a :: nasalize2 cls1 n1 cls2 n2 (c :: s2)).
    change (nasalize2 cls2 n2 cls1 n1 (a :: c :: s2))
      with (if N.eqb a ANUSVARA && existsb (N.eqb c) cls2
            then n2 :: VIRAMA :: c :: nasalize2 cls2 n2 cls1 n1 s2
            else if N.eqb a ANUSVARA && existsb (N.eqb c) cls1
            then n1 :: VIRAMA :: c :: nasalize2 cls2 n2 cls1 n1 s2
            else a :: nasalize2 cls2 n2 cls1 n1 (c :: s2)).
    rewrite IH2, IH1.
    destruct (N.eqb a ANUSVARA); cbn [andb]; [| reflexivity].
    destruct (existsb (N.eqb c) cls1) eqn:Hc1; [| reflexivity].
    rewrite (disjoint12 c Hc1). reflexivity.
Qed.

End TwoRules.

Lemma apart_disjoint (r1 r2 : rule) (c : char) :
  forallb (fun c => negb (existsb (N.eqb c) (consonants r2))) (consonants r1)
  = true ->
  existsb (N.eqb c) (consonants r1) = true ->
  existsb (N.eqb c) (consonants r2) = false.
Proof.
  intros Hall Hc. rewrite forallb_forall in Hall.
  apply existsb_exists in Hc. destruct Hc as (x & Hx & Heq).
  apply N.eqb_eq in Heq. subst x. apply negb_true_iff. apply Hall, Hx.
Qed.

Lemma apart_disjoint_sym (r1 r2 : rule) (c : char) :
  forallb (fun c => negb (existsb (N.eqb c) (consonants r2))) (consonants r1)
  = true ->
  existsb (N.eqb c) (consonants r2) = true ->
  existsb (N.eqb c) (consonants r1) = false.
Proof.
  intros Hall Hc. destruct (existsb (N.eqb c) (consonants r1)) eqn:H1;
    [| reflexivity].
  rewrite (apart_disjoint r1 r2 c Hall H1) in Hc. discriminate.
Qed.

(** Two rules that do not meet commute. *)
Lemma apply_rule_commute (r1 r2 : rule) (text : str) :
  apart r1 r2 = true ->
  apply_rule (apply_rule text r1) r2 = apply_rule (apply_rule text r2) r1.
Proof.
  unfold apart. intros H.
  repeat (apply andb_true_iff in H; destruct H as [H ?]).
  repeat match goal with
         | Hn : negb _ = true |- _ => apply negb_true_iff in Hn
         end.
  rewrite !apply_rule_nasalize.
  rewrite (@nasalize_after (consonants r2) (consonants r1)
             (nasal r2) (nasal r1));
    try assumption; [| intros c; apply apart_disjoint_sym; exact H].
  rewrite (@nasalize_after (consonants r1) (consonants r2)
             (nasal r1) (nasal r2));
    try assumption; [| intros c; apply apart_disjoint; exact H].
  apply nasalize2_sym. intros c. apply apart_disjoint_sym. exact H.
Qed.

(** A fold of steps that commute pairwise does not depend on their order. *)
Lemma fold_left_permutation {A B : Type} (f : A -> B -> A) (l l' : list B) :
  Permutation l l' ->
  (forall x y, In x l -> In y l ->
               x = y \/ forall a, f (f a x) y = f (f a y) x) ->
  forall a, fold_left f l a = fold_left f l' a.
Proof.
  induction 1 as [| x l l' HP IH | x y l | l l' l'' HP1 IH1 HP2 IH2];
    intros Hc a.
  - reflexivity.
  - cbn. apply IH. intros; apply Hc; right; assumption.
  - cbn. destruct (Hc y x) as [-> | Hyx]; cbn; auto.
    rewrite Hyx. reflexivity.
  - rewrite IH1 by exact Hc. apply IH2.
    intros x y Hx Hy. apply Hc; eapply Permutation_in;
      try eassumption; apply Permutation_sym; assumption.
Qed.

Lemma mappings_apart (x y : rule) :
  In x mappings -> In y mappings -> x = y \/ apart x y = true.
Proof.
  unfold mappings. cbn [In]. intros Hx Hy.
  repeat destruct Hx as [<- | Hx]; try contradiction;
    repeat destruct Hy as [<- | Hy]; try contradiction;
    first [left; reflexivity | right; reflexivity].
Qed.

(** C10. The five class substitutions of the anusvara normaliser are
    order-independent: applied in any permutation of the implemented order
    they give the same string. *)
Theorem normalize_text_order_independent (rules : list rule) (text : str) :
  Permutation rules mappings ->
  apply_rules rules text = normalize_text text.
Proof.
  intros HP. unfold normalize_text, apply_rules. symmetry.
  apply fold_left_permutation; [apply Permutation_sym; exact HP |].
  intros x y Hx Hy. destruct (mappings_apart Hx Hy) as [-> | Hxy];
    [left; reflexivity | right].
  intros a. apply apply_rule_commute. exact Hxy.
Qed.

Lemma normalize_text_order_independent_witness :
  Permutation (rev mappings) mappings
  /\ apply_rules (rev mappings)
       [0x915; 0x902; 0x92A; 0x902; 0x902; 0x91F; 0x902; 0x928]%N
     = normalize_text
         [0x915; 0x902; 0x92A; 0x902; 0x902; 0x91F; 0x902; 0x928]%N.
Proof.
  assert (HP : Permutation (rev mappings) mappings)
    by (apply Permutation_sym, Permutation_rev).
  split; [exact HP |].
  apply (@normalize_text_order_independent (rev mappings) _ HP).
Defined.

(** ** No generic symbol is left *)

Lemma wordy_not_symbol (c : char) : wordy c = true -> generic_symbol c = false.
Proof.
  intros Hw. destruct (generic_symbol c) eqn:G; [exfalso | reflexivity].
  unfold generic_symbol in G. apply existsb_exists in G.
  destruct G as ([k w] & Hin & H). cbn [fst] in H.
  assert (Hall : forallb (fun kw : str * str =>
                            match fst kw with
                            | [k] => negb (wordy k)
                            | _ => true
                            end) symbols = true) by reflexivity.
  rewrite forallb_forall in Hall. specialize (Hall _ Hin). cbn [fst] in Hall.
  destruct k as [| k [| k' ks]]; try discriminate.
  apply andb_true_iff in H. destruct H as [H _]. apply N.eqb_eq in H. subst k.
  rewrite Hw in Hall. discriminate.
Qed.

Lemma wordy_all_safe (w : str) :
  forallb wordy w = true -> Forall safe w.
Proof.
  intros H. apply Forall_forall. intros c Hc.
  rewrite forallb_forall in H. apply wordy_not_symbol, H, Hc.
Qed.

Lemma replace_single (c : char) (new s : str) :
  replace [c] new s = flat_map (fun x => if N.eqb c x then new else [x]) s.
Proof.
  unfold replace. induction s as [| x s IH]; [reflexivity |].
  cbn [replace_from strip_prefix flat_map List.length Nat.sub].
  destruct (N.eqb c x); cbn [app]; rewrite IH; reflexivity.
Qed.

Lemma in_replace_single (c d : char) (new s : str) :
  In d (replace [c] new s) -> In d new \/ (In d s /\ d <> c).
Proof.
  rewrite replace_single. intros H. apply in_flat_map in H.
  destruct H as (x & Hx & Hd).
  destruct (N.eqb_spec c x) as [-> | Hne]; [left; exact Hd |].
  destruct Hd as [<- | []]. right. split; [exact Hx | congruence].
Qed.

(** After the symbol pass a character is either of the padding words or
    was in the text and is no replaced key. *)
Lemma symbol_loop_in (table : dict str str) :
  (forall k w, In (k, w) table ->
               (exists c, k = [c]) /\ forallb wordy w = true) ->
  forall (text : str) (d : char),
    In d (symbol_loop table text) ->
    wordy d = true
    \/ (In d text
        /\ forall c w, In ([c], w) table -> c <> PERCENT -> d <> c).
Proof.
  induction table as [| [symbol w] table IH]; intros Htab text d H.
  - right. split; [exact H | intros c w []].
  - cbn [symbol_loop] in H.
    destruct (Htab symbol w (or_introl eq_refl)) as [[k ->] Hw].
    assert (Htab' : forall k w, In (k, w) table ->
                                (exists c, k = [c]) /\ forallb wordy w = true)
      by (intros; apply Htab; right; assumption).
    destruct (str_eqb [k] (u "%")) eqn:Hk.
    + destruct (IH Htab' text d H) as [Hd | [Hd Hkeys]]; [left; exact Hd |].
      right. split; [exact Hd |].
      intros c w' [[= -> ->] | Hin] Hc; [| eapply Hkeys; eauto].
      cbn in Hk. rewrite andb_true_r in Hk. apply N.eqb_eq in Hk.
      unfold PERCENT in Hc. congruence.
    + destruct (IH Htab' _ d H) as [Hd | [Hd Hkeys]]; [left; exact Hd |].
      apply in_replace_single in Hd. destruct Hd as [Hd | [Hd Hne]].
      * left. rewrite forallb_forall in Hw.
        apply in_app_or in Hd. destruct Hd as [[<- | []] | Hd]; [reflexivity |].
        apply in_app_or in Hd. destruct Hd as [Hd | [<- | []]];
          [apply Hw, Hd | reflexivity].
      * right. split; [exact Hd |].
        intros c w' [[= -> ->] | Hin] Hc; [exact Hne | eapply Hkeys; eauto].
Qed.

Lemma symbol_loop_safe (text : str) :
  Forall safe (symbol_loop symbols text).
Proof.
  apply Forall_forall. intros d Hd. unfold safe.
  apply (symbol_loop_in symbols) in Hd.
  - destruct Hd as [Hd | [_ Hkeys]]; [apply wordy_not_symbol, Hd |].
    destruct (generic_symbol d) eqn:G; [exfalso | reflexivity].
    unfold generic_symbol in G. apply existsb_exists in G.
    destruct G as ([k w] & Hin & H). cbn [fst] in H.
    destruct k as [| k [| k' ks]]; try discriminate.
    apply andb_true_iff in H. destruct H as [H1 H2].
    apply N.eqb_eq in H1. apply negb_true_iff, N.eqb_neq in H2.
    exact (Hkeys k w Hin H2 H1).
  - assert (Hall : forallb (fun kw : str * str =>
                              match fst kw with
                              | [_] => forallb wordy (snd kw)
                              | _ => false
                              end) symbols = true) by reflexivity.
    rewrite forallb_forall in Hall. intros k w Hin.
    specialize (Hall _ Hin). cbn [fst snd] in Hall.
    destruct k as [| k [| k' ks]]; try discriminate. eauto.
Qed.

(** *** The words of the converter *)

Lemma dict_find_in {K V : Type} (eqb : K -> K -> bool) (k : K) (d : dict K V)
      (v : V) :
  dict_find eqb k d = Some v -> exists k', In (k', v) d.
Proof.
  induction d as [| [k' v'] d IH]; cbn [dict_find]; [discriminate |].
  destruct (eqb k k').
  - intros [= ->]. exists k'. left. reflexivity.
  - intros H. destruct (IH H) as (k'' & Hin). exists k''. right. exact Hin.
Qed.

Lemma subscript_wordy (d : dict Z str) (k : Z) (w : str) :
  forallb (fun kv => forallb wordy (snd kv)) d = true ->
  subscript d k = Ret w -> forallb wordy w = true.
Proof.
  intros Hall. unfold subscript.
  destruct (dict_find Z.eqb k d) as [v |] eqn:Hf; [| discriminate].
  intros [= <-]. apply dict_find_in in Hf. destruct Hf as (k' & Hin).
  rewrite forallb_forall in Hall. exact (Hall _ Hin).
Qed.

Lemma number_lookup_wordy (k : Z) (w : str) :
  subscript number_lookup k = Ret w -> forallb wordy w = true.
Proof. apply subscript_wordy. reflexivity. Qed.

Lemma units_wordy (k : Z) (w : str) :
  subscript units k = Ret w -> forallb wordy w = true.
Proof. apply subscript_wordy. reflexivity. Qed.

Lemma join_wordy (sep : str) (l : list str) :
  forallb wordy sep = true -> forallb (forallb wordy) l = true ->
  forallb wordy (join sep l) = true.
Proof.
  intros Hsep. induction l as [| w l IH]; intros H; [reflexivity |].
  cbn [forallb] in H. apply andb_true_iff in H. destruct H as [Hw Hl].
  destruct l as [| w2 l]; [exact Hw |].
  change (join sep (w :: w2 :: l)) with (w ++ sep ++ join sep (w2 :: l)).
  rewrite !forallb_app, Hw, Hsep, IH by exact Hl. reflexivity.
Qed.

Lemma scale_loop_wordy (sc : dict str Z) :
  forallb (fun kv => forallb wordy (fst kv)) sc = true ->
  forall parts remaining parts' remaining',
    forallb (forallb wordy) parts = true ->
    scale_loop sc parts remaining = Ret (parts', remaining') ->
    forallb (forallb wordy) parts' = true.
Proof.
  induction sc as [| [scale value] sc IH]; intros Hsc parts remaining
    parts' remaining' Hp H; cbn [scale_loop] in H.
  - injection H as <- <-. exact Hp.
  - cbn [forallb fst] in Hsc. apply andb_true_iff in Hsc.
    destruct Hsc as [Hscale Hsc].
    destruct (remaining >=? value)%Z; [| eapply IH; eauto].
    destruct (remaining / value >? 0)%Z; [| eapply IH; eauto].
    unfold _process_smaller_number in H.
    destruct (subscript number_lookup (remaining / value)) as [w | |] eqn:Hw;
      try discriminate.
    cbn [bind] in H. eapply IH; [exact Hsc | | exact H].
    rewrite (forallb_app (forallb wordy) parts), Hp. cbn [forallb].
    rewrite !forallb_app, (number_lookup_wordy _ Hw), Hscale. reflexivity.
Qed.

Lemma process_number_wordy (num : Z) (w : str) :
  _process_number num = Ret w -> forallb wordy w = true.
Proof.
  unfold _process_number. destruct (num =? 0)%Z; [apply units_wordy |].
  destruct (scale_loop scales [] num) as [[parts remaining] | |] eqn:Hs;
    try discriminate.
  cbn [bind]. apply scale_loop_wordy in Hs; try reflexivity.
  destruct (remaining >? 0)%Z.
  - unfold _process_smaller_number.
    destruct (subscript number_lookup remaining) as [w' | |] eqn:Hw;
      try discriminate.
    cbn [bind]. intros [= <-]. apply join_wordy; [reflexivity |].
    rewrite (forallb_app (forallb wordy) parts), Hs. cbn [forallb].
    rewrite (number_lookup_wordy _ Hw). reflexivity.
  - cbn [bind]. intros [= <-]. apply join_wordy; [reflexivity | exact Hs].
Qed.

Lemma digit_words_wordy (s : str) (ws : list str) :
  digit_words s = Ret ws -> forallb (forallb wordy) ws = true.
Proof.
  revert ws. induction s as [| d s IH]; intros ws; cbn [digit_words].
  - intros [= <-]. reflexivity.
  - destruct (int [d]) as [n | |]; try discriminate. cbn [bind].
    destruct (subscript units n) as [w | |] eqn:Hw; try discriminate.
    cbn [bind].
    destruct (digit_words s) as [ws' | |]; try discriminate. cbn [bind].
    intros [= <-]. cbn [forallb].
    rewrite (units_wordy _ Hw), IH; reflexivity.
Qed.

Lemma handle_decimal_wordy (num_str w : str) :
  _handle_decimal num_str = Ret w -> forallb wordy w = true.
Proof.
  unfold _handle_decimal, try_ValueError.
  assert (Hhandler : forall w, (n <- int num_str ;; _process_number n) = Ret w ->
                               forallb wordy w = true).
  { intros w0. destruct (int num_str) as [n | |]; try discriminate.
    cbn [bind]. apply process_number_wordy. }
  destruct (split_on DOT num_str) as [| ip [| dp [| x l]]];
    try (apply Hhandler).
  destruct (int ip) as [n | [k |] |]; cbn [bind];
    try discriminate; try (apply Hhandler).
  destruct (_process_number n) as [iw | [k |] |] eqn:Hiw; cbn [bind];
    try discriminate; try (apply Hhandler).
  destruct (digit_words dp) as [ws | [k |] |] eqn:Hws; cbn [bind];
    try discriminate; try (apply Hhandler).
  intros [= <-].
  change (forallb wordy (iw ++ u " point " ++ join (u " ") ws) = true).
  rewrite !forallb_app, (process_number_wordy _ Hiw).
  rewrite join_wordy; [reflexivity | reflexivity |].
  eapply digit_words_wordy; eauto.
Qed.

(** *** What the text operations keep *)

Lemma join_forall (P : char -> Prop) (sep : str) (l : list str) :
  Forall P sep -> Forall (Forall P) l -> Forall P (join sep l).
Proof.
  intros Hsep. induction l as [| w l IH]; intros H; [constructor |].
  inversion H as [| w' l' Hw Hl]; subst.
  destruct l as [| w2 l]; [exact Hw |].
  change (join sep (w :: w2 :: l)) with (w ++ sep ++ join sep (w2 :: l)).
  repeat (apply Forall_app; split); auto.
Qed.

Lemma split_forall (P : char -> Prop) (s : str) :
  Forall P s -> Forall (Forall P) (split s).
Proof.
  induction s as [| c s IH]; intros H; cbn [split]; [constructor |].
  inversion H as [| c' s' Hc Hs]; subst. specialize (IH Hs).
  destruct (isspace c); [exact IH |].
  destruct s as [| d s]; [repeat constructor; exact Hc |].
  destruct (isspace d); [constructor; [repeat constructor; exact Hc | exact IH] |].
  destruct (split (d :: s)) as [| w ws]; [repeat constructor; exact Hc |].
  inversion IH as [| w' ws' Hw Hws]; subst.
  constructor; [constructor; assumption | exact Hws].
Qed.

Lemma lstrip_forall (P : char -> Prop) (s : str) :
  Forall P s -> Forall P (lstrip s).
Proof.
  induction s as [| c s IH]; intros H; cbn [lstrip]; [constructor |].
  destruct (isspace c); [| exact H].
  inversion H; subst. auto.
Qed.

Lemma strip_forall (P : char -> Prop) (s : str) :
  Forall P s -> Forall P (strip s).
Proof.
  intros H. unfold strip.
  apply Forall_rev, lstrip_forall, Forall_rev, lstrip_forall, H.
Qed.

(** The whole match and every group of a match are made of characters of
    the text. *)
Lemma re_match_forall (P : char -> Prop) (ic : bool) (r : regex) (s : str)
      (m : rmatch) :
  re_match ic r s = Some m -> Forall P s ->
  forall n, Forall P (group_str m n).
Proof.
  intros Hm Hs n. apply re_match_sound in Hm. destruct Hm as (s' & Heq & D).
  rewrite Heq in Hs. apply Forall_app in Hs. destruct Hs as [Hw _].
  unfold group_str, group. destruct n as [| n]; [exact Hw |].
  destruct (get_group (S n) (captures m)) as [x |] eqn:Hx; [| constructor].
  refine (@den_groups ic P r _ _ _ D Hw _ (S n) x Hx).
  intros k y. discriminate.
Qed.

Lemma scan_hit_forall (P : char -> Prop) (ic : bool) (r : regex) (s : str)
      (m : rmatch) :
  In (Hit m) (scan ic r s) -> Forall P s -> Forall P (group0 m).
Proof.
  intros Hm Hs. apply scan_hit_infix in Hm. destruct Hm as (a & b & Heq & _).
  rewrite Heq in Hs. apply Forall_app in Hs. destruct Hs as [_ Hs].
  apply Forall_app in Hs. tauto.
Qed.

Lemma re_sub_forall (P : char -> Prop) (ic : bool) (r : regex)
      (repl : rmatch -> outcome str) (s out : str) :
  Forall P s ->
  (forall m w, Forall P (group0 m) -> repl m = Ret w -> Forall P w) ->
  re_sub ic r repl s = Ret out -> Forall P out.
Proof.
  intros Hs Hrepl. unfold re_sub. apply fill_forall.
  - intros c Hc. apply scan_from_keep in Hc.
    rewrite Forall_forall in Hs. auto.
  - intros m w Hm. apply Hrepl. eapply scan_hit_forall; eauto.
Qed.

Lemma get_default_cases (d : dict str str) (k default : str) :
  get_default d k default = default
  \/ exists k', In (k', get_default d k default) d.
Proof.
  unfold get_default. destruct (dict_find str_eqb k d) as [v |] eqn:H;
    [right; eapply dict_find_in; eauto | left; reflexivity].
Qed.

(** *** The numeral-span pass *)

Lemma process_year_range_safe (m : rmatch) (w : str) :
  _process_year_range m = Ret w -> Forall safe w.
Proof.
  unfold _process_year_range.
  destruct (int (skipn 2 (group_str m 1))) as [d | |]; try discriminate.
  cbn [bind].
  destruct (subscript number_lookup d) as [w1 | |] eqn:H1; try discriminate.
  cbn [bind].
  destruct (int (group_str m 2)) as [y | |]; try discriminate. cbn [bind].
  destruct (subscript number_lookup y) as [w2 | |] eqn:H2; try discriminate.
  cbn [bind]. intros [= <-]. apply wordy_all_safe.
  change (forallb wordy
            ((u "twenty " ++ w1) ++ u "-" ++ (u "twenty " ++ w2)) = true).
  rewrite !forallb_app, (number_lookup_wordy _ H1), (number_lookup_wordy _ H2).
  reflexivity.
Qed.

Lemma process_match_safe (f : str -> outcome str) (m : rmatch) (w : str) :
  (forall t out, f t = Ret out -> Forall safe out) ->
  Forall safe (group0 m) ->
  process_match f m = Ret w -> Forall safe w.
Proof.
  intros Hf Hm. unfold process_match.
  change (group_str m 0) with (group0 m).
  destruct (re_search false year_range_pattern (group0 m)).
  { apply re_sub_forall; [exact Hm |].
    intros m' w' _. apply process_year_range_safe. }
  destruct (re_match false currency_pattern (group0 m)) as [cm |] eqn:Hcm.
  { unfold _handle_currency.
    destruct (f (group_str cm 2)) as [aw | |] eqn:Haw; try discriminate.
    cbn [bind]. intros [= <-].
    apply Forall_app. split;
      [| constructor; [reflexivity | eapply Hf; eauto]].
    destruct (get_default_cases currency_symbols (group_str cm 1)
                (group_str cm 1)) as [-> | (k' & Hin)].
    - eapply re_match_forall; eauto.
    - apply wordy_all_safe.
      assert (Hall : forallb (fun kv => forallb wordy (snd kv))
                             currency_symbols = true) by reflexivity.
      rewrite forallb_forall in Hall. exact (Hall _ Hin). }
  destruct (re_match false num_pattern (group0 m)) as [nm |] eqn:Hnm;
    [| intros [= <-]; exact Hm].
  assert (Hsuffix : Forall safe (group_str nm 2))
    by (eapply re_match_forall; eauto).
  assert (Hout : forall x, forallb wordy x = true ->
                           Forall safe (strip (x ++ u " " ++ group_str nm 2))).
  { intros x Hx. apply strip_forall.
    apply Forall_app. split; [apply wordy_all_safe, Hx |].
    constructor; [reflexivity | exact Hsuffix]. }
  destruct (existsb (N.eqb DOT) (group_str nm 1)).
  - destruct (_handle_decimal (group_str nm 1)) as [x | |] eqn:Hx;
      try discriminate.
    cbn [bind]. intros [= <-]. apply Hout. eapply handle_decimal_wordy; eauto.
  - destruct (int (group_str nm 1)) as [n | |]; try discriminate. cbn [bind].
    destruct (_process_number n) as [x | |] eqn:Hx; try discriminate.
    cbn [bind]. intros [= <-]. apply Hout. eapply process_number_wordy; eauto.
Qed.

(** Whatever [process_text] returns holds no symbol of the generic pass. *)
Lemma process_text_safe (fuel : nat) :
  forall t out, process_text fuel t = Ret out -> Forall safe out.
Proof.
  induction fuel as [| fuel IH]; intros t out; [discriminate |].
  cbn [process_text]. unfold process_text_body.
  destruct (_process_letter_number_combination t) as [t1 | |];
    try discriminate; cbn [bind].
  destruct (re_sub false percent_pattern _ t1) as [t2 | |];
    try discriminate; cbn [bind].
  destruct (re_sub false pattern _ _) as [t4 | |] eqn:H4;
    try discriminate; cbn [bind].
  intros [= <-].
  apply join_forall; [repeat constructor |].
  apply split_forall.
  eapply re_sub_forall; [apply symbol_loop_safe | | exact H4].
  intros m w Hm. apply process_match_safe; [exact IH | exact Hm].
Qed.

(** C5 as stated fails: a [%] that follows no numeral stays in the
    output. *)
Lemma process_text_keeps_bare_percent :
  ~ (forall (t out symbol word : str),
        process_text 2 t = Ret out ->
        In (symbol, word) symbols ->
        contains symbol out = false).
Proof.
  intros H.
  specialize (H (u "%") (u "%") (u "%") (u "percent") eq_refl
                (or_introl eq_refl)).
  discriminate.
Qed.

(** C5, amended. Whenever [process_text] returns, the returned string holds
    no occurrence of any symbol of the symbol table other than [%]. *)
Theorem process_text_no_generic_symbol (fuel : nat) (t out symbol word : str) :
  process_text fuel t = Ret out ->
  In (symbol, word) symbols ->
  symbol <> u "%" ->
  contains symbol out = false.
Proof.
  intros Hrun Hin Hne.
  assert (Hkeys : forallb (fun kw : str * str =>
                             match fst kw with
                             | [_] => true
                             | _ => false
                             end) symbols = true) by reflexivity.
  rewrite forallb_forall in Hkeys. pose proof (Hkeys _ Hin) as Hk.
  cbn [fst] in Hk. destruct symbol as [| k [| k' ks]]; try discriminate.
  rewrite contains_single.
  destruct (existsb (fun x => N.eqb x k) out) eqn:E; [exfalso | reflexivity].
  apply existsb_exists in E. destruct E as (c & Hc & Heq).
  apply N.eqb_eq in Heq. subst c.
  pose proof (process_text_safe fuel t Hrun) as Hsafe.
  rewrite Forall_forall in Hsafe. specialize (Hsafe k Hc). unfold safe in Hsafe.
  assert (Hsym : generic_symbol k = true).
  { unfold generic_symbol. apply existsb_exists. exists ([k], word).
    split; [exact Hin |]. cbn [fst]. rewrite N.eqb_refl. cbn [andb].
    apply negb_true_iff, N.eqb_neq. intros ->. apply Hne. reflexivity. }
  congruence.
Qed.

Lemma process_text_no_generic_symbol_witness :
  process_text 2 (u "A&B made $15 @ 5%")
  = Ret (u "A and B made Dollars fifteen at five percent")
  /\ contains (u "@") (u "A and B made Dollars fifteen at five percent")
     = false.
Proof.
  assert (Hrun : process_text 2 (u "A&B made $15 @ 5%")
                 = Ret (u "A and B made Dollars fifteen at five percent"))
    by (vm_compute; reflexivity).
  split; [exact Hrun |].
  apply (@process_text_no_generic_symbol 2 (u "A&B made $15 @ 5%")
           (u "A and B made Dollars fifteen at five percent")
           (u "@") (u "at") Hrun).
  - cbn. right. left. reflexivity.
  - discriminate.
Defined.

(** ** The year-range alternative is never taken *)

Lemma star_total (R : Type) (p : char -> bool) (s : str)
      (k : str -> option R) :
  (forall s', k s' <> None) -> star p s k <> None.
Proof.
  intros Hk. induction s as [| c s IH]; cbn [star]; [apply Hk |].
  destruct (p c); [| apply Hk].
  destruct (star p s k); [discriminate | apply Hk].
Qed.

Lemma run_alt (ic : bool) (R : Type) (r1 r2 : regex) (s : str) (g : groups)
      (k : str -> groups -> option R) :
  run ic (Alt r1 r2) s g k =
  match run ic r1 s g k with
  | Some x => Some x
  | None => run ic r2 s g k
  end.
Proof. reflexivity. Qed.

(** At a digit the plain-number alternative always matches. *)
Lemma plain_number_matches (R : Type) (d : char) (s : str) (g : groups)
      (k : str -> groups -> option R) :
  isdecimal d = true -> (forall s' g', k s' g' <> None) ->
  run false (Cat number_re (Opt (Cat (Star Space) era_re))) (d :: s) g k
  <> None.
Proof.
  intros Hd Hk. unfold number_re, plus.
  cbn [run atom_ok]. rewrite Hd.
  apply star_total. intros s1.
  repeat match goal with
         | |- match ?a with Some _ => _ | None => _ end <> None =>
             destruct a; [discriminate |]
         end.
  apply Hk.
Qed.

Lemma re_search_needs (ic : bool) (a0 : atom) (r : regex) (s : str) :
  needs a0 r = true -> existsb (atom_ok ic a0) s = false ->
  re_search ic r s = None.
Proof.
  intros Hn. induction s as [| c s IH]; intros Hs; cbn [re_search].
  - rewrite (needs_no_match ic a0 r [] Hn Hs). reflexivity.
  - rewrite (needs_no_match ic a0 r (c :: s) Hn Hs).
    apply IH. cbn in Hs. apply orb_false_iff in Hs. tauto.
Qed.

Lemma den_without (ic : bool) (r : regex) (x : char) (w : str)
      (g g' : groups) :
  den ic r w g g' ->
  forallb (fun a => negb (atom_ok ic a x)) (atoms r) = true ->
  existsb (fun c => N.eqb c x) w = false.
Proof.
  intros D Hall. destruct (existsb (fun c => N.eqb c x) w) eqn:E;
    [exfalso | reflexivity].
  apply existsb_exists in E. destruct E as (c & Hc & Heq).
  apply N.eqb_eq in Heq. subst c.
  destruct (den_atoms _ _ _ _ _ D x Hc) as (a & Ha & Hok).
  rewrite forallb_forall in Hall. specialize (Hall a Ha).
  rewrite Hok in Hall. discriminate.
Qed.

(** No span the numeral pattern finds holds a year range: at the digit
    where the year-range alternative could start, the plain-number
    alternative before it has already matched, and neither it nor the
    currency alternative takes a hyphen. *)
Lemma year_range_branch_unreachable (s : str) (m : rmatch) :
  re_match false pattern s = Some m ->
  re_search false year_range_pattern (group0 m) = None.
Proof.
  intros Hm. apply (re_search_needs false (Lit HYPHEN)); [reflexivity |].
  change (atom_ok false (Lit HYPHEN)) with (fun c => N.eqb c HYPHEN).
  unfold re_match, pattern in Hm. rewrite !run_alt in Hm.
  match type of Hm with
  | match ?a1 with _ => _ end = _ => destruct a1 as [x |] eqn:H1
  end.
  - injection Hm as ->. apply run_sound in H1.
    destruct H1 as (w & s' & g' & -> & D & Hk).
    rewrite firstn_consumed in Hk. injection Hk as <-. cbn [group0].
    eapply den_without; [exact D | reflexivity].
  - match type of Hm with
    | match ?a2 with _ => _ end = _ => destruct a2 as [x |] eqn:H2
    end.
    + injection Hm as ->. apply run_sound in H2.
      destruct H2 as (w & s' & g' & -> & D & Hk).
      rewrite firstn_consumed in Hk. injection Hk as <-. cbn [group0].
      eapply den_without; [exact D | reflexivity].
    + exfalso. apply run_sound in Hm.
      destruct Hm as (w & s' & g' & -> & D & _).
      apply den_first in D. destruct w as [| c w]; [discriminate |].
      destruct D as (a & Ha & Hc). cbn in Ha.
      destruct Ha as [<- | []]. cbn [atom_ok] in Hc.
      revert H2. apply plain_number_matches; [exact Hc | discriminate].
Qed.

(** ** The pipeline on the scenarios of the specification *)

(** C1. [process_text] is not total: on a digit run denoting one hundred
    crore the crore count is 100, [_process_smaller_number] looks it up in
    the 0-99 table, and the [KeyError] reaches the caller. *)
Theorem process_text_raises_on_hundred_crore :
  forall fuel : nat,
    process_text (S fuel) (u "1000000000") = Raise (KeyError 100).
Proof. intros fuel. vm_compute. reflexivity. Qed.

(** C2. On "2024-25" the numeral-span pattern never reaches its year-range
    alternative: the plain-number alternative before it takes "2024", the
    hyphen is copied and "25" is read on its own. *)
Theorem process_text_year_range :
  forall fuel : nat,
    process_text (S fuel) (u "2024-25")
    = Ret (u "two thousand, twenty-four-twenty-five").
Proof. intros fuel. vm_compute. reflexivity. Qed.

(** With any amount of fuel, "12.34.56" does not come back unchanged. *)
Lemma process_text_multi_dot_changed :
  forall fuel : nat, process_text fuel (u "12.34.56") <> Ret (u "12.34.56").
Proof.
  intros [| fuel]; [discriminate |].
  vm_compute. discriminate.
Qed.

(** C3 as stated fails: the token "12.34.56" is not returned unchanged. *)
Lemma process_text_multi_dot_counterexample :
  process_text 2 (u "12.34.56") <> Ret (u "12.34.56").
Proof. exact (process_text_multi_dot_changed 2). Qed.

(** C3, amended. On "12.34.56" [process_text] raises nothing and returns
    "twelve point three four.fifty-six": the numeral pattern takes "12.34"
    and "56" as two numerals and the point between them is copied. *)
Theorem process_text_multi_dot :
  forall fuel : nat,
    process_text (S fuel) (u "12.34.56")
    = Ret (u "twelve point three four.fifty-six").
Proof. intros fuel. vm_compute. reflexivity. Qed.

(** C6. Each prefix of the table, written as in the table and followed by
    a digit, is replaced by its expansion and the number in words; "Q1" and
    "Fig1" read "Quarter one" and "Figure one".  But the table is consulted
    with the prefix as it was written: in another letter case the prefix is
    matched and then left as it is. *)
Theorem process_text_letter_prefix :
  forall fuel : nat,
    Forall (fun kv : str * str =>
              process_text (S fuel) (fst kv ++ u "1")
              = Ret (snd kv ++ u " one")) letter_prefixes
    /\ process_text (S fuel) (u "Q1") = Ret (u "Quarter one")
    /\ process_text (S fuel) (u "Fig1") = Ret (u "Figure one")
    /\ process_text (S fuel) (u "fig1") = Ret (u "fig one")
    /\ process_text (S fuel) (u "FIG1") = Ret (u "FIG one").
Proof.
  intros fuel. split.
  - unfold letter_prefixes. repeat constructor; vm_compute; reflexivity.
  - repeat split; vm_compute; reflexivity.
Qed.

(** C7. "Rs 100" reads "Rupees one hundred", and so do the one-character
    symbols with or without a space; "Rs100" does not: the letter-prefix
    pass, which ignores case, takes "s100" first. *)
Theorem process_text_currency :
  forall fuel : nat,
    process_text (S (S fuel)) (u "Rs 100") = Ret (u "Rupees one hundred")
    /\ process_text (S (S fuel)) (u "$100") = Ret (u "Dollars one hundred")
    /\ process_text (S (S fuel)) (RUPEE :: u "100")
       = Ret (u "Rupees one hundred")
    /\ process_text (S (S fuel)) (EURO :: u " 100")
       = Ret (u "Euros one hundred")
    /\ process_text (S (S fuel)) (POUND :: u "100")
       = Ret (u "Pounds one hundred")
    /\ process_text (S (S fuel)) (u "Rs100") = Ret (u "Rs one hundred").
Proof. intros fuel. repeat split; vm_compute; reflexivity. Qed.

(* ================================================================== *)
(** * Further properties of the code *)

Unset Implicit Arguments.

(** ** The 0-99 lookup *)

Lemma in_range_100 (k : Z) : (0 <= k < 100)%Z <-> In k (range 100).
Proof.
  unfold range. rewrite in_map_iff. split.
  - intros H. exists (Z.to_nat k). split; [lia |]. apply in_seq. lia.
  - intros (n & <- & Hn). apply in_seq in Hn. lia.
Qed.

Lemma dict_find_key (k : Z) (d : dict Z str) (v : str) :
  dict_find Z.eqb k d = Some v -> In (k, v) d.
Proof.
  induction d as [| [k' v'] d IH]; cbn [dict_find]; [discriminate |].
  destruct (Z.eqb_spec k k') as [<- | Hne].
  - intros [= ->]. left. reflexivity.
  - intros H. right. apply IH, H.
Qed.

Lemma dict_find_absent (k : Z) (d : dict Z str) :
  (forall k' v, In (k', v) d -> k' <> k) -> dict_find Z.eqb k d = None.
Proof.
  induction d as [| [k' v'] d IH]; intros H; cbn [dict_find]; [reflexivity |].
  destruct (Z.eqb_spec k k') as [-> | Hne].
  - exfalso. apply (H k' v'); [left |]; reflexivity.
  - apply IH. intros k'' v Hin. apply (H k'' v). right. exact Hin.
Qed.

Lemma number_lookup_inside (k : Z) :
  (0 <= k < 100)%Z -> exists w, subscript number_lookup k = Ret w.
Proof.
  intros Hk. apply in_range_100 in Hk.
  assert (Hall : forallb (fun k => match dict_find Z.eqb k number_lookup with
                                   | Some _ => true
                                   | None => false
                                   end) (range 100) = true) by reflexivity.
  rewrite forallb_forall in Hall. specialize (Hall k Hk).
  unfold subscript. destruct (dict_find Z.eqb k number_lookup) as [w |];
    [exists w; reflexivity | discriminate].
Qed.

Lemma number_lookup_outside (k : Z) :
  (k < 0 \/ 100 <= k)%Z -> subscript number_lookup k = Raise (KeyError k).
Proof.
  intros Hk. unfold subscript. rewrite dict_find_absent; [reflexivity |].
  intros k' v Hin.
  assert (Hall : forallb (fun kv : Z * str =>
                            (0 <=? fst kv)%Z && (fst kv <? 100)%Z)
                         number_lookup = true) by reflexivity.
  rewrite forallb_forall in Hall. specialize (Hall _ Hin). cbn [fst] in Hall.
  apply andb_true_iff in Hall. destruct Hall as [H0 H100].
  apply Z.leb_le in H0. apply Z.ltb_lt in H100. lia.
Qed.

(** X1. The constructor's table is built without an exception; it is
    defined exactly on 0..99: a lookup returns a word for these keys and is
    a [KeyError] for every other integer. *)
Theorem number_lookup_domain (k : Z) :
  _generate_lookup_table = Ret number_lookup
  /\ ((0 <= k < 100)%Z <-> exists w, subscript number_lookup k = Ret w)
  /\ ((k < 0 \/ 100 <= k)%Z <->
      subscript number_lookup k = Raise (KeyError k)).
Proof.
  assert (Hcases : (0 <= k < 100)%Z \/ (k < 0 \/ 100 <= k)%Z) by lia.
  split; [vm_compute; reflexivity | split; split].
  - apply number_lookup_inside.
  - intros (w & Hw). destruct Hcases as [H | H]; [exact H |].
    rewrite (number_lookup_outside k H) in Hw. discriminate.
  - apply number_lookup_outside.
  - intros Hk. destruct Hcases as [H | H]; [| exact H].
    destruct (number_lookup_inside k H) as (w & Hw).
    rewrite Hw in Hk. discriminate.
Qed.

Lemma str_eqb_refl (w : str) : str_eqb w w = true.
Proof.
  induction w as [| c w IH]; [reflexivity |].
  cbn. rewrite N.eqb_refl, IH. reflexivity.
Qed.

Lemma number_lookup_same_word (i j : Z) (w : str) :
  subscript number_lookup i = Ret w ->
  subscript number_lookup j = Ret w ->
  i = j.
Proof.
  unfold subscript. intros Hi Hj.
  destruct (dict_find Z.eqb i number_lookup) as [wi |] eqn:Ei;
    [| discriminate].
  destruct (dict_find Z.eqb j number_lookup) as [wj |] eqn:Ej;
    [| discriminate].
  injection Hi as ->. injection Hj as ->.
  apply dict_find_key in Ei, Ej.
  assert (Hall : forallb (fun a : Z * str =>
                   forallb (fun b : Z * str =>
                              implb (str_eqb (snd a) (snd b))
                                    (Z.eqb (fst a) (fst b)))
                           number_lookup) number_lookup = true)
    by (vm_compute; reflexivity).
  rewrite forallb_forall in Hall. specialize (Hall _ Ei).
  rewrite forallb_forall in Hall. specialize (Hall _ Ej).
  cbn [fst snd] in Hall. rewrite str_eqb_refl in Hall.
  apply Z.eqb_eq. exact Hall.
Qed.

(** X2. No two numbers share a word in the 0-99 lookup. *)
Theorem number_lookup_injective (i j : Z) (w : str) :
  subscript number_lookup i = Ret w ->
  subscript number_lookup j = Ret w ->
  i = j.
Proof. exact (number_lookup_same_word i j w). Qed.

Lemma number_lookup_injective_witness :
  subscript number_lookup 43 = Ret (u "forty-three")
  /\ (43 = 43)%Z.
Proof.
  split; [reflexivity |].
  apply (@number_lookup_injective 43%Z 43%Z (u "forty-three"));
    reflexivity.
Defined.

(** ** The range of the cardinal converter *)

Lemma segment_small (count : Z) (scale : str) :
  (0 <= count < 100)%Z -> exists seg, segment count scale = Ret seg.
Proof.
  intros H. unfold segment. destruct (count =? 0)%Z; [eauto |].
  destruct (number_lookup_inside count H) as (w & ->). cbn. eauto.
Qed.

Lemma leftover_small (n : Z) :
  (0 <= n < 100)%Z -> exists seg, leftover n = Ret seg.
Proof.
  intros H. unfold leftover. destruct (n =? 0)%Z; [eauto |].
  destruct (number_lookup_inside n H) as (w & ->). cbn. eauto.
Qed.

Lemma process_number_small (n : Z) :
  (0 <= n < 1000000000)%Z -> exists w, _process_number n = Ret w.
Proof.
  intros Hn.
  rewrite process_number_to_words by lia. unfold to_words.
  destruct (n =? 0)%Z; [eauto |].
  destruct (segment_small (n / 10000000) (u "crore")) as (c & ->).
  { split; [apply Z.div_pos; lia |].
    apply Z.div_lt_upper_bound; lia. }
  destruct (segment_small (n mod 10000000 / 100000) (u "lakh")) as (l & ->).
  { pose proof (Z.mod_pos_bound n 10000000 ltac:(lia)).
    split; [apply Z.div_pos; lia | apply Z.div_lt_upper_bound; lia]. }
  destruct (segment_small (n mod 100000 / 1000) (u "thousand")) as (t & ->).
  { pose proof (Z.mod_pos_bound n 100000 ltac:(lia)).
    split; [apply Z.div_pos; lia | apply Z.div_lt_upper_bound; lia]. }
  destruct (segment_small (n mod 1000 / 100) (u "hundred")) as (h & ->).
  { pose proof (Z.mod_pos_bound n 1000 ltac:(lia)).
    split; [apply Z.div_pos; lia | apply Z.div_lt_upper_bound; lia]. }
  destruct (leftover_small (n mod 100)) as (r & ->).
  { apply Z.mod_pos_bound. lia. }
  cbn [bind]. eauto.
Qed.

Lemma process_number_large (n : Z) :
  (1000000000 <= n)%Z ->
  _process_number n = Raise (KeyError (n / 10000000)).
Proof.
  intros Hn. rewrite process_number_to_words by lia. unfold to_words.
  destruct (Z.eqb_spec n 0) as [H0 | _]; [lia |].
  unfold segment.
  assert (Hc : (100 <= n / 10000000)%Z)
    by (apply Z.div_le_lower_bound; lia).
  destruct (Z.eqb_spec (n / 10000000) 0) as [H0 | _]; [lia |].
  rewrite number_lookup_outside by lia. reflexivity.
Qed.

(** X3. Below one hundred crore the converter returns: for every
    [0 <= n < 1000000000], [_process_number n] is a string, made of
    letters, spaces, commas and hyphens only. *)
Theorem process_number_returns (n : Z) :
  (0 <= n < 1000000000)%Z ->
  exists w, _process_number n = Ret w /\ forallb wordy w = true.
Proof.
  intros Hn. destruct (process_number_small n Hn) as (w & Hw).
  exists w. split; [exact Hw |].
  eapply process_number_wordy; eauto.
Qed.

Lemma process_number_returns_witness :
  (0 <= 999999999 < 1000000000)%Z
  /\ exists w, _process_number 999999999 = Ret w /\ forallb wordy w = true.
Proof.
  split; [lia |]. apply (@process_number_returns 999999999%Z). lia.
Defined.

(** X4. From one hundred crore on the converter raises: for every
    [n >= 1000000000], [_process_number n] is the [KeyError] of the crore
    count [n // 10000000]. *)
Theorem process_number_raises (n : Z) :
  (1000000000 <= n)%Z ->
  _process_number n = Raise (KeyError (n / 10000000)).
Proof.
  exact (process_number_large n).
Qed.

Lemma process_number_raises_witness :
  (1000000000 <= 12345678901)%Z
  /\ _process_number 12345678901 = Raise (KeyError 1234).
Proof.
  split; [lia |].
  apply (@process_number_raises 12345678901%Z). lia.
Defined.

(** X5. A negative number is read as the empty string: no scale applies
    and nothing is left over. *)
Theorem process_number_negative (n : Z) :
  (n < 0)%Z -> _process_number n = Ret [].
Proof.
  intros Hn. unfold _process_number.
  destruct (Z.eqb_spec n 0) as [H0 | _]; [lia |].
  unfold scales. cbn [scale_loop].
  repeat match goal with
         | |- context [(n >=? ?v)%Z] =>
             destruct (Z.geb_spec n v); [lia |]
         end.
  cbn [bind]. destruct (Z.gtb_spec n 0); [lia |]. reflexivity.
Qed.

Lemma process_number_negative_witness :
  (-5 < 0)%Z /\ _process_number (-5) = Ret [].
Proof.
  split; [lia |]. apply (@process_number_negative (-5)%Z). lia.
Defined.

(** ** The decimal reader *)

Lemma int_digits_not_digit (s : str) :
  forall acc, forallb isdecimal s = false -> int_digits s acc = Raise ValueError.
Proof.
  induction s as [| c s IH]; intros acc H; [discriminate |].
  cbn [int_digits]. cbn [forallb] in H. unfold isdecimal in H.
  destruct (digit_value c) as [d |]; [| reflexivity].
  cbn [andb] in H. apply IH. exact H.
Qed.

Lemma int_returns (s : str) (n : Z) :
  int s = Ret n -> s <> [] /\ forallb isdecimal s = true.
Proof.
  intros H. split.
  - intros ->. discriminate.
  - destruct (forallb isdecimal s) eqn:E; [reflexivity |].
    unfold int in H. destruct s as [| c s]; [discriminate |].
    rewrite (int_digits_not_digit (c :: s) 0%Z E) in H. discriminate.
Qed.

Lemma int_digits_nonneg (s : str) :
  forall acc n, (0 <= acc)%Z -> int_digits s acc = Ret n -> (0 <= n)%Z.
Proof.
  induction s as [| c s IH]; intros acc n Hacc; cbn [int_digits].
  - intros [= <-]. exact Hacc.
  - destruct (digit_value c) as [d |] eqn:Hd; [| discriminate].
    apply digit_value_bound in Hd. apply IH. lia.
Qed.

Lemma int_nonneg (s : str) (n : Z) : int s = Ret n -> (0 <= n)%Z.
Proof.
  unfold int. destruct s as [| c s]; [discriminate |].
  apply int_digits_nonneg. lia.
Qed.

Lemma digits_no_dot (s : str) :
  forallb isdecimal s = true -> ~ In DOT s.
Proof.
  intros H Hin. rewrite forallb_forall in H. specialize (H DOT Hin).
  vm_compute in H. discriminate.
Qed.

Lemma int_with_dot (s : str) : In DOT s -> int s = Raise ValueError.
Proof.
  intros Hin. destruct (int s) as [n | [k |] |] eqn:E.
  - apply int_returns in E. destruct E as [_ E].
    exfalso. exact (digits_no_dot s E Hin).
  - exfalso. revert E. unfold int. destruct s as [| c s]; [discriminate |].
    generalize (c :: s) 0%Z. clear. intros s.
    induction s as [| c s IH]; intros acc; cbn [int_digits]; [discriminate |].
    destruct (digit_value c); [apply IH | discriminate].
  - reflexivity.
  - exfalso. exact (finished_int s E).
Qed.

Lemma split_on_no_dot (s : str) : ~ In DOT s -> split_on DOT s = [s].
Proof.
  induction s as [| c s IH]; intros H; [reflexivity |].
  cbn [split_on]. destruct (N.eqb_spec c DOT) as [-> | Hne].
  - exfalso. apply H. left. reflexivity.
  - rewrite IH; [reflexivity |]. intros Hin. apply H. right. exact Hin.
Qed.

Lemma split_on_at_dot (a b : str) :
  ~ In DOT a -> split_on DOT (a ++ DOT :: b) = a :: split_on DOT b.
Proof.
  induction a as [| c a IH]; intros H.
  - cbn [app split_on]. rewrite N.eqb_refl. reflexivity.
  - cbn [app split_on]. destruct (N.eqb_spec c DOT) as [-> | Hne].
    + exfalso. apply H. left. reflexivity.
    + rewrite IH; [reflexivity |]. intros Hin. apply H. right. exact Hin.
Qed.

Lemma split_on_length (s : str) :
  List.length (split_on DOT s) = S (count_occ N.eq_dec s DOT).
Proof.
  induction s as [| c s IH]; [reflexivity |].
  cbn [split_on count_occ].
  destruct (N.eqb_spec c DOT) as [-> | Hne].
  - destruct (N.eq_dec DOT DOT) as [_ | Hn]; [| congruence].
    cbn [List.length]. rewrite IH. reflexivity.
  - destruct (N.eq_dec c DOT) as [He | _]; [congruence |].
    destruct (split_on DOT s) as [| w ws]; [discriminate |].
    cbn [List.length] in *. exact IH.
Qed.



(** X7. With two points or more the decimal reader raises [ValueError]:
    the unpacking of the split fails, and so does the [int] of the
    fallback. *)
Theorem handle_decimal_many_points (s : str) :
  (2 <= count_occ N.eq_dec s DOT)%nat ->
  _handle_decimal s = Raise ValueError.
Proof.
  intros H. unfold _handle_decimal.
  pose proof (split_on_length s) as Hlen.
  assert (Hin : In DOT s) by (apply (count_occ_In N.eq_dec); lia).
  rewrite (int_with_dot s Hin).
  destruct (split_on DOT s) as [| a [| b [| c l]]]; cbn [List.length] in Hlen;
    try lia; reflexivity.
Qed.

Lemma handle_decimal_many_points_witness :
  (2 <= count_occ N.eq_dec (u "12.34.56") DOT)%nat
  /\ _handle_decimal (u "12.34.56") = Raise ValueError.
Proof.
  assert (H : (2 <= count_occ N.eq_dec (u "12.34.56") DOT)%nat)
    by (vm_compute; lia).
  split; [exact H |].
  exact (handle_decimal_many_points (u "12.34.56") H).
Defined.

Lemma digit_words_digits (dp : str) :
  forallb isdecimal dp = true ->
  digit_words dp = Ret (map digit_word dp).
Proof.
  induction dp as [| d dp IH]; intros H; [reflexivity |].
  cbn [forallb] in H. apply andb_true_iff in H. destruct H as [Hd Hdp].
  cbn [digit_words map]. unfold int, int_digits, digit_word.
  unfold isdecimal in Hd.
  destruct (digit_value d) as [v |] eqn:Hv; [| discriminate].
  cbn [bind]. replace (10 * 0 + v)%Z with v by lia.
  pose proof (@digit_value_bound d v Hv) as Hb.
  assert (Hall : forallb (fun k => match dict_find Z.eqb k units with
                                   | Some _ => true
                                   | None => false
                                   end) (range 10) = true) by reflexivity.
  rewrite forallb_forall in Hall.
  assert (Hin : In v (range 10)).
  { unfold range. apply in_map_iff. exists (Z.to_nat v).
    split; [lia |]. apply in_seq. lia. }
  specialize (Hall v Hin). unfold subscript.
  destruct (dict_find Z.eqb v units) as [w |]; [| discriminate].
  cbn [bind]. rewrite (IH Hdp). reflexivity.
Qed.

Lemma handle_decimal_point (ip dp : str) (n : Z) :
  int ip = Ret n ->
  forallb isdecimal dp = true ->
  _handle_decimal (ip ++ DOT :: dp)
  = (integer_words <- _process_number n ;;
     Ret (integer_words ++ u " point " ++ join (u " ") (map digit_word dp))).
Proof.
  intros Hip Hdp. unfold _handle_decimal.
  pose proof (int_returns ip n Hip) as [_ Hdigits].
  rewrite (split_on_at_dot ip dp (digits_no_dot ip Hdigits)).
  rewrite (split_on_no_dot dp (digits_no_dot dp Hdp)).
  rewrite Hip. cbn [bind].
  destruct (Z_lt_le_dec n 1000000000) as [Hsmall | Hbig].
  - destruct (process_number_small n) as (w & Hw);
      [pose proof (int_nonneg ip n Hip); lia |].
    rewrite Hw. cbn [bind]. rewrite (digit_words_digits dp Hdp). reflexivity.
  - rewrite (process_number_large n Hbig). reflexivity.
Qed.

(** X8. With one point between a run of digits and digits, the integer
    part is read by the cardinal converter and the fraction digit by digit,
    each digit by its value: the result is "<integer words> point <digit
    words>", or the [KeyError] of the converter. *)
Theorem handle_decimal_one_point (ip dp : str) (n : Z) :
  int ip = Ret n ->
  forallb isdecimal dp = true ->
  _handle_decimal (ip ++ DOT :: dp)
  = (integer_words <- _process_number n ;;
     Ret (integer_words ++ u " point " ++ join (u " ") (map digit_word dp))).
Proof.
  exact (handle_decimal_point ip dp n).
Qed.

Lemma handle_decimal_one_point_witness :
  int (u "12") = Ret 12%Z
  /\ forallb isdecimal (u "05") = true
  /\ _handle_decimal (u "12.05") = Ret (u "twelve point zero five").
Proof.
  assert (H1 : int (u "12") = Ret 12%Z) by reflexivity.
  assert (H2 : forallb isdecimal (u "05") = true) by reflexivity.
  split; [exact H1 | split; [exact H2 |]].
  exact (handle_decimal_one_point (u "12") (u "05") 12%Z H1 H2).
Defined.

(** ** The matcher finds a match where there is one *)

Lemma star_complete (R : Type) (p : char -> bool) (w s' : str)
      (k : str -> option R) :
  forallb p w = true -> k s' <> None -> star p (w ++ s') k <> None.
Proof.
  intros Hw Hk. induction w as [| c w IH]; cbn [app].
  - destruct s' as [| c s'']; cbn [star]; [exact Hk |].
    destruct (p c); [| exact Hk].
    destruct (star p s'' k); [discriminate | exact Hk].
  - cbn [forallb] in Hw. apply andb_true_iff in Hw. destruct Hw as [Hc Hw].
    cbn [star]. rewrite Hc.
    destruct (star p (w ++ s') k) eqn:E; [discriminate |].
    exfalso. exact (IH Hw eq_refl).
Qed.

Lemma run_complete (ic : bool) (R : Type) (r : regex) :
  forall (w : str) (g g' h : groups) (s' : str)
         (k : str -> groups -> option R),
    den ic r w g g' ->
    (forall h', k s' h' <> None) ->
    run ic r (w ++ s') h k <> None.
Proof.
  induction r as [a | | r1 IH1 r2 IH2 | r1 IH1 r2 IH2 | r1 IH1 | a | n r1 IH1];
    intros w g g' h s' k D Hk; cbn [den] in D; cbn [run].
  - destruct D as (c & -> & Ha & _). cbn [app]. rewrite Ha. apply Hk.
  - destruct D as [-> _]. apply Hk.
  - destruct D as (w1 & w2 & g1 & -> & D1 & D2). rewrite <- app_assoc.
    apply (IH1 w1 g g1 h (w2 ++ s') _ D1). intros h'.
    apply (IH2 w2 g1 g' h' s' k D2 Hk).
  - destruct (run ic r1 (w ++ s') h k) eqn:E; [discriminate |].
    destruct D as [D | D]; [| exact (IH2 w g g' h s' k D Hk)].
    exfalso. exact (IH1 w g g' h s' k D Hk E).
  - destruct (run ic r1 (w ++ s') h k) eqn:E; [discriminate |].
    destruct D as [D | [-> _]]; [| apply Hk].
    exfalso. exact (IH1 w g g' h s' k D Hk E).
  - destruct D as [Hw _]. apply star_complete; [exact Hw | apply Hk].
  - destruct D as (g1 & D & _).
    apply (IH1 w g g1 h s' _ D). intros h'. apply Hk.
Qed.

Lemma re_match_complete (ic : bool) (r : regex) (w : str) (g g' : groups)
      (s' : str) :
  den ic r w g g' -> re_match ic r (w ++ s') <> None.
Proof.
  intros D. unfold re_match.
  apply (run_complete ic rmatch r w g g' [] s' _ D). discriminate.
Qed.

(** What a group holds was matched by the expressions inside it. *)
Lemma den_group_atoms (ic : bool) (n : nat) (r : regex) :
  forall w g g' x,
    den ic r w g g' ->
    get_group n g' = Some x ->
    get_group n g = Some x
    \/ forall c, In c x ->
                 exists a, In a (group_atoms n r) /\ atom_ok ic a c = true.
Proof.
  induction r as [a | | r1 IH1 r2 IH2 | r1 IH1 r2 IH2 | r1 IH1 | a | k r1 IH1];
    intros w g g' x D Hx; cbn [den] in D; cbn [group_atoms].
  - destruct D as (c & _ & _ & ->). left. exact Hx.
  - destruct D as [_ ->]. left. exact Hx.
  - destruct D as (w1 & w2 & g1 & _ & D1 & D2).
    destruct (IH2 w2 g1 g' x D2 Hx) as [H | H].
    + destruct (IH1 w1 g g1 x D1 H) as [H' | H']; [left; exact H' |].
      right. intros c Hc. destruct (H' c Hc) as (a & Ha & Hok).
      exists a. split; [apply in_or_app; left; exact Ha | exact Hok].
    + right. intros c Hc. destruct (H c Hc) as (a & Ha & Hok).
      exists a. split; [apply in_or_app; right; exact Ha | exact Hok].
  - destruct D as [D | D];
      [destruct (IH1 w g g' x D Hx) as [H | H]
      | destruct (IH2 w g g' x D Hx) as [H | H]];
      try (left; exact H);
      right; intros c Hc; destruct (H c Hc) as (a & Ha & Hok);
      exists a; (split; [apply in_or_app; auto | exact Hok]).
  - destruct D as [D | [_ ->]]; [eauto | left; exact Hx].
  - destruct D as [_ ->]. left. exact Hx.
  - destruct D as (g1 & D & ->). cbn [get_group set_group] in Hx.
    destruct (Nat.eqb n k) eqn:E.
    + injection Hx as <-. right. intros c Hc.
      destruct (@den_atoms ic r1 w g g1 D c Hc) as (a & Ha & Hok).
      exists a. split; [apply in_or_app; left; exact Ha | exact Hok].
    + destruct (IH1 w g g1 x D Hx) as [H | H]; [left; exact H |].
      right. intros c Hc. destruct (H c Hc) as (a & Ha & Hok).
      exists a. split; [apply in_or_app; right; exact Ha | exact Hok].
Qed.

Lemma digitless_atom_ok (a : atom) (c : char) :
  digitless_atom a = true -> atom_ok false a c = true -> isdecimal c = false.
Proof.
  destruct a as [l | | | lo hi | l]; cbn [digitless_atom atom_ok lit_ok];
    try discriminate.
  intros Hl Hc. apply N.eqb_eq in Hc. subst. apply negb_true_iff. exact Hl.
Qed.

(** A group whose expressions match no digit holds no digit. *)
Lemma group_digitless (r : regex) (n : nat) (s : str) (m : rmatch) :
  re_match false r s = Some m ->
  forallb digitless_atom (group_atoms n r) = true ->
  n <> O ->
  existsb isdecimal (group_str m n) = false.
Proof.
  intros Hm Hall Hn. unfold group_str, group.
  destruct n as [| n]; [congruence |].
  destruct (get_group (S n) (captures m)) as [x |] eqn:Hx; [| reflexivity].
  apply re_match_sound in Hm. destruct Hm as (s' & _ & D).
  destruct (den_group_atoms false (S n) r _ _ _ x D Hx) as [H | H];
    [discriminate |].
  destruct (existsb isdecimal x) eqn:E; [exfalso | reflexivity].
  apply existsb_exists in E. destruct E as (c & Hc & Hd).
  destruct (H c Hc) as (a & Ha & Hok).
  rewrite forallb_forall in Hall.
  rewrite (digitless_atom_ok a c (Hall a Ha) Hok) in Hd. discriminate.
Qed.

(** ** No digit is left *)

Lemma wordy_nondigit (c : char) : wordy c = true -> nondigit c.
Proof.
  intros Hw. unfold nondigit. destruct (isdecimal c) eqn:Hd; [| reflexivity].
  exfalso. apply isdecimal_where in Hd. revert Hw. unfold wordy, in_range.
  intros Hw. nbool.
Qed.

Lemma wordy_all_nondigit (w : str) :
  forallb wordy w = true -> Forall nondigit w.
Proof.
  intros H. apply Forall_forall. intros c Hc.
  rewrite forallb_forall in H. apply wordy_nondigit, H, Hc.
Qed.

Lemma nondigit_existsb (w : str) :
  Forall nondigit w <-> existsb isdecimal w = false.
Proof.
  unfold nondigit. split.
  - intros H. induction H as [| c w Hc _ IH]; [reflexivity |].
    cbn. rewrite Hc, IH. reflexivity.
  - induction w as [| c w IH]; intros H; [constructor |].
    cbn in H. apply orb_false_iff in H. destruct H as [Hc Hw].
    constructor; auto.
Qed.

Lemma den_any_groups (ic : bool) (r : regex) :
  forall w g g', den ic r w g g' -> forall h, exists h', den ic r w h h'.
Proof.
  induction r as [a | | r1 IH1 r2 IH2 | r1 IH1 r2 IH2 | r1 IH1 | a | n r1 IH1];
    intros w g g' D h; cbn [den] in *.
  - destruct D as (c & -> & Ha & _). exists h, c. auto.
  - destruct D as [-> _]. exists h. auto.
  - destruct D as (w1 & w2 & g1 & -> & D1 & D2).
    destruct (IH1 _ _ _ D1 h) as (h1 & E1).
    destruct (IH2 _ _ _ D2 h1) as (h2 & E2).
    exists h2, w1, w2, h1. auto.
  - destruct D as [D | D];
      [destruct (IH1 _ _ _ D h) as (h' & E)
      | destruct (IH2 _ _ _ D h) as (h' & E)]; exists h'; auto.
  - destruct D as [D | [-> _]];
      [destruct (IH1 _ _ _ D h) as (h' & E); exists h'; auto
      | exists h; auto].
  - destruct D as [Hw _]. exists h. auto.
  - destruct D as (g1 & D & _). destruct (IH1 _ _ _ D h) as (h1 & E).
    exists (set_group n w h1), h1. auto.
Qed.

(** At a decimal digit the numeral pattern matches. *)
Lemma pattern_at_digit (d : char) (s : str) :
  isdecimal d = true -> re_match false pattern (d :: s) <> None.
Proof.
  intros Hd. unfold re_match, pattern. rewrite !run_alt.
  match goal with
  | |- match ?a1 with _ => _ end <> None => destruct a1; [discriminate |]
  end.
  match goal with
  | |- match ?a2 with _ => _ end <> None =>
      destruct a2 eqn:E2; [discriminate |]
  end.
  exfalso. revert E2. apply plain_number_matches; [exact Hd | discriminate].
Qed.

Lemma pattern_nonempty (s : str) (m : rmatch) :
  re_match false pattern s = Some m -> group0 m <> [].
Proof.
  intros Hm H0. apply re_match_sound in Hm. destruct Hm as (s' & _ & D).
  apply den_first in D. rewrite H0 in D. discriminate.
Qed.

(** A character [re.sub] copies stands where the pattern does not match
    (for a pattern without empty matches). *)
Lemma scan_from_keep_unmatched (ic : bool) (r : regex) :
  (forall s m, re_match ic r s = Some m -> group0 m <> []) ->
  forall (s : str) (skip : nat) (c : char),
    In (Keep c) (scan_from ic r s skip) ->
    exists b, re_match ic r (c :: b) = None.
Proof.
  intros Hne. induction s as [| d s IH]; intros skip c H; cbn [scan_from] in H.
  - destruct skip; [| destruct H].
    destruct (re_match ic r []); [| destruct H].
    destruct H as [[=] | []].
  - destruct skip as [| n]; [| eauto].
    destruct (re_match ic r (d :: s)) as [m' |] eqn:Hm.
    + destruct (List.length (group0 m')) eqn:Hlen.
      * exfalso. apply (Hne _ _ Hm).
        destruct (group0 m'); [reflexivity | discriminate].
      * destruct H as [[=] | H]. eauto.
    + destruct H as [[= ->] | H]; [exists s; exact Hm | eauto].
Qed.

Lemma pattern_keeps_nondigit (text : str) (c : char) :
  In (Keep c) (scan false pattern text) -> nondigit c.
Proof.
  intros H. apply (scan_from_keep_unmatched false pattern pattern_nonempty) in H.
  destruct H as (b & Hb). unfold nondigit.
  destruct (isdecimal c) eqn:Hd; [| reflexivity].
  exfalso. exact (pattern_at_digit c b Hd Hb).
Qed.

Lemma currency_alternative_den (w : str) (g g' : groups) :
  den false (Cat currency_re (Cat (Star Space) number_re)) w g g' ->
  exists h, den false currency_pattern w [] h.
Proof.
  cbn [den]. intros (w1 & w2 & g1 & -> & D1 & w3 & w4 & g2 & -> & [Hsp _] & D4).
  destruct (den_any_groups false currency_re _ _ _ D1 []) as (h1 & E1).
  destruct (den_any_groups false number_re _ _ _ D4 (set_group 1 w1 h1))
    as (h4 & E4).
  exists (set_group 2 w4 h4). unfold currency_pattern. cbn [den].
  exists w1, (w3 ++ w4), (set_group 1 w1 h1). split; [reflexivity |].
  split; [exists h1; auto |].
  exists w3, w4, (set_group 1 w1 h1). split; [reflexivity |].
  split; [auto |]. exists h4. auto.
Qed.

Lemma num_pattern_at_digit (d : char) (s : str) :
  isdecimal d = true -> re_match false num_pattern (d :: s) <> None.
Proof.
  intros Hd.
  apply (re_match_complete false num_pattern [d] []
           (set_group 1 [d] []) s).
  unfold num_pattern, number_re, plus. cbn [den].
  exists [d], [], (set_group 1 [d] []). split; [reflexivity |]. split.
  - exists []. split; [| reflexivity].
    exists [d], [], []. split; [reflexivity |]. split; [| right; auto].
    exists [d], [], []. split; [reflexivity |]. split; [| split; reflexivity].
    exists d. auto.
  - exists [], [], (set_group 1 [d] []). split; [reflexivity |].
    split; [split; reflexivity | right; auto].
Qed.

Lemma den_alt_cases (ic : bool) (r1 r2 : regex) (w : str) (g g' : groups) :
  den ic (Alt r1 r2) w g g' -> den ic r1 w g g' \/ den ic r2 w g g'.
Proof. exact (fun H => H). Qed.

(** A span the numeral pattern finds is a currency amount or begins with a
    number: [process_match] never returns it as it is. *)
Lemma pattern_span_classified (s : str) (m : rmatch) :
  re_match false pattern s = Some m ->
  re_match false currency_pattern (group0 m) <> None
  \/ re_match false num_pattern (group0 m) <> None.
Proof.
  intros Hm. apply re_match_sound in Hm. destruct Hm as (s' & _ & D).
  unfold pattern in D. apply den_alt_cases in D. destruct D as [D | D];
    [| apply den_alt_cases in D].
  - left. apply currency_alternative_den in D. destruct D as (h & D).
    rewrite <- (app_nil_r (group0 m)).
    exact (re_match_complete false currency_pattern _ _ _ [] D).
  - right.
    assert (Hd : exists d w, group0 m = d :: w /\ isdecimal d = true).
    { destruct D as [D | D]; apply den_first in D;
        (destruct (group0 m) as [| d w]; [discriminate |]);
        destruct D as (a & Ha & Hok); cbn in Ha;
        destruct Ha as [<- | []]; exists d, w; auto. }
    destruct Hd as (d & w & -> & Hd). apply num_pattern_at_digit, Hd.
Qed.

Lemma process_match_nondigit (f : str -> outcome str) (s : str) (m : rmatch)
      (w : str) :
  (forall t out, f t = Ret out -> Forall nondigit out) ->
  re_match false pattern s = Some m ->
  process_match f m = Ret w -> Forall nondigit w.
Proof.
  intros Hf Hm. unfold process_match.
  change (group_str m 0) with (group0 m).
  rewrite (@year_range_branch_unreachable s m Hm).
  destruct (re_match false currency_pattern (group0 m)) as [cm |] eqn:Hcm.
  { unfold _handle_currency.
    destruct (f (group_str cm 2)) as [aw | |] eqn:Haw; try discriminate.
    cbn [bind]. intros [= <-].
    apply Forall_app. split;
      [| constructor; [reflexivity | exact (Hf _ _ Haw)]].
    destruct (get_default_cases currency_symbols (group_str cm 1)
                (group_str cm 1)) as [-> | (k' & Hin)].
    - apply nondigit_existsb.
      apply (group_digitless currency_pattern 1 _ cm Hcm);
        [reflexivity | discriminate].
    - apply wordy_all_nondigit.
      assert (Hall : forallb (fun kv : str * str => forallb wordy (snd kv))
                             currency_symbols = true) by reflexivity.
      rewrite forallb_forall in Hall. exact (Hall _ Hin). }
  destruct (re_match false num_pattern (group0 m)) as [nm |] eqn:Hnm.
  2:{ destruct (pattern_span_classified s m Hm); congruence. }
  assert (Hsuffix : Forall nondigit (group_str nm 2)).
  { apply nondigit_existsb.
    apply (group_digitless num_pattern 2 _ nm Hnm);
      [reflexivity | discriminate]. }
  assert (Hout : forall x, forallb wordy x = true ->
                           Forall nondigit
                                  (strip (x ++ u " " ++ group_str nm 2))).
  { intros x Hx. apply strip_forall.
    apply Forall_app. split; [apply wordy_all_nondigit, Hx |].
    constructor; [reflexivity | exact Hsuffix]. }
  destruct (existsb (N.eqb DOT) (group_str nm 1)).
  - destruct (_handle_decimal (group_str nm 1)) as [x | |] eqn:Hx;
      try discriminate.
    cbn [bind]. intros [= <-]. apply Hout.
    exact (@handle_decimal_wordy _ _ Hx).
  - destruct (int (group_str nm 1)) as [n | |]; try discriminate. cbn [bind].
    destruct (_process_number n) as [x | |] eqn:Hx; try discriminate.
    cbn [bind]. intros [= <-]. apply Hout.
    exact (@process_number_wordy _ _ Hx).
Qed.

Lemma process_text_nondigit (fuel : nat) :
  forall t out, process_text fuel t = Ret out -> Forall nondigit out.
Proof.
  induction fuel as [| fuel IH]; intros t out; [discriminate |].
  cbn [process_text]. unfold process_text_body.
  destruct (_process_letter_number_combination t) as [t1 | |];
    try discriminate; cbn [bind].
  destruct (re_sub false percent_pattern _ t1) as [t2 | |];
    try discriminate; cbn [bind].
  destruct (re_sub false pattern _ _) as [t4 | |] eqn:H4;
    try discriminate; cbn [bind].
  intros [= <-].
  apply join_forall; [repeat constructor |].
  apply split_forall. revert H4. unfold re_sub. apply fill_forall.
  - intros c Hc. exact (pattern_keeps_nondigit _ c Hc).
  - intros m w Hm. apply scan_from_hit in Hm.
    destruct Hm as (a & b & _ & Hm).
    exact (process_match_nondigit _ b m w IH Hm).
Qed.

(** X9. Whatever [process_text] returns holds no decimal digit: every
    digit of the text, of any script, has been spelled out. *)
Theorem process_text_spells_every_digit (fuel : nat) (t out : str) :
  process_text fuel t = Ret out -> existsb isdecimal out = false.
Proof.
  intros H. apply nondigit_existsb. exact (process_text_nondigit fuel t out H).
Qed.

Lemma process_text_spells_every_digit_witness :
  process_text 2 (u "Rs 10237.33 crore in 2024-25, Q1 & 15% of 1.5 BC")
  = Ret (u "Rupees ten thousand, two hundred, thirty-seven point three three crore in two thousand, twenty-four-twenty-five, Quarter one and fifteen percent of one point five BC")
  /\ existsb isdecimal
       (u "Rupees ten thousand, two hundred, thirty-seven point three three crore in two thousand, twenty-four-twenty-five, Quarter one and fifteen percent of one point five BC")
     = false.
Proof.
  assert (H : process_text 2
                (u "Rs 10237.33 crore in 2024-25, Q1 & 15% of 1.5 BC")
              = Ret (u "Rupees ten thousand, two hundred, thirty-seven point three three crore in two thousand, twenty-four-twenty-five, Quarter one and fifteen percent of one point five BC"))
    by (vm_compute; reflexivity).
  split; [exact H |].
  exact (process_text_spells_every_digit 2 _ _ H).
Defined.

(** ** Plain text and repeated runs *)

Lemma symbol_loop_untouched (table : dict str str) (text : str) :
  (forall k w, In (k, w) table ->
               str_eqb k (u "%") = true \/ contains k text = false) ->
  symbol_loop table text = text.
Proof.
  induction table as [| [symbol w] table IH]; intros H; [reflexivity |].
  cbn [symbol_loop].
  assert (IH' : symbol_loop table text = text)
    by (apply IH; intros k w' Hin; apply (H k w'); right; exact Hin).
  destruct (H symbol w (or_introl eq_refl)) as [Hp | Hc].
  - rewrite Hp. exact IH'.
  - destruct (str_eqb symbol (u "%")); [exact IH' |].
    rewrite (@replace_absent symbol _ text Hc). exact IH'.
Qed.

Lemma symbol_loop_safe_text (text : str) :
  Forall safe text -> symbol_loop symbols text = text.
Proof.
  intros Hsafe. apply symbol_loop_untouched. intros k w Hin.
  assert (Hkeys : forallb (fun kw : str * str =>
                             match fst kw with
                             | [_] => true
                             | _ => false
                             end) symbols = true) by reflexivity.
  rewrite forallb_forall in Hkeys. pose proof (Hkeys _ Hin) as Hk.
  cbn [fst] in Hk. destruct k as [| c [| c' k]]; try discriminate.
  destruct (N.eqb_spec c PERCENT) as [-> | Hne]; [left; reflexivity |].
  right. rewrite contains_single.
  destruct (existsb (fun x => N.eqb x c) text) eqn:E; [exfalso | reflexivity].
  apply existsb_exists in E. destruct E as (x & Hx & Heq).
  apply N.eqb_eq in Heq. subst x.
  rewrite Forall_forall in Hsafe. specialize (Hsafe c Hx). unfold safe in Hsafe.
  assert (Hsym : generic_symbol c = true).
  { unfold generic_symbol. apply existsb_exists. exists ([c], w).
    split; [exact Hin |]. cbn [fst]. rewrite N.eqb_refl. cbn [andb].
    apply negb_true_iff, N.eqb_neq. exact Hne. }
  congruence.
Qed.

Lemma process_text_plain (fuel : nat) (t : str) :
  Forall nondigit t -> Forall safe t ->
  process_text (S fuel) t = Ret (join SPACE (split t)).
Proof.
  intros Hd Hs. apply nondigit_existsb in Hd.
  cbn [process_text]. unfold process_text_body.
  unfold _process_letter_number_combination.
  rewrite re_sub_no_digit by (reflexivity || exact Hd). cbn [bind].
  rewrite re_sub_no_digit by (reflexivity || exact Hd). cbn [bind].
  rewrite symbol_loop_safe_text by exact Hs.
  rewrite re_sub_no_digit by (reflexivity || exact Hd). cbn [bind].
  reflexivity.
Qed.

Lemma safe_existsb (w : str) :
  Forall safe w <-> existsb generic_symbol w = false.
Proof.
  split.
  - intros H. induction H as [| c w Hc _ IH]; [reflexivity |].
    unfold safe in Hc. cbn [existsb]. rewrite Hc, IH. reflexivity.
  - induction w as [| c w IH]; intros H; [constructor |].
    cbn [existsb] in H. apply orb_false_iff in H. destruct H as [Hc Hw].
    constructor; [exact Hc | exact (IH Hw)].
Qed.

(** X10. A text with no decimal digit and no symbol of the table other than
    [%] goes through unchanged but for its white space: the result is its
    words joined by single spaces. *)
Theorem process_text_passes_plain_text (fuel : nat) (t : str) :
  existsb isdecimal t = false ->
  existsb generic_symbol t = false ->
  process_text (S fuel) t = Ret (join (u " ") (split t)).
Proof.
  intros Hd Hs. apply process_text_plain.
  - apply nondigit_existsb, Hd.
  - apply safe_existsb, Hs.
Qed.

Lemma process_text_passes_plain_text_witness :
  existsb isdecimal (u " Please  contact  support: a-b % done ") = false
  /\ existsb generic_symbol (u " Please  contact  support: a-b % done ") = false
  /\ process_text 1 (u " Please  contact  support: a-b % done ")
     = Ret (u "Please contact support: a-b % done").
Proof.
  assert (H1 : existsb isdecimal (u " Please  contact  support: a-b % done ")
               = false) by reflexivity.
  assert (H2 : existsb generic_symbol
                 (u " Please  contact  support: a-b % done ") = false)
    by reflexivity.
  split; [exact H1 | split; [exact H2 |]].
  exact (process_text_passes_plain_text 0 _ H1 H2).
Defined.

(** X11. [process_text] is idempotent wherever it returns: run on its own
    result it returns that result again. *)
Theorem process_text_idempotent_everywhere (fuel : nat) (t out : str) :
  process_text fuel t = Ret out -> process_text fuel out = Ret out.
Proof.
  intros H.
  pose proof (process_text_nondigit fuel t out H) as Hd.
  pose proof (process_text_safe fuel t H) as Hs.
  destruct (@process_text_collapsed fuel t out H) as (text4 & ->).
  destruct fuel as [| fuel]; [discriminate |].
  rewrite (process_text_plain fuel _ Hd Hs).
  rewrite join_split_idempotent. reflexivity.
Qed.

Lemma process_text_idempotent_everywhere_witness :
  process_text 2 (u "5% of Q1 is % & $3")
  = Ret (u "five percent of Quarter one is % and Dollars three")
  /\ process_text 2 (u "five percent of Quarter one is % and Dollars three")
     = Ret (u "five percent of Quarter one is % and Dollars three").
Proof.
  assert (H : process_text 2 (u "5% of Q1 is % & $3")
              = Ret (u "five percent of Quarter one is % and Dollars three"))
    by (vm_compute; reflexivity).
  split; [exact H |].
  exact (process_text_idempotent_everywhere 2 _ _ H).
Defined.

(** ** The shape of the output *)

Lemma word_ends (w : str) :
  word w ->
  (exists c s, w = c :: s /\ isspace c = false)
  /\ (exists s c, w = s ++ [c] /\ isspace c = false).
Proof.
  intros [Hne Hsp]. split.
  - destruct w as [| c s]; [congruence |]. exists c, s.
    cbn in Hsp. apply orb_false_iff in Hsp. tauto.
  - destruct (exists_last Hne) as (s & c & ->). exists s, c.
    rewrite existsb_app in Hsp. apply orb_false_iff in Hsp.
    destruct Hsp as [_ Hc]. cbn in Hc. apply orb_false_iff in Hc. tauto.
Qed.

Lemma join_cons2 (w w2 : str) (ws : list str) :
  join SPACE (w :: w2 :: ws) = w ++ SPACE ++ join SPACE (w2 :: ws).
Proof. reflexivity. Qed.

Lemma phrase_head (ws : list str) (c : char) (s : str) :
  Forall word ws -> join SPACE ws = c :: s -> isspace c = false.
Proof.
  intros H Heq. destruct ws as [| w ws]; [discriminate |].
  inversion H as [| w' ws' Hw _]; subst.
  destruct (word_ends w Hw) as [(c' & s' & -> & Hc') _].
  destruct ws as [| w2 ws]; cbn in Heq; injection Heq as <- _; exact Hc'.
Qed.

Lemma phrase_last (ws : list str) (s : str) (c : char) :
  Forall word ws -> join SPACE ws = s ++ [c] -> isspace c = false.
Proof.
  revert s. induction ws as [| w ws IH]; intros s H Heq.
  - destruct s; discriminate.
  - inversion H as [| w' ws' Hw Hws]; subst.
    destruct ws as [| w2 ws].
    + cbn [join] in Heq. destruct (word_ends w Hw) as [_ (s' & c' & -> & Hc')].
      apply app_inj_tail in Heq. destruct Heq as [_ <-]. exact Hc'.
    + rewrite join_cons2 in Heq.
      assert (Hne : join SPACE (w2 :: ws) <> []).
      { inversion Hws as [| w2' ws2 Hw2 _]; subst.
        destruct (word_ends w2 Hw2) as [(c2 & s2 & -> & _) _].
        destruct ws; discriminate. }
      destruct (exists_last Hne) as (s' & c' & Hlast).
      rewrite Hlast in Heq. rewrite !app_assoc in Heq.
      apply app_inj_tail in Heq. destruct Heq as [_ <-].
      exact (IH s' Hws Hlast).
Qed.

Lemma phrase_spaces (ws : list str) (c : char) :
  Forall word ws -> In c (join SPACE ws) -> isspace c = true -> c = 0x20%N.
Proof.
  induction ws as [| w ws IH]; intros H Hin Hc; [destruct Hin |].
  inversion H as [| w' ws' [_ Hw] Hws]; subst.
  assert (Hnot : In c w -> False).
  { intros Hcw.
    assert (E : existsb isspace w = true)
      by (apply existsb_exists; exists c; auto).
    congruence. }
  destruct ws as [| w2 ws]; [cbn [join] in Hin; tauto |].
  rewrite join_cons2 in Hin. apply in_app_or in Hin.
  destruct Hin as [Hin | Hin]; [tauto |].
  apply in_app_or in Hin. destruct Hin as [[<- | []] | Hin];
    [reflexivity | exact (IH Hws Hin Hc)].
Qed.

Lemma phrase_no_double_space (ws : list str) (a b : str) :
  Forall word ws -> join SPACE ws <> a ++ SPACE ++ SPACE ++ b.
Proof.
  revert a. induction ws as [| w ws IH]; intros a H Heq.
  - destruct a; discriminate.
  - inversion H as [| w' ws' Hw Hws]; subst.
    assert (Hnot : ~ In 0x20%N w).
    { intros Hin. destruct Hw as [_ Hw].
      assert (E : existsb isspace w = true)
        by (apply existsb_exists; exists 0x20%N; auto).
      congruence. }
    destruct ws as [| w2 ws].
    + cbn [join] in Heq. apply Hnot. rewrite Heq.
      apply in_or_app. right. left. reflexivity.
    + rewrite join_cons2 in Heq.
      assert (Hhead : forall s, join SPACE (w2 :: ws) = 0x20%N :: s -> False).
      { intros s Hs. pose proof (phrase_head _ _ _ Hws Hs) as E.
        vm_compute in E. discriminate. }
      remember (join SPACE (w2 :: ws)) as rest eqn:Hrest.
      change SPACE with [0x20%N] in Heq, IH.
      apply app_eq_app in Heq. destruct Heq as (l & [[-> Hl] | [-> Hl]]).
      * (* [a] ends inside the first word *)
        destruct l as [| x l]; cbn [app] in Hl.
        -- injection Hl as Hl. exact (Hhead b (eq_sym Hl)).
        -- injection Hl as <- _.
           apply Hnot. apply in_or_app. right. left. reflexivity.
      * (* the first word ends inside [a] *)
        destruct l as [| x l]; cbn [app] in Hl.
        -- injection Hl as Hl. exact (Hhead b Hl).
        -- injection Hl as <- Hl. exact (IH l Hws Hl).
Qed.

(** X12. What [process_text] returns is single-spaced: its only white-space
    character is the space, it neither begins nor ends with one, and no two
    spaces are adjacent. *)
Theorem process_text_single_spaced (fuel : nat) (t out : str) :
  process_text fuel t = Ret out ->
  (forall c, In c out -> isspace c = true -> c = 0x20%N)
  /\ (forall c s, out = c :: s -> isspace c = false)
  /\ (forall s c, out = s ++ [c] -> isspace c = false)
  /\ (forall a b, out <> a ++ u "  " ++ b).
Proof.
  intros H. destruct (@process_text_collapsed fuel t out H) as (text4 & ->).
  pose proof (split_words text4) as Hws.
  split; [| split; [| split]].
  - intros c. apply phrase_spaces. exact Hws.
  - intros c s. apply phrase_head. exact Hws.
  - intros s c. apply phrase_last. exact Hws.
  - intros a b. apply (phrase_no_double_space _ a b Hws).
Qed.

Lemma process_text_single_spaced_witness :
  process_text 2 (u "  95/100   = 95% ")
  = Ret (u "ninety-five per one hundred equals ninety-five percent")
  /\ forall a b,
      u "ninety-five per one hundred equals ninety-five percent"
      <> a ++ u "  " ++ b.
Proof.
  assert (H : process_text 2 (u "  95/100   = 95% ")
              = Ret (u "ninety-five per one hundred equals ninety-five percent"))
    by (vm_compute; reflexivity).
  split; [exact H |].
  exact (proj2 (proj2 (proj2 (process_text_single_spaced 2 _ _ H)))).
Defined.

(** ** Phrases *)

Lemma join_app (ws1 ws2 : list str) :
  ws1 <> [] -> ws2 <> [] ->
  join SPACE (ws1 ++ ws2) = join SPACE ws1 ++ SPACE ++ join SPACE ws2.
Proof.
  intros H1 H2. induction ws1 as [| w ws1 IH]; [congruence |].
  destruct ws1 as [| w' ws1].
  - cbn [app]. destruct ws2 as [| w2 ws2]; [congruence | reflexivity].
  - change ((w :: w' :: ws1) ++ ws2) with (w :: (w' :: ws1) ++ ws2).
    change ((w' :: ws1) ++ ws2) with (w' :: ws1 ++ ws2) at 1.
    rewrite join_cons2.
    change (w' :: ws1 ++ ws2) with ((w' :: ws1) ++ ws2).
    rewrite IH by discriminate. rewrite join_cons2.
    rewrite <- !app_assoc. reflexivity.
Qed.

Lemma phrase_word (w : str) : word w -> phrase w.
Proof.
  intros H. exists [w]. split; [discriminate |]. split; [| reflexivity].
  constructor; [exact H | constructor].
Qed.

Lemma phrase_app (a b : str) :
  phrase a -> phrase b -> phrase (a ++ SPACE ++ b).
Proof.
  intros (wa & Ha & Fa & ->) (wb & Hb & Fb & ->).
  exists (wa ++ wb). split; [| split].
  - destruct wa; [congruence | discriminate].
  - apply Forall_app. auto.
  - symmetry. apply join_app; assumption.
Qed.

Lemma word_snoc (w : str) (c : char) :
  word w -> isspace c = false -> word (w ++ [c]).
Proof.
  intros [Hne Hw] Hc. split.
  - destruct w; discriminate.
  - rewrite existsb_app, Hw. cbn. rewrite Hc. reflexivity.
Qed.

Lemma phrase_snoc (a : str) (c : char) :
  phrase a -> isspace c = false -> phrase (a ++ [c]).
Proof.
  intros (ws & Hne & F & ->) Hc.
  destruct (exists_last Hne) as (ws' & w & ->).
  apply Forall_app in F. destruct F as [F' Fw].
  inversion Fw as [| w' l Hw _]; subst.
  destruct ws' as [| w1 ws1].
  - cbn [app join]. apply phrase_word, word_snoc; assumption.
  - rewrite join_app by discriminate. cbn [join].
    rewrite <- !app_assoc. apply phrase_app.
    + exists (w1 :: ws1). split; [discriminate | split; [exact F' | reflexivity]].
    + apply phrase_word, word_snoc; assumption.
Qed.

Lemma phrase_collapse (w : str) : phrase w -> join SPACE (split w) = w.
Proof.
  intros (ws & _ & F & ->). rewrite split_join by exact F. reflexivity.
Qed.

Lemma lstrip_head (c : char) (s : str) :
  isspace c = false -> lstrip (c :: s) = c :: s.
Proof. intros H. cbn [lstrip]. rewrite H. reflexivity. Qed.

(** A phrase followed by one space strips to the phrase. *)
Lemma phrase_strip (w : str) : phrase w -> strip (w ++ SPACE) = w.
Proof.
  intros (ws & Hne & F & ->). unfold strip.
  assert (Hnil : join SPACE ws <> []).
  { destruct ws as [| w1 ws]; [congruence |].
    inversion F as [| w' l Hw _]; subst.
    destruct (word_ends w1 Hw) as [(c & s & -> & _) _].
    destruct ws; discriminate. }
  destruct (join SPACE ws) as [| c s] eqn:E; [congruence |].
  pose proof (phrase_head ws c s F E) as Hc.
  destruct (exists_last (l := c :: s) ltac:(discriminate)) as (s' & c' & E').
  assert (Hc' : isspace c' = false)
    by (apply (phrase_last ws s' c' F); rewrite E; exact E').
  change ((c :: s) ++ SPACE) with (c :: s ++ SPACE).
  rewrite (lstrip_head c _ Hc).
  change (c :: s ++ SPACE) with ((c :: s) ++ [0x20%N]).
  rewrite E'. rewrite !rev_app_distr. cbn [rev app lstrip].
  change (isspace 0x20%N) with true. cbv iota.
  rewrite Hc'. cbn [rev]. rewrite rev_involutive. reflexivity.
Qed.

Lemma number_lookup_word (k : Z) (w : str) :
  subscript number_lookup k = Ret w -> word w.
Proof.
  unfold subscript.
  destruct (dict_find Z.eqb k number_lookup) as [v |] eqn:Hf; [| discriminate].
  intros [= <-]. apply dict_find_in in Hf. destruct Hf as (k' & Hin).
  assert (Hall : forallb (fun kv : Z * str =>
                            match snd kv with
                            | [] => false
                            | _ => negb (existsb isspace (snd kv))
                            end) number_lookup = true) by reflexivity.
  rewrite forallb_forall in Hall. specialize (Hall _ Hin). cbn [snd] in Hall.
  destruct v as [| c v]; [discriminate |].
  split; [discriminate | apply negb_true_iff, Hall].
Qed.

Lemma segment_phrases (count : Z) (scale : str) (seg : list str) :
  word scale -> segment count scale = Ret seg ->
  Forall phrase seg /\ (seg = [] -> count = 0%Z).
Proof.
  intros Hs. unfold segment. destruct (Z.eqb_spec count 0) as [-> | Hne].
  - intros [= <-]. split; [constructor | reflexivity].
  - destruct (subscript number_lookup count) as [w | |] eqn:Hw;
      try discriminate.
    cbn [bind]. intros [= <-]. split; [| discriminate].
    constructor; [| constructor].
    apply (phrase_app w scale); apply phrase_word;
      [exact (number_lookup_word count w Hw) | exact Hs].
Qed.

Lemma leftover_phrases (n : Z) (seg : list str) :
  leftover n = Ret seg -> Forall phrase seg /\ (seg = [] -> n = 0%Z).
Proof.
  unfold leftover. destruct (Z.eqb_spec n 0) as [-> | Hne].
  - intros [= <-]. split; [constructor | reflexivity].
  - destruct (subscript number_lookup n) as [w | |] eqn:Hw; try discriminate.
    cbn [bind]. intros [= <-]. split; [| discriminate].
    constructor; [| constructor].
    apply phrase_word. exact (number_lookup_word n w Hw).
Qed.

Lemma join_comma_phrase (parts : list str) :
  parts <> [] -> Forall phrase parts -> phrase (join (u ", ") parts).
Proof.
  induction parts as [| p parts IH]; intros Hne F; [congruence |].
  inversion F as [| p' l Hp Hrest]; subst.
  destruct parts as [| q parts]; [exact Hp |].
  change (join (u ", ") (p :: q :: parts))
    with (p ++ [0x2C%N] ++ SPACE ++ join (u ", ") (q :: parts)).
  rewrite (app_assoc p [0x2C%N]).
  apply phrase_app.
  - apply phrase_snoc; [exact Hp | reflexivity].
  - apply IH; [discriminate | exact Hrest].
Qed.

(** The words of a number are words joined by single spaces. *)
Lemma process_number_phrase (n : Z) (w : str) :
  (0 <= n)%Z -> _process_number n = Ret w -> phrase w.
Proof.
  intros Hn. rewrite process_number_to_words by exact Hn. unfold to_words.
  destruct (Z.eqb_spec n 0) as [-> | Hnz].
  { intros [= <-]. apply phrase_word. split; [discriminate | reflexivity]. }
  destruct (segment (n / 10000000) (u "crore")) as [c | |] eqn:Hc;
    try discriminate. cbn [bind].
  destruct (segment (n mod 10000000 / 100000) (u "lakh")) as [l | |] eqn:Hl;
    try discriminate. cbn [bind].
  destruct (segment (n mod 100000 / 1000) (u "thousand")) as [t | |] eqn:Ht;
    try discriminate. cbn [bind].
  destruct (segment (n mod 1000 / 100) (u "hundred")) as [h | |] eqn:Hh;
    try discriminate. cbn [bind].
  destruct (leftover (n mod 100)) as [r | |] eqn:Hr; try discriminate.
  cbn [bind]. intros [= <-].
  apply segment_phrases in Hc; [| split; [discriminate | reflexivity]].
  apply segment_phrases in Hl; [| split; [discriminate | reflexivity]].
  apply segment_phrases in Ht; [| split; [discriminate | reflexivity]].
  apply segment_phrases in Hh; [| split; [discriminate | reflexivity]].
  apply leftover_phrases in Hr.
  destruct Hc as [Fc Zc], Hl as [Fl Zl], Ht as [Ft Zt], Hh as [Fh Zh],
           Hr as [Fr Zr].
  apply join_comma_phrase.
  - intros E. apply app_eq_nil in E. destruct E as [Ec E].
    apply app_eq_nil in E. destruct E as [El E].
    apply app_eq_nil in E. destruct E as [Et E].
    apply app_eq_nil in E. destruct E as [Eh Er].
    specialize (Zc Ec). specialize (Zl El). specialize (Zt Et).
    specialize (Zh Eh). specialize (Zr Er).
    pose proof (Z.div_mod n 10000000 ltac:(lia)) as E1.
    pose proof (Z.div_mod (n mod 10000000) 100000 ltac:(lia)) as E2.
    pose proof (Z.div_mod (n mod 100000) 1000 ltac:(lia)) as E3.
    pose proof (Z.div_mod (n mod 1000) 100 ltac:(lia)) as E4.
    rewrite (Z.mod_mod_divide n 10000000 100000) in E2
      by (exists 100%Z; reflexivity).
    rewrite (Z.mod_mod_divide n 100000 1000) in E3
      by (exists 100%Z; reflexivity).
    rewrite (Z.mod_mod_divide n 1000 100) in E4
      by (exists 10%Z; reflexivity).
    lia.
  - repeat (apply Forall_app; split); assumption.
Qed.

(** ** The matcher on runs of digits *)

Lemma star_exact (R : Type) (p : char -> bool) (w rest : str)
      (k : str -> option R) (x : R) :
  forallb p w = true ->
  match rest with
  | c :: _ => p c = false
  | [] => True
  end ->
  k rest = Some x ->
  star p (w ++ rest) k = Some x.
Proof.
  intros Hw Hrest Hk. induction w as [| c w IH]; cbn [app].
  - destruct rest as [| c r]; cbn [star]; [exact Hk |].
    rewrite Hrest. exact Hk.
  - cbn [forallb] in Hw. apply andb_true_iff in Hw. destruct Hw as [Hc Hw].
    cbn [star]. rewrite Hc, (IH Hw). reflexivity.
Qed.

Lemma run_first_fail (ic : bool) (R : Type) (r : regex) (c : char) (s : str)
      (g : groups) (k : str -> groups -> option R) :
  nullable r = false ->
  (forall a, In a (first_atoms r) -> atom_ok ic a c = false) ->
  run ic r (c :: s) g k = None.
Proof.
  intros Hn Hfirst. destruct (run ic r (c :: s) g k) as [x |] eqn:E;
    [exfalso | reflexivity].
  apply run_sound in E. destruct E as (w & s' & g' & Heq & D & _).
  apply den_first in D. destruct w as [| c' w]; [congruence |].
  injection Heq as <- _. destruct D as (a & Ha & Hok).
  rewrite (Hfirst a Ha) in Hok. discriminate.
Qed.

Lemma firstn_whole (s : str) :
  firstn (List.length s - List.length (@nil char)) s = s.
Proof. cbn [List.length]. rewrite Nat.sub_0_r. apply firstn_all. Qed.

(** On a run of digits followed by something that is neither a digit nor a
    point, [\d+(?:\.\d+)?] takes the run. *)
Lemma number_re_takes_digits (R : Type) (d : char) (ds rest : str)
      (g : groups) (k : str -> groups -> option R) (x : R) :
  isdecimal d = true -> forallb isdecimal ds = true ->
  match rest with
  | c :: _ => isdecimal c = false /\ N.eqb c DOT = false
  | [] => True
  end ->
  k rest g = Some x ->
  run false number_re ((d :: ds) ++ rest) g k = Some x.
Proof.
  intros Hd Hds Hrest Hk. unfold number_re, plus.
  cbn [run atom_ok app]. rewrite Hd.
  apply star_exact; [exact Hds | destruct rest; tauto |].
  destruct rest as [| c rest]; [exact Hk |].
  destruct Hrest as [_ Hdot]. cbn [lit_ok]. rewrite Hdot. exact Hk.
Qed.

Lemma digits_numeral (ds : str) :
  forallb isdecimal ds = true -> forallb numeral_char ds = true.
Proof.
  intros H. rewrite forallb_forall in *. intros c Hc.
  unfold numeral_char. rewrite (H c Hc). reflexivity.
Qed.

Lemma digit_no_currency (d : char) (s : str) (g : groups) (R : Type)
      (k : str -> groups -> option R) :
  isdecimal d = true ->
  run false (Cat currency_re (Cat (Star Space) number_re)) (d :: s) g k = None.
Proof.
  intros Hd. apply run_first_fail; [reflexivity |]. intros a Ha.
  assert (Hall : forallb other_atom
                         (first_atoms (Cat currency_re
                                           (Cat (Star Space) number_re)))
                 = true) by reflexivity.
  rewrite forallb_forall in Hall.
  destruct (atom_ok false a d) eqn:E; [| reflexivity].
  pose proof (@other_atom_ok a d (Hall a Ha) E) as Hn.
  unfold numeral_char in Hn. rewrite Hd in Hn. discriminate.
Qed.

Lemma era_on_empty (R : Type) (g : groups) (k : str -> groups -> option R) :
  run false era_re [] g k = None.
Proof. reflexivity. Qed.

(** The numeral pattern takes a run of digits as one span. *)
Lemma pattern_on_digits (d : char) (ds : str) :
  isdecimal d = true -> forallb isdecimal ds = true ->
  re_match false pattern (d :: ds)
  = Some {| group0 := d :: ds; captures := [] |}.
Proof.
  intros Hd Hds. unfold re_match, pattern. rewrite !run_alt.
  rewrite (digit_no_currency d ds [] rmatch _ Hd).
  match goal with
  | |- match ?a with _ => _ end = _ =>
      replace a with (Some {| group0 := d :: ds; captures := [] |});
      [reflexivity |]
  end.
  symmetry. cbn [run].
  rewrite <- (app_nil_r (d :: ds)) at 1.
  apply number_re_takes_digits; [exact Hd | exact Hds | exact I |].
  cbn [star]. rewrite era_on_empty, firstn_whole. reflexivity.
Qed.

Lemma num_pattern_on_digits (d : char) (ds : str) :
  isdecimal d = true -> forallb isdecimal ds = true ->
  re_match false num_pattern (d :: ds)
  = Some {| group0 := d :: ds; captures := [(1%nat, d :: ds)] |}.
Proof.
  intros Hd Hds. unfold re_match, num_pattern. cbn [run].
  rewrite <- (app_nil_r (d :: ds)) at 1.
  apply number_re_takes_digits; [exact Hd | exact Hds | exact I |].
  cbn [star]. rewrite era_on_empty, firstn_whole. reflexivity.
Qed.

Lemma scan_from_skip_all (ic : bool) (r : regex) (s : str) :
  scan_from ic r s (List.length s) = match s with
                                     | [] => scan_from ic r [] 0
                                     | _ => scan_from ic r [] 0
                                     end.
Proof.
  induction s as [| c s IH]; [reflexivity |].
  cbn [List.length scan_from]. rewrite IH. destruct s; reflexivity.
Qed.

Lemma scan_whole (ic : bool) (r : regex) (c : char) (s : str) (m : rmatch) :
  re_match ic r (c :: s) = Some m -> group0 m = c :: s ->
  re_match ic r [] = None ->
  scan ic r (c :: s) = [Hit m].
Proof.
  intros Hm Hg Hnil. unfold scan. rewrite scan_from_cons, Hm, Hg.
  cbn [List.length]. rewrite scan_from_skip_all.
  assert (E : scan_from ic r [] 0 = []) by (cbn [scan_from]; rewrite Hnil; reflexivity).
  destruct s; rewrite E; reflexivity.
Qed.

Lemma digits_no_hyphen (s : str) :
  forallb numeral_char s = true ->
  re_search false year_range_pattern s = None.
Proof.
  intros H. apply (re_search_needs false (Lit HYPHEN)); [reflexivity |].
  change (atom_ok false (Lit HYPHEN)) with (fun c => N.eqb c HYPHEN).
  apply (@numeral_without HYPHEN s); [reflexivity | exact H].
Qed.

Lemma digits_no_point (s : str) :
  forallb isdecimal s = true -> existsb (N.eqb DOT) s = false.
Proof.
  intros H. destruct (existsb (N.eqb DOT) s) eqn:E; [exfalso | reflexivity].
  apply existsb_exists in E. destruct E as (c & Hc & Heq).
  apply N.eqb_eq in Heq. subst c. exact (digits_no_dot s H Hc).
Qed.

(** On a span that is a run of digits [process_match] is the cardinal
    converter. *)
Lemma process_match_digits (f : str -> outcome str) (ds : str) (n : Z)
      (g : groups) :
  int ds = Ret n ->
  process_match f {| group0 := ds; captures := g |} = _process_number n.
Proof.
  intros Hint. pose proof (int_returns ds n Hint) as [Hne Hds].
  pose proof (int_nonneg ds n Hint) as Hn.
  unfold process_match.
  change (group_str {| group0 := ds; captures := g |} 0) with ds.
  rewrite (digits_no_hyphen ds (digits_numeral ds Hds)).
  rewrite (@numeral_currency_no_match ds (digits_numeral ds Hds)).
  destruct ds as [| d ds]; [congruence |].
  cbn [forallb] in Hds. apply andb_true_iff in Hds. destruct Hds as [Hd Hds].
  rewrite (num_pattern_on_digits d ds Hd Hds).
  change (group_str {| group0 := d :: ds;
                       captures := [(1%nat, d :: ds)] |} 1) with (d :: ds).
  change (group_str {| group0 := d :: ds;
                       captures := [(1%nat, d :: ds)] |} 2) with (@nil char).
  rewrite (digits_no_point (d :: ds))
    by (cbn [forallb]; rewrite Hd, Hds; reflexivity).
  rewrite Hint. cbn [bind].
  destruct (_process_number n) as [w | e |] eqn:Hw; cbn [bind];
    try reflexivity.
  change (w ++ u " " ++ []) with (w ++ SPACE).
  rewrite (phrase_strip w (process_number_phrase n w Hn Hw)). reflexivity.
Qed.

Lemma later_passes_eq (f : str -> outcome str) (text : str) :
  process_text_body f text
  = (text1 <- _process_letter_number_combination text ;; later_passes f text1).
Proof. reflexivity. Qed.

(** A run of digits is read as its number. *)
Lemma process_text_digits (fuel : nat) (ds : str) (n : Z) :
  int ds = Ret n -> process_text (S fuel) ds = _process_number n.
Proof.
  intros Hint. pose proof (int_returns ds n Hint) as [Hne Hds].
  pose proof (digits_numeral ds Hds) as Hnum.
  cbn [process_text]. unfold process_text_body.
  unfold _process_letter_number_combination.
  rewrite (@re_sub_no_match true letter_pattern
             (fun s => forallb numeral_char s = true)
             replace_match ds numeral_tail numeral_letter_no_match Hnum).
  cbn [bind].
  rewrite (@re_sub_no_match false percent_pattern
             (fun s => forallb numeral_char s = true)
             _ ds numeral_tail numeral_percent_no_match Hnum).
  cbn [bind].
  rewrite symbol_loop_absent by (apply numeral_no_symbol; exact Hnum).
  unfold re_sub.
  destruct ds as [| d ds]; [congruence |].
  pose proof Hds as Hds'.
  cbn [forallb] in Hds'. apply andb_true_iff in Hds'.
  destruct Hds' as [Hd Hrest].
  rewrite (scan_whole false pattern d ds _ (pattern_on_digits d ds Hd Hrest)
             eq_refl eq_refl).
  cbn [fill]. rewrite (process_match_digits _ (d :: ds) n [] Hint).
  destruct (_process_number n) as [w | e |] eqn:Hw; cbn [bind];
    try reflexivity.
  rewrite app_nil_r.
  pose proof (process_number_phrase n w (int_nonneg _ n Hint) Hw) as Hp.
  fold SPACE. rewrite (phrase_collapse w Hp). reflexivity.
Qed.

(** X13. A text that is a run of decimal digits is read as its number:
    [process_text] gives what the cardinal converter gives for the value of
    the run, its words or its [KeyError]. *)
Theorem process_text_reads_integer (fuel : nat) (ds : str) (n : Z) :
  int ds = Ret n -> process_text (S fuel) ds = _process_number n.
Proof. exact (process_text_digits fuel ds n). Qed.

Lemma process_text_reads_integer_witness :
  int (u "00125000") = Ret 125000%Z
  /\ process_text 1 (u "00125000") = Ret (u "one lakh, twenty-five thousand").
Proof.
  assert (H : int (u "00125000") = Ret 125000%Z) by reflexivity.
  split; [exact H |].
  rewrite (process_text_reads_integer 0 (u "00125000") 125000%Z H).
  reflexivity.
Defined.

(** ** Texts the later passes leave alone *)

Lemma not_generic_symbol (P : char -> bool) (c : char) :
  forallb (fun kw : str * str =>
             match fst kw with
             | [k] => negb (P k)
             | _ => true
             end) symbols = true ->
  P c = true -> generic_symbol c = false.
Proof.
  intros Hall Hc. destruct (generic_symbol c) eqn:G; [exfalso | reflexivity].
  unfold generic_symbol in G. apply existsb_exists in G.
  destruct G as ([k w] & Hin & H). cbn [fst] in H.
  rewrite forallb_forall in Hall. specialize (Hall _ Hin). cbn [fst] in Hall.
  destruct k as [| k [| k' ks]]; try discriminate.
  apply andb_true_iff in H. destruct H as [H _]. apply N.eqb_eq in H. subst k.
  rewrite Hc in Hall. discriminate.
Qed.

Lemma digit_safe (c : char) : isdecimal c = true -> safe c.
Proof. apply not_generic_symbol. reflexivity. Qed.

Lemma space_safe (c : char) : isspace c = true -> safe c.
Proof. apply not_generic_symbol. reflexivity. Qed.

Lemma final_passes_plain (f : str -> outcome str) (t : str) :
  Forall nondigit t -> Forall safe t ->
  final_passes f t = Ret (join SPACE (split t)).
Proof.
  intros Hd Hs. apply nondigit_existsb in Hd. unfold final_passes.
  rewrite symbol_loop_safe_text by exact Hs.
  rewrite re_sub_no_digit by (reflexivity || exact Hd). reflexivity.
Qed.

Lemma later_passes_plain (f : str -> outcome str) (t : str) :
  Forall nondigit t -> Forall safe t ->
  later_passes f t = Ret (join SPACE (split t)).
Proof.
  intros Hd Hs. unfold later_passes.
  rewrite re_sub_no_digit by (reflexivity || apply nondigit_existsb, Hd).
  cbn [bind]. exact (final_passes_plain f t Hd Hs).
Qed.

Lemma wordy_phrase_passes (f : str -> outcome str) (t : str) :
  forallb wordy t = true -> phrase t ->
  later_passes f t = Ret t /\ final_passes f t = Ret t.
Proof.
  intros Hw Hp.
  pose proof (wordy_all_nondigit t Hw) as Hd.
  pose proof (@wordy_all_safe t Hw) as Hs.
  rewrite (later_passes_plain f t Hd Hs), (final_passes_plain f t Hd Hs).
  rewrite (phrase_collapse t Hp). split; reflexivity.
Qed.

(** ** Percentages *)

Lemma space_not_digit (c : char) : isspace c = true -> isdecimal c = false.
Proof.
  intros Hs. destruct (isdecimal c) eqn:Hd; [exfalso | reflexivity].
  assert (Hw : (c <= 0xA0 /\ ~ (0x30 <= c <= 0x39) \/ c = 0x1680
                \/ 0x2000 <= c <= 0x205F \/ c = 0x3000)%N).
  { revert Hs. unfold isspace. intros Hs. nbool. }
  unfold isdecimal in Hd. destruct (digit_value c) as [v |] eqn:Hv;
    [| discriminate].
  apply digit_in_range in Hv. destruct Hv as (z & Hz & Hr & _).
  assert (Hall : forallb (fun z => ((z =? 0x30) || (0xA0 <? z))
                                   && ((z + 10 <=? 0x1680) || (0x1680 <? z))
                                   && ((z + 10 <=? 0x2000) || (0x205F <? z))
                                   && ((z + 10 <=? 0x3000) || (0x3000 <? z)))%N
                         decimal_zeros = true) by reflexivity.
  rewrite forallb_forall in Hall. specialize (Hall z Hz).
  revert Hall. intros Hall. nbool.
Qed.

Lemma space_not_letter (c : char) : isspace c = true -> ~ letterish c.
Proof.
  unfold isspace, letterish. intros Hs Hl. nbool.
Qed.

Lemma digit_not_letter (c : char) : isdecimal c = true -> ~ letterish c.
Proof.
  intros Hd Hl. apply letterish_not_numeral in Hl.
  unfold numeral_char in Hl. rewrite Hd in Hl. discriminate.
Qed.

(** The letter-prefix pattern does not match at a character that is no
    letter. *)
Lemma letter_pattern_needs_letter (s : str) :
  match s with
  | c :: _ => ~ letterish c
  | [] => True
  end ->
  re_match true letter_pattern s = None.
Proof.
  intros Hs. destruct (re_match true letter_pattern s) as [m |] eqn:Hm;
    [exfalso | reflexivity].
  apply re_match_first in Hm; [| reflexivity].
  destruct Hm as (c & s' & a & -> & Ha & Hc).
  assert (Hall : forallb letter_atom (first_atoms letter_pattern) = true)
    by reflexivity.
  rewrite forallb_forall in Hall.
  exact (Hs (@letter_atom_ok a c (Hall a Ha) Hc)).
Qed.

Lemma letter_pass_no_letter (s : str) :
  Forall (fun c => ~ letterish c) s ->
  _process_letter_number_combination s = Ret s.
Proof.
  intros H. unfold _process_letter_number_combination.
  apply (@re_sub_no_match true letter_pattern
           (fun s => Forall (fun c => ~ letterish c) s)).
  - intros c s' Hcs. inversion Hcs; assumption.
  - intros s' Hs'. apply letter_pattern_needs_letter.
    destruct s' as [| c s'']; [exact I |]. inversion Hs'; assumption.
  - exact H.
Qed.

Lemma firstn_prefix (a b : str) :
  firstn (List.length (a ++ b) - List.length b) (a ++ b) = a.
Proof. apply firstn_consumed. Qed.

(** The percentage pattern takes a run of digits, the white space after it
    and the percent sign as one span, the run in group 1. *)
Lemma percent_pattern_on_digits (d : char) (ds sp : str) :
  isdecimal d = true -> forallb isdecimal ds = true ->
  forallb isspace sp = true ->
  re_match false percent_pattern ((d :: ds) ++ sp ++ [PERCENT])
  = Some {| group0 := (d :: ds) ++ sp ++ [PERCENT];
            captures := [(1%nat, d :: ds)] |}.
Proof.
  intros Hd Hds Hsp. unfold re_match, percent_pattern. cbn [run].
  apply number_re_takes_digits; [exact Hd | exact Hds | |].
  - destruct sp as [| c sp]; cbn [app].
    + split; reflexivity.
    + cbn [forallb] in Hsp. apply andb_true_iff in Hsp.
      destruct Hsp as [Hc _]. split; [apply space_not_digit, Hc |].
      apply N.eqb_neq. intros ->. vm_compute in Hc. discriminate.
  - apply star_exact; [exact Hsp | reflexivity |].
    change (atom_ok false (Lit PERCENT) PERCENT) with true. cbv iota.
    rewrite firstn_whole, firstn_prefix. reflexivity.
Qed.

Lemma percent_text (fuel : nat) (ds sp : str) (n : Z) :
  int ds = Ret n -> forallb isspace sp = true ->
  process_text (S (S fuel)) (ds ++ sp ++ [PERCENT])
  = (w <- _process_number n ;; Ret (w ++ u " percent")).
Proof.
  intros Hint Hsp. pose proof (int_returns ds n Hint) as [Hne Hds].
  change (process_text (S (S fuel)) (ds ++ sp ++ [PERCENT]))
    with (process_text_body (process_text (S fuel)) (ds ++ sp ++ [PERCENT])).
  rewrite later_passes_eq.
  rewrite letter_pass_no_letter.
  2:{ apply Forall_app. split.
      - apply Forall_forall. intros c Hc. apply digit_not_letter.
        rewrite forallb_forall in Hds. exact (Hds c Hc).
      - apply Forall_app. split.
        + apply Forall_forall. intros c Hc. apply space_not_letter.
          rewrite forallb_forall in Hsp. exact (Hsp c Hc).
        + constructor; [| constructor]. unfold letterish, PERCENT. lia. }
  cbn [bind]. unfold later_passes, re_sub.
  destruct ds as [| d ds]; [congruence |].
  pose proof Hds as Hds'. cbn [forallb] in Hds'.
  apply andb_true_iff in Hds'. destruct Hds' as [Hd Hrest].
  change ((d :: ds) ++ sp ++ [PERCENT]) with (d :: ds ++ sp ++ [PERCENT]).
  rewrite (scan_whole false percent_pattern d (ds ++ sp ++ [PERCENT]) _
             (percent_pattern_on_digits d ds sp Hd Hrest Hsp)
             eq_refl eq_refl).
  cbn [fill]. unfold _handle_percentage at 1.
  change (group_str {| group0 := (d :: ds) ++ sp ++ [PERCENT];
                       captures := [(1%nat, d :: ds)] |} 1) with (d :: ds).
  rewrite (process_text_digits fuel (d :: ds) n Hint).
  destruct (_process_number n) as [w | e |] eqn:Hw; cbn [bind];
    try reflexivity.
  rewrite app_nil_r.
  pose proof (process_number_phrase n w (int_nonneg _ n Hint) Hw) as Hp.
  assert (Hpw : phrase (w ++ u " percent")).
  { change (w ++ u " percent") with (w ++ SPACE ++ u "percent").
    apply phrase_app; [exact Hp |].
    apply phrase_word. split; [discriminate | reflexivity]. }
  assert (Hww : forallb wordy (w ++ u " percent") = true).
  { rewrite forallb_app, (@process_number_wordy n w Hw). reflexivity. }
  exact (proj2 (wordy_phrase_passes _ _ Hww Hpw)).
Qed.

(** X14. A run of digits, any white space and a percent sign read as the
    number followed by "percent"; the number is what the cardinal converter
    gives for the value of the run. *)
Theorem process_text_reads_percentage (fuel : nat) (ds sp : str) (n : Z) :
  int ds = Ret n ->
  forallb isspace sp = true ->
  process_text (S (S fuel)) (ds ++ sp ++ u "%")
  = (w <- _process_number n ;; Ret (w ++ u " percent")).
Proof. exact (percent_text fuel ds sp n). Qed.

Lemma process_text_reads_percentage_witness :
  int (u "15") = Ret 15%Z
  /\ forallb isspace (u "  ") = true
  /\ process_text 2 (u "15  %") = Ret (u "fifteen percent").
Proof.
  assert (H1 : int (u "15") = Ret 15%Z) by reflexivity.
  assert (H2 : forallb isspace (u "  ") = true) by reflexivity.
  split; [exact H1 | split; [exact H2 |]].
  exact (process_text_reads_percentage 0 (u "15") (u "  ") 15%Z H1 H2).
Defined.

(** ** Decimal numbers *)

(** On digits, a point, digits and something that is no digit,
    [\d+(?:\.\d+)?] takes the decimal number. *)
Lemma number_re_takes_decimal (R : Type) (d : char) (ds : str) (e : char)
      (es rest : str) (g : groups) (k : str -> groups -> option R) (x : R) :
  isdecimal d = true -> forallb isdecimal ds = true ->
  isdecimal e = true -> forallb isdecimal es = true ->
  match rest with
  | c :: _ => isdecimal c = false
  | [] => True
  end ->
  k rest g = Some x ->
  run false number_re ((d :: ds) ++ DOT :: (e :: es) ++ rest) g k = Some x.
Proof.
  intros Hd Hds He Hes Hrest Hk. unfold number_re, plus.
  cbn [run atom_ok app]. rewrite Hd.
  apply star_exact; [exact Hds | reflexivity |].
  change (lit_ok false DOT DOT) with true. cbv iota. rewrite He.
  rewrite (star_exact R isdecimal es rest _ x Hes Hrest Hk). reflexivity.
Qed.

Lemma pattern_on_decimal (d : char) (ds : str) (e : char) (es : str) :
  isdecimal d = true -> forallb isdecimal ds = true ->
  isdecimal e = true -> forallb isdecimal es = true ->
  re_match false pattern ((d :: ds) ++ DOT :: e :: es)
  = Some {| group0 := (d :: ds) ++ DOT :: e :: es; captures := [] |}.
Proof.
  intros Hd Hds He Hes. unfold re_match, pattern. rewrite !run_alt.
  change ((d :: ds) ++ DOT :: e :: es) with (d :: ds ++ DOT :: e :: es) at 1.
  rewrite (digit_no_currency d _ [] rmatch _ Hd).
  match goal with
  | |- match ?a with _ => _ end = _ =>
      replace a
        with (Some {| group0 := (d :: ds) ++ DOT :: e :: es; captures := [] |});
      [reflexivity |]
  end.
  symmetry. cbn [run].
  rewrite <- (app_nil_r (e :: es)) at 1.
  apply number_re_takes_decimal; try assumption; [exact I |].
  cbn [star]. rewrite era_on_empty, firstn_whole. reflexivity.
Qed.

Lemma num_pattern_on_decimal (d : char) (ds : str) (e : char) (es : str) :
  isdecimal d = true -> forallb isdecimal ds = true ->
  isdecimal e = true -> forallb isdecimal es = true ->
  re_match false num_pattern ((d :: ds) ++ DOT :: e :: es)
  = Some {| group0 := (d :: ds) ++ DOT :: e :: es;
            captures := [(1%nat, (d :: ds) ++ DOT :: e :: es)] |}.
Proof.
  intros Hd Hds He Hes. unfold re_match, num_pattern. cbn [run].
  rewrite <- (app_nil_r (e :: es)) at 1.
  apply number_re_takes_decimal; try assumption; [exact I |].
  cbn [star]. rewrite era_on_empty, !firstn_whole. reflexivity.
Qed.

Lemma digit_word_word (d : char) : isdecimal d = true -> word (digit_word d).
Proof.
  unfold isdecimal, digit_word. intros Hd.
  destruct (digit_value d) as [v |] eqn:Hv; [| discriminate].
  pose proof (@digit_value_bound d v Hv) as Hb.
  assert (Hall : forallb (fun k => match dict_find Z.eqb k units with
                                   | Some (c :: w) =>
                                       negb (existsb isspace (c :: w))
                                   | _ => false
                                   end) (range 10) = true) by reflexivity.
  rewrite forallb_forall in Hall.
  assert (Hin : In v (range 10)).
  { unfold range. apply in_map_iff. exists (Z.to_nat v).
    split; [lia |]. apply in_seq. lia. }
  specialize (Hall v Hin).
  destruct (dict_find Z.eqb v units) as [[| c w] |]; try discriminate.
  split; [discriminate | apply negb_true_iff, Hall].
Qed.

Lemma digit_words_phrase (dp : str) :
  dp <> [] -> forallb isdecimal dp = true ->
  phrase (join SPACE (map digit_word dp)).
Proof.
  intros Hne Hdp. exists (map digit_word dp). split; [| split].
  - destruct dp; [congruence | discriminate].
  - apply Forall_forall. intros w Hw. apply in_map_iff in Hw.
    destruct Hw as (d & <- & Hd). apply digit_word_word.
    rewrite forallb_forall in Hdp. exact (Hdp d Hd).
  - reflexivity.
Qed.

Lemma handle_decimal_phrase (ip dp : str) (n : Z) (w : str) :
  int ip = Ret n -> dp <> [] -> forallb isdecimal dp = true ->
  _handle_decimal (ip ++ DOT :: dp) = Ret w -> phrase w.
Proof.
  intros Hip Hne Hdp. rewrite (handle_decimal_point ip dp n Hip Hdp).
  destruct (_process_number n) as [iw | |] eqn:Hiw; try discriminate.
  cbn [bind]. intros [= <-].
  assert (Hq : phrase (u "point" ++ SPACE ++ join SPACE (map digit_word dp))).
  { apply (phrase_app (u "point") (join SPACE (map digit_word dp)));
      [| exact (digit_words_phrase dp Hne Hdp)].
    apply phrase_word. split; [discriminate | reflexivity]. }
  exact (phrase_app iw _
           (process_number_phrase n iw (int_nonneg ip n Hip) Hiw) Hq).
Qed.

Lemma decimal_numeral (ip dp : str) :
  forallb isdecimal ip = true -> forallb isdecimal dp = true ->
  forallb numeral_char (ip ++ DOT :: dp) = true.
Proof.
  intros Hip Hdp. rewrite forallb_app. cbn [forallb].
  rewrite (digits_numeral ip Hip), (digits_numeral dp Hdp). reflexivity.
Qed.

Lemma decimal_text (fuel : nat) (ip dp : str) (n : Z) :
  int ip = Ret n -> dp <> [] -> forallb isdecimal dp = true ->
  process_text (S fuel) (ip ++ DOT :: dp) = _handle_decimal (ip ++ DOT :: dp).
Proof.
  intros Hint Hne Hdp. pose proof (int_returns ip n Hint) as [Hipne Hip].
  pose proof (decimal_numeral ip dp Hip Hdp) as Hnum.
  cbn [process_text]. unfold process_text_body.
  unfold _process_letter_number_combination.
  rewrite (@re_sub_no_match true letter_pattern
             (fun s => forallb numeral_char s = true)
             replace_match _ numeral_tail numeral_letter_no_match Hnum).
  cbn [bind].
  rewrite (@re_sub_no_match false percent_pattern
             (fun s => forallb numeral_char s = true)
             _ _ numeral_tail numeral_percent_no_match Hnum).
  cbn [bind].
  rewrite symbol_loop_absent by (apply numeral_no_symbol; exact Hnum).
  unfold re_sub.
  destruct ip as [| d ds]; [congruence |].
  destruct dp as [| e es]; [congruence |].
  cbn [forallb] in Hip, Hdp.
  apply andb_true_iff in Hip. destruct Hip as [Hd Hds].
  apply andb_true_iff in Hdp. destruct Hdp as [He Hes].
  change ((d :: ds) ++ DOT :: e :: es) with (d :: ds ++ DOT :: e :: es) at 1.
  rewrite (scan_whole false pattern d (ds ++ DOT :: e :: es) _
             (pattern_on_decimal d ds e es Hd Hds He Hes) eq_refl eq_refl).
  cbn [fill]. unfold process_match.
  change (group_str {| group0 := (d :: ds) ++ DOT :: e :: es;
                       captures := [] |} 0)
    with ((d :: ds) ++ DOT :: e :: es).
  rewrite (digits_no_hyphen _ Hnum).
  rewrite (@numeral_currency_no_match _ Hnum).
  rewrite (num_pattern_on_decimal d ds e es Hd Hds He Hes).
  change (group_str {| group0 := (d :: ds) ++ DOT :: e :: es;
                       captures := [(1%nat, (d :: ds) ++ DOT :: e :: es)] |} 1)
    with ((d :: ds) ++ DOT :: e :: es).
  change (group_str {| group0 := (d :: ds) ++ DOT :: e :: es;
                       captures := [(1%nat, (d :: ds) ++ DOT :: e :: es)] |} 2)
    with (@nil char).
  assert (Hdot : existsb (N.eqb DOT) ((d :: ds) ++ DOT :: e :: es) = true).
  { rewrite existsb_app. cbn [existsb]. rewrite N.eqb_refl.
    cbn [orb]. apply orb_true_r. }
  rewrite Hdot.
  destruct (_handle_decimal ((d :: ds) ++ DOT :: e :: es)) as [w | err |]
    eqn:Hw; cbn [bind]; try reflexivity.
  assert (Hp : phrase w).
  { apply (handle_decimal_phrase (d :: ds) (e :: es) n w Hint);
      [discriminate | cbn [forallb]; rewrite He, Hes; reflexivity | exact Hw]. }
  change (w ++ u " " ++ []) with (w ++ SPACE).
  rewrite (phrase_strip w Hp), app_nil_r.
  fold SPACE. rewrite (phrase_collapse w Hp). reflexivity.
Qed.

(** X15. A text that is digits, a point and digits is read by the decimal
    reader: [process_text] gives "<integer words> point <digit words>", or
    the [KeyError] of the integer part. *)
Theorem process_text_reads_decimal (fuel : nat) (ip dp : str) (n : Z) :
  int ip = Ret n ->
  dp <> [] ->
  forallb isdecimal dp = true ->
  process_text (S fuel) (ip ++ DOT :: dp)
  = (integer_words <- _process_number n ;;
     Ret (integer_words ++ u " point " ++ join (u " ") (map digit_word dp))).
Proof.
  intros Hint Hne Hdp. rewrite (decimal_text fuel ip dp n Hint Hne Hdp).
  exact (handle_decimal_point ip dp n Hint Hdp).
Qed.

Lemma process_text_reads_decimal_witness :
  int (u "10237") = Ret 10237%Z
  /\ u "33" <> []
  /\ forallb isdecimal (u "33") = true
  /\ process_text 1 (u "10237.33")
     = Ret (u "ten thousand, two hundred, thirty-seven point three three").
Proof.
  assert (H1 : int (u "10237") = Ret 10237%Z) by reflexivity.
  assert (H2 : u "33" <> []) by discriminate.
  assert (H3 : forallb isdecimal (u "33") = true) by reflexivity.
  split; [exact H1 | split; [exact H2 | split; [exact H3 |]]].
  exact (process_text_reads_decimal 0 (u "10237") (u "33") 10237%Z H1 H2 H3).
Defined.

(** ** Currency amounts *)

Lemma digit_not_space (c : char) : isdecimal c = true -> isspace c = false.
Proof.
  intros Hd. destruct (isspace c) eqn:Hs; [| reflexivity].
  rewrite (space_not_digit c Hs) in Hd. discriminate.
Qed.

Lemma star_all (R : Type) (p : char -> bool) (w : str) (k : str -> option R)
      (x : R) :
  forallb p w = true -> k [] = Some x -> star p w k = Some x.
Proof.
  intros Hw Hk. pose proof (star_exact R p w [] k x Hw I Hk) as H.
  rewrite app_nil_r in H. exact H.
Qed.

Lemma number_re_takes_run (R : Type) (d : char) (ds : str) (g : groups)
      (k : str -> groups -> option R) (x : R) :
  isdecimal d = true -> forallb isdecimal ds = true ->
  k [] g = Some x ->
  run false number_re (d :: ds) g k = Some x.
Proof.
  intros Hd Hds Hk.
  pose proof (number_re_takes_digits R d ds [] g k x Hd Hds I Hk) as H.
  rewrite app_nil_r in H. exact H.
Qed.

Lemma existsb_none (p q : char -> bool) (s : str) :
  (forall c, q c = true -> p c = false) ->
  forallb q s = true -> existsb p s = false.
Proof.
  intros Hpq. induction s as [| c s IH]; intros Hs; [reflexivity |].
  cbn [forallb] in Hs. apply andb_true_iff in Hs. destruct Hs as [Hc Hs].
  cbn [existsb]. rewrite (Hpq c Hc), (IH Hs). reflexivity.
Qed.

Lemma re_sub_needs (ic : bool) (a0 : atom) (r : regex)
      (repl : rmatch -> outcome str) (s : str) :
  needs a0 r = true -> existsb (atom_ok ic a0) s = false ->
  re_sub ic r repl s = Ret s.
Proof.
  intros Hn Hs.
  apply (re_sub_no_match ic r (fun s => existsb (atom_ok ic a0) s = false)).
  - intros c s' H. cbn [existsb] in H. apply orb_false_iff in H. tauto.
  - intros s' H. exact (needs_no_match ic a0 r s' Hn H).
  - exact Hs.
Qed.

Lemma no_literal (x : char) (p : char -> bool) (s : str) :
  p x = false -> forallb p s = true ->
  existsb (atom_ok false (Lit x)) s = false.
Proof.
  intros Hx. apply existsb_none. intros c Hc. cbn [atom_ok lit_ok].
  apply N.eqb_neq. intros ->. congruence.
Qed.

(** What the pipeline needs to know of an entry of the currency table. *)
Lemma currency_symbol_facts (sym name : str) :
  In (sym, name) currency_symbols ->
  existsb (atom_ok false (Lit HYPHEN)) sym = false
  /\ existsb (atom_ok false (Lit PERCENT)) sym = false
  /\ Forall safe sym
  /\ get_default currency_symbols sym sym = name
  /\ word name
  /\ forallb wordy name = true
  /\ (sym = u "Rs" \/ Forall (fun c => ~ letterish c) sym).
Proof.
  unfold currency_symbols. cbn [In].
  intros [E | [E | [E | [E | [E | []]]]]]; injection E as <- <-;
    (split; [reflexivity |]); (split; [reflexivity |]);
    (split; [repeat constructor |]); (split; [reflexivity |]);
    (split; [split; [discriminate | reflexivity] |]);
    (split; [reflexivity |]).
  - left. reflexivity.
  - right. constructor; [| constructor]. unfold letterish, RUPEE. intros H. lia.
  - right. constructor; [| constructor]. unfold letterish. intros H.
    cbn in H. lia.
  - right. constructor; [| constructor]. unfold letterish, EURO. intros H. lia.
  - right. constructor; [| constructor]. unfold letterish, POUND. intros H. lia.
Qed.

(** The alternation of the currency symbols takes a symbol of the table. *)
Lemma currency_re_takes (R : Type) (sym name rest : str) (g : groups)
      (k : str -> groups -> option R) (x : R) :
  In (sym, name) currency_symbols -> k rest g = Some x ->
  run false currency_re (sym ++ rest) g k = Some x.
Proof.
  unfold currency_symbols. cbn [In].
  intros [E | [E | [E | [E | [E | []]]]]] Hk; injection E as <- <-;
    unfold currency_re; cbn; rewrite Hk; reflexivity.
Qed.

(** The numeral pattern takes a symbol of the table, the white space after
    it and a run of digits as one span. *)
Lemma pattern_on_currency (sym name sp : str) (d : char) (ds : str) :
  In (sym, name) currency_symbols ->
  forallb isspace sp = true ->
  isdecimal d = true -> forallb isdecimal ds = true ->
  re_match false pattern (sym ++ sp ++ d :: ds)
  = Some {| group0 := sym ++ sp ++ d :: ds; captures := [] |}.
Proof.
  intros Hin Hsp Hd Hds. unfold re_match, pattern. rewrite run_alt.
  match goal with
  | |- match ?a with _ => _ end = _ =>
      replace a
        with (Some {| group0 := sym ++ sp ++ d :: ds; captures := [] |});
      [reflexivity |]
  end.
  symmetry. cbn [run].
  apply (currency_re_takes rmatch sym name _ _ _ _ Hin).
  apply star_exact; [exact Hsp | exact (digit_not_space d Hd) |].
  apply number_re_takes_run; [exact Hd | exact Hds |].
  rewrite firstn_whole. reflexivity.
Qed.

(** The currency pattern splits such a span into the symbol and the run. *)
Lemma currency_pattern_on (sym name sp : str) (d : char) (ds : str) :
  In (sym, name) currency_symbols ->
  forallb isspace sp = true ->
  isdecimal d = true -> forallb isdecimal ds = true ->
  re_match false currency_pattern (sym ++ sp ++ d :: ds)
  = Some {| group0 := sym ++ sp ++ d :: ds;
            captures := [(2%nat, d :: ds); (1%nat, sym)] |}.
Proof.
  intros Hin Hsp Hd Hds. unfold re_match, currency_pattern. cbn [run].
  apply (currency_re_takes rmatch sym name _ _ _ _ Hin).
  apply star_exact; [exact Hsp | exact (digit_not_space d Hd) |].
  apply number_re_takes_run; [exact Hd | exact Hds |].
  rewrite !firstn_whole, firstn_prefix. reflexivity.
Qed.

(** A match of the letter-prefix pattern begins with a run of letters and a
    digit after it. *)
Lemma letter_prefix_den (w : str) (g g' : groups) :
  den true (Alt prefix_pattern (Atom (Range 0x41%N 0x5A%N))) w g g' ->
  w <> [] /\ Forall letterish w.
Proof.
  intros D. split.
  - intros ->. apply (@den_first true _ [] g g') in D. discriminate.
  - apply Forall_forall. intros c Hc.
    destruct (@den_atoms true _ w g g' D c Hc) as (a & Ha & Hok).
    assert (Hall : forallb letter_atom
                     (atoms (Alt prefix_pattern (Atom (Range 0x41%N 0x5A%N))))
                   = true) by reflexivity.
    rewrite forallb_forall in Hall.
    exact (@letter_atom_ok a c (Hall a Ha) Hok).
Qed.

Lemma letter_match_shape (s : str) (m : rmatch) :
  re_match true letter_pattern s = Some m ->
  exists w d rest,
    s = w ++ d :: rest /\ w <> [] /\ Forall letterish w /\ isdecimal d = true.
Proof.
  intros Hm. apply re_match_sound in Hm. destruct Hm as (s' & Heq & D).
  unfold letter_pattern, plus in D. cbn [den] in D.
  destruct D as (w1 & w23 & g1 & Hw & (g0 & D1 & _)
                 & (w2 & w3 & g2 & -> & (g3 & D2 & _) & _)).
  destruct D2 as (wd & wd' & g4 & -> & (d & -> & Hd & _) & _).
  destruct (letter_prefix_den w1 [] g0 D1) as [Hne Hl].
  exists w1, d, (wd' ++ w3 ++ s'). rewrite Heq, Hw.
  split; [| auto]. rewrite <- !app_assoc. reflexivity.
Qed.

(** The pattern does not match at a run of letters that ends before a
    character which is neither a letter nor a digit. *)
Lemma letters_then_other (l : str) (c : char) (rest : str) :
  Forall letterish l -> ~ letterish c -> isdecimal c = false ->
  re_match true letter_pattern (l ++ c :: rest) = None.
Proof.
  intros Hl Hc Hd.
  destruct (re_match true letter_pattern (l ++ c :: rest)) as [m |] eqn:Hm;
    [exfalso | reflexivity].
  apply letter_match_shape in Hm.
  destruct Hm as (w & d & rest' & Heq & Hne & Hw & Hdig).
  revert w Heq Hne Hw.
  induction Hl as [| x l Hx Hl IH]; intros w Heq Hne Hw.
  - destruct w as [| y w]; [congruence |]. cbn [app] in Heq.
    injection Heq as -> _. inversion Hw; contradiction.
  - destruct w as [| y w]; [congruence |]. cbn [app] in Heq.
    injection Heq as _ E2. destruct w as [| y' w'].
    + cbn [app] in E2.
      destruct l as [| x' l']; cbn [app] in E2; injection E2 as E3 _.
      * subst. congruence.
      * subst. inversion Hl as [| ? ? Hx' _]; subst.
        exact (digit_not_letter _ Hdig Hx').
    + apply (IH (y' :: w')); [exact E2 | discriminate |].
      inversion Hw; assumption.
Qed.

Lemma letter_pass_letters_then_other (l : str) (c : char) (rest : str) :
  Forall letterish l -> ~ letterish c -> isdecimal c = false ->
  Forall (fun x => ~ letterish x) rest ->
  _process_letter_number_combination (l ++ c :: rest) = Ret (l ++ c :: rest).
Proof.
  intros Hl Hc Hd Hrest. unfold _process_letter_number_combination.
  apply (@re_sub_no_match true letter_pattern
           (fun s => (exists l', Forall letterish l' /\ s = l' ++ c :: rest)
                     \/ Forall (fun x => ~ letterish x) s)).
  - intros x s [(l' & Hl' & E) | H].
    + destruct l' as [| y l'']; cbn [app] in E; injection E as _ ->.
      * right. exact Hrest.
      * left. exists l''. split; [inversion Hl'; assumption | reflexivity].
    + right. inversion H; assumption.
  - intros s [(l' & Hl' & ->) | H].
    + apply letters_then_other; assumption.
    + apply letter_pattern_needs_letter.
      destruct s; [exact I | inversion H; assumption].
  - left. exists l. auto.
Qed.

Lemma not_letters (p : char -> bool) (s : str) :
  (forall c, p c = true -> ~ letterish c) ->
  forallb p s = true -> Forall (fun c => ~ letterish c) s.
Proof.
  intros Hp Hs. apply Forall_forall. intros c Hc. apply Hp.
  rewrite forallb_forall in Hs. exact (Hs c Hc).
Qed.

Lemma currency_letter_pass (sym name sp ds : str) :
  In (sym, name) currency_symbols ->
  (sym = u "Rs" -> sp <> []) ->
  forallb isspace sp = true -> forallb isdecimal ds = true ->
  _process_letter_number_combination (sym ++ sp ++ ds) = Ret (sym ++ sp ++ ds).
Proof.
  intros Hin Hrs Hsp Hds.
  pose proof (not_letters isspace sp space_not_letter Hsp) as Hsp'.
  pose proof (not_letters isdecimal ds digit_not_letter Hds) as Hds'.
  destruct (currency_symbol_facts sym name Hin)
    as (_ & _ & _ & _ & _ & _ & [-> | Hsym]).
  - destruct sp as [| c sp]; [exfalso; exact (Hrs eq_refl eq_refl) |].
    cbn [forallb] in Hsp. apply andb_true_iff in Hsp. destruct Hsp as [Hc _].
    apply (letter_pass_letters_then_other (u "Rs") c (sp ++ ds)).
    + repeat constructor; unfold letterish; cbn; lia.
    + exact (space_not_letter c Hc).
    + exact (space_not_digit c Hc).
    + inversion Hsp'; subst. apply Forall_app. auto.
  - apply letter_pass_no_letter. rewrite !Forall_app. auto.
Qed.

Lemma scan_whole_text (ic : bool) (r : regex) (s : str) (m : rmatch) :
  re_match ic r s = Some m -> group0 m = s -> s <> [] ->
  re_match ic r [] = None ->
  scan ic r s = [Hit m].
Proof.
  intros Hm Hg Hne Hnil. destruct s as [| c s]; [congruence |].
  exact (scan_whole ic r c s m Hm Hg Hnil).
Qed.

Lemma currency_text (fuel : nat) (sym name sp ds : str) (n : Z) :
  In (sym, name) currency_symbols ->
  (sym = u "Rs" -> sp <> []) ->
  forallb isspace sp = true ->
  int ds = Ret n ->
  process_text (S (S fuel)) (sym ++ sp ++ ds)
  = (w <- _process_number n ;; Ret (name ++ u " " ++ w)).
Proof.
  intros Hin Hrs Hsp Hint. pose proof (int_returns ds n Hint) as [Hne Hds].
  destruct (currency_symbol_facts sym name Hin)
    as (Hhy & Hpc & Hsafe & Hname & Hword & Hwordy & _).
  change (process_text (S (S fuel)) (sym ++ sp ++ ds))
    with (process_text_body (process_text (S fuel)) (sym ++ sp ++ ds)).
  rewrite later_passes_eq, (currency_letter_pass sym name sp ds Hin Hrs Hsp Hds).
  cbn [bind]. unfold later_passes.
  rewrite (re_sub_needs false (Lit PERCENT) percent_pattern _ _ eq_refl).
  2:{ rewrite !existsb_app, Hpc, (no_literal PERCENT isspace sp eq_refl Hsp),
        (no_literal PERCENT isdecimal ds eq_refl Hds). reflexivity. }
  cbn [bind].
  rewrite symbol_loop_safe_text.
  2:{ rewrite !Forall_app. repeat split; [exact Hsafe | |].
      - apply Forall_forall. intros c Hc. apply space_safe.
        rewrite forallb_forall in Hsp. exact (Hsp c Hc).
      - apply Forall_forall. intros c Hc. apply digit_safe.
        rewrite forallb_forall in Hds. exact (Hds c Hc). }
  unfold re_sub.
  destruct ds as [| d ds]; [congruence |].
  pose proof Hds as Hall.
  cbn [forallb] in Hds. apply andb_true_iff in Hds. destruct Hds as [Hd Hds].
  rewrite (scan_whole_text false pattern _ _
             (pattern_on_currency sym name sp d ds Hin Hsp Hd Hds) eq_refl).
  2:{ intros E. apply (f_equal (@List.length char)) in E.
      rewrite !length_app in E. cbn [List.length] in E. lia. }
  2:{ reflexivity. }
  cbn [fill]. unfold process_match.
  change (group_str {| group0 := sym ++ sp ++ d :: ds; captures := [] |} 0)
    with (sym ++ sp ++ d :: ds).
  rewrite (re_search_needs false (Lit HYPHEN) year_range_pattern _ eq_refl).
  2:{ rewrite !existsb_app, Hhy, (no_literal HYPHEN isspace sp eq_refl Hsp),
        (no_literal HYPHEN isdecimal (d :: ds) eq_refl Hall). reflexivity. }
  rewrite (currency_pattern_on sym name sp d ds Hin Hsp Hd Hds).
  change (group_str {| group0 := sym ++ sp ++ d :: ds;
                       captures := [(2%nat, d :: ds); (1%nat, sym)] |} 2)
    with (d :: ds).
  change (group_str {| group0 := sym ++ sp ++ d :: ds;
                       captures := [(2%nat, d :: ds); (1%nat, sym)] |} 1)
    with sym.
  unfold _handle_currency. rewrite Hname.
  rewrite (process_text_digits fuel (d :: ds) n Hint).
  destruct (_process_number n) as [w | e |] eqn:Hw; cbn [bind];
    try reflexivity.
  rewrite app_nil_r.
  pose proof (process_number_phrase n w (int_nonneg _ n Hint) Hw) as Hp.
  fold SPACE.
  rewrite (phrase_collapse _ (phrase_app name w (phrase_word name Hword) Hp)).
  reflexivity.
Qed.

(** X16. A symbol of the currency table, white space and a run of digits
    read as the name of the currency and the number in words; the table's
    one alphabetic symbol, [Rs], needs white space after it. *)
Theorem process_text_reads_currency (fuel : nat) (symbol name sp ds : str)
        (n : Z) :
  In (symbol, name) currency_symbols ->
  (symbol = u "Rs" -> sp <> []) ->
  forallb isspace sp = true ->
  int ds = Ret n ->
  process_text (S (S fuel)) (symbol ++ sp ++ ds)
  = (w <- _process_number n ;; Ret (name ++ u " " ++ w)).
Proof. exact (currency_text fuel symbol name sp ds n). Qed.

Lemma process_text_reads_currency_witness :
  In (u "Rs", u "Rupees") currency_symbols
  /\ (u "Rs" = u "Rs" -> u " " <> [])
  /\ forallb isspace (u " ") = true
  /\ int (u "2500") = Ret 2500%Z
  /\ process_text 2 (u "Rs 2500") = Ret (u "Rupees two thousand, five hundred").
Proof.
  assert (H1 : In (u "Rs", u "Rupees") currency_symbols)
    by (left; reflexivity).
  assert (H2 : u "Rs" = u "Rs" -> u " " <> []) by (intros _; discriminate).
  assert (H3 : forallb isspace (u " ") = true) by reflexivity.
  assert (H4 : int (u "2500") = Ret 2500%Z) by reflexivity.
  split; [exact H1 | split; [exact H2 | split; [exact H3 | split; [exact H4 |]]]].
  exact (process_text_reads_currency 0 _ _ _ _ _ H1 H2 H3 H4).
Defined.

(** ** Letter prefixes *)

Lemma run_cat (ic : bool) (R : Type) (r1 r2 : regex) (s : str) (g : groups)
      (k : str -> groups -> option R) :
  run ic (Cat r1 r2) s g k = run ic r1 s g (fun s1 g1 => run ic r2 s1 g1 k).
Proof. reflexivity. Qed.

Lemma run_group (ic : bool) (R : Type) (n : nat) (r : regex) (s : str)
      (g : groups) (k : str -> groups -> option R) :
  run ic (Group n r) s g k
  = run ic r s g
      (fun s' g' =>
         k s' (set_group n (firstn (List.length s - List.length s') s) g')).
Proof. reflexivity. Qed.

(** What the pipeline needs to know of an entry of the prefix table. *)
Lemma letter_prefix_facts (k v : str) :
  In (k, v) letter_prefixes ->
  get_default letter_prefixes k k = v
  /\ word v
  /\ forallb wordy v = true
  /\ k <> [].
Proof.
  unfold letter_prefixes. cbn [In]. intros H.
  repeat (destruct H as [E | H];
          [injection E as <- <-;
           split; [reflexivity |];
           split; [split; [discriminate | reflexivity] |];
           split; [reflexivity | discriminate] |]).
  destruct H.
Qed.

(** Before a continuation that wants a digit next, the alternation of the
    table's keys and [[A-Z]] takes a key of the table whole: the keys
    before it in the table that begin the same way end before one of its
    letters. *)
Lemma prefix_alternation (R : Type) (k v rest : str) (g : groups)
      (K : str -> groups -> option R) (x : R) :
  In (k, v) letter_prefixes ->
  (forall c s h, isdecimal c = false -> K (c :: s) h = None) ->
  K rest g = Some x ->
  run true (Alt prefix_pattern (Atom (Range 0x41%N 0x5A%N))) (k ++ rest) g K
  = Some x.
Proof.
  unfold letter_prefixes. cbn [In]. intros H HK2 HK1.
  repeat (destruct H as [E | H];
          [injection E as <- <-;
           unfold prefix_pattern, letter_prefixes; cbn;
           repeat (rewrite HK2 by reflexivity; cbn);
           rewrite HK1; reflexivity |]).
  destruct H.
Qed.

(** On a key of the table and a run of digits the letter-prefix pattern
    matches the whole, the key in group 1 and the run in group 2. *)
Lemma letter_pattern_on_key (k v : str) (d : char) (ds : str) :
  In (k, v) letter_prefixes ->
  isdecimal d = true -> forallb isdecimal ds = true ->
  re_match true letter_pattern (k ++ d :: ds)
  = Some {| group0 := k ++ d :: ds;
            captures := [(3%nat, []); (2%nat, d :: ds); (1%nat, k)] |}.
Proof.
  intros Hin Hd Hds. unfold re_match, letter_pattern.
  rewrite run_cat, run_group.
  apply (prefix_alternation rmatch k v _ _ _ _ Hin).
  - intros c s h Hc. cbv beta. apply run_first_fail; [reflexivity |].
    intros a [<- | []]. exact Hc.
  - cbv beta. unfold plus. rewrite run_cat, run_group, run_cat.
    cbn [run atom_ok]. rewrite Hd.
    apply star_all; [exact Hds |].
    cbn [run star]. rewrite !firstn_whole, firstn_prefix.
    reflexivity.
Qed.

Lemma letter_text (fuel : nat) (k v ds : str) (n : Z) :
  In (k, v) letter_prefixes ->
  int ds = Ret n ->
  process_text (S fuel) (k ++ ds)
  = (w <- _process_number n ;; Ret (v ++ u " " ++ w)).
Proof.
  intros Hin Hint. pose proof (int_returns ds n Hint) as [Hne Hds].
  destruct (letter_prefix_facts k v Hin) as (Hv & Hword & Hwordy & Hk).
  change (process_text (S fuel) (k ++ ds))
    with (process_text_body (process_text fuel) (k ++ ds)).
  rewrite later_passes_eq.
  unfold _process_letter_number_combination, re_sub.
  destruct ds as [| d ds]; [congruence |].
  cbn [forallb] in Hds. apply andb_true_iff in Hds. destruct Hds as [Hd Hds].
  rewrite (scan_whole_text true letter_pattern _ _
             (letter_pattern_on_key k v d ds Hin Hd Hds) eq_refl).
  2:{ intros E. apply (f_equal (@List.length char)) in E.
      rewrite !length_app in E. cbn [List.length] in E. lia. }
  2:{ reflexivity. }
  cbn [fill]. unfold replace_match.
  change (group_str {| group0 := k ++ d :: ds;
                       captures := [(3%nat, []); (2%nat, d :: ds);
                                    (1%nat, k)] |} 1) with k.
  change (group_str {| group0 := k ++ d :: ds;
                       captures := [(3%nat, []); (2%nat, d :: ds);
                                    (1%nat, k)] |} 2) with (d :: ds).
  change (group_str {| group0 := k ++ d :: ds;
                       captures := [(3%nat, []); (2%nat, d :: ds);
                                    (1%nat, k)] |} 3) with (@nil char).
  cbv iota. rewrite Hv, Hint. cbn [bind].
  destruct (_process_number n) as [w | e |] eqn:Hw; cbn [bind];
    try reflexivity.
  rewrite app_nil_r.
  pose proof (process_number_phrase n w (int_nonneg _ n Hint) Hw) as Hp.
  assert (Hpw : phrase (v ++ u " " ++ w))
    by exact (phrase_app v w (phrase_word v Hword) Hp).
  assert (Hww : forallb wordy (v ++ u " " ++ w) = true).
  { rewrite !forallb_app, Hwordy, (@process_number_wordy n w Hw).
    reflexivity. }
  exact (proj1 (wordy_phrase_passes _ _ Hww Hpw)).
Qed.

(** X17. A key of the prefix table, written as in the table, and a run of
    digits read as the table's expansion and the number in words, whatever
    the number of digits. *)
Theorem process_text_reads_prefixed_number (fuel : nat) (prefix full ds : str)
        (n : Z) :
  In (prefix, full) letter_prefixes ->
  int ds = Ret n ->
  process_text (S fuel) (prefix ++ ds)
  = (w <- _process_number n ;; Ret (full ++ u " " ++ w)).
Proof. exact (letter_text fuel prefix full ds n). Qed.

Lemma process_text_reads_prefixed_number_witness :
  In (u "Vol", u "Volume") letter_prefixes
  /\ int (u "112") = Ret 112%Z
  /\ process_text 1 (u "Vol112") = Ret (u "Volume one hundred, twelve").
Proof.
  assert (H1 : In (u "Vol", u "Volume") letter_prefixes).
  { unfold letter_prefixes. cbn [In]. do 7 right. left. reflexivity. }
  assert (H2 : int (u "112") = Ret 112%Z) by reflexivity.
  split; [exact H1 | split; [exact H2 |]].
  exact (process_text_reads_prefixed_number 0 _ _ _ _ H1 H2).
Defined.

(** ** The anusvara normaliser in one pass *)

Lemma class_nasal_app (rs : list rule) (r : rule) (c : char) :
  class_nasal (rs ++ [r]) c
  = match class_nasal rs c with
    | Some n => Some n
    | None => if existsb (N.eqb c) (consonants r) then Some (nasal r) else None
    end.
Proof.
  unfold class_nasal. induction rs as [| r' rs IH]; cbn [app find].
  - destruct (existsb (N.eqb c) (consonants r)); reflexivity.
  - destruct (existsb (N.eqb c) (consonants r')); [reflexivity | exact IH].
Qed.

Lemma class_nasal_rule (rs : list rule) (c n : char) :
  class_nasal rs c = Some n ->
  exists r, In r rs /\ existsb (N.eqb c) (consonants r) = true /\ n = nasal r.
Proof.
  unfold class_nasal.
  destruct (find (fun r => existsb (N.eqb c) (consonants r)) rs) as [r |] eqn:E;
    [| discriminate].
  intros [= <-]. apply find_some in E. exists r. tauto.
Qed.

Lemma homorganic_pair (rs : list rule) (a c : char) (s2 : str) :
  homorganic rs (a :: c :: s2)
  = match (if N.eqb a ANUSVARA then class_nasal rs c else None) with
    | Some n => n :: VIRAMA :: c :: homorganic rs s2
    | None => a :: homorganic rs (c :: s2)
    end.
Proof. reflexivity. Qed.

Lemma homorganic_skip (rs : list rule) (a : char) (s : str) :
  N.eqb a ANUSVARA = false -> homorganic rs (a :: s) = a :: homorganic rs s.
Proof.
  intros Ha. destruct s as [| c s]; [reflexivity |].
  rewrite homorganic_pair, Ha. reflexivity.
Qed.

Lemma homorganic_head (rs : list rule) (x : char) (s : str) :
  exists y t,
    homorganic rs (x :: s) = y :: t
    /\ (y = x \/ exists c, class_nasal rs c = Some y).
Proof.
  destruct s as [| c s]; [cbn [homorganic]; eauto |].
  rewrite homorganic_pair.
  destruct (N.eqb x ANUSVARA); [| eauto].
  destruct (class_nasal rs c) as [n |] eqn:E; eauto 6.
Qed.

Lemma homorganic_no_rule (s : str) : homorganic [] s = s.
Proof.
  induction s as [| a [| c s2] IH]; [reflexivity | reflexivity |].
  rewrite homorganic_pair.
  replace (if N.eqb a ANUSVARA then class_nasal [] c else None)
    with (@None char) by (destruct (N.eqb a ANUSVARA); reflexivity).
  rewrite IH. reflexivity.
Qed.

Section OneMoreRule.

Variables (rs : list rule) (r : rule).

Hypothesis anusvara_new : existsb (N.eqb ANUSVARA) (consonants r) = false.
Hypothesis anusvara_old : class_nasal rs ANUSVARA = None.
Hypothesis nasals_old :
  forall c n, class_nasal rs c = Some n ->
              N.eqb n ANUSVARA = false
              /\ existsb (N.eqb n) (consonants r) = false.

(** The pass of one more rule over the result of one pass of the rules
    before it is one pass of them all. *)
Lemma nasalize_homorganic (s : str) :
  nasalize (consonants r) (nasal r) (homorganic rs s)
  = homorganic (rs ++ [r]) s.
Proof.
  remember (List.length s) as len eqn:Hlen.
  assert (Hle : (List.length s <= len)%nat) by lia. clear Hlen.
  revert s Hle. induction len as [| len IH]; intros s Hle.
  - destruct s; [reflexivity | cbn in Hle; lia].
  - destruct s as [| a [| c s2]]; [reflexivity | reflexivity |].
    assert (IH2 := IH s2 ltac:(cbn [List.length] in *; lia)).
    assert (IH1 := IH (c :: s2) ltac:(cbn [List.length] in *; lia)).
    rewrite !homorganic_pair, class_nasal_app.
    destruct (N.eqb_spec a ANUSVARA) as [-> | Ha].
    + destruct (class_nasal rs c) as [n |] eqn:Ec.
      * destruct (nasals_old c n Ec) as [Hn _].
        assert (Hc : N.eqb c ANUSVARA = false).
        { apply N.eqb_neq. intros ->. congruence. }
        rewrite (@nasalize_skip _ _ n _ Hn), (@nasalize_skip _ _ VIRAMA _ eq_refl),
          (@nasalize_skip _ _ c _ Hc), IH2.
        reflexivity.
      * destruct (existsb (N.eqb c) (consonants r)) eqn:Hr.
        -- assert (Hc : N.eqb c ANUSVARA = false).
           { apply N.eqb_neq. intros ->. congruence. }
           rewrite (homorganic_skip rs c s2 Hc), nasalize_pair, N.eqb_refl, Hr.
           cbn [andb]. rewrite IH2. reflexivity.
        -- rewrite <- IH1.
           destruct (homorganic_head rs c s2) as (y & t & Heq & Hy).
           rewrite Heq, nasalize_pair, N.eqb_refl. cbn [andb].
           replace (existsb (N.eqb y) (consonants r)) with false;
             [reflexivity |].
           symmetry. destruct Hy as [-> | (c' & Hc')]; [exact Hr |].
           exact (proj2 (nasals_old c' y Hc')).
    + apply N.eqb_neq in Ha.
      rewrite (@nasalize_skip _ _ a _ Ha), IH1. reflexivity.
Qed.

End OneMoreRule.

Lemma joins_sound (rs : list rule) (r : rule) :
  joins rs r = true ->
  existsb (N.eqb ANUSVARA) (consonants r) = false
  /\ class_nasal rs ANUSVARA = None
  /\ (forall c n, class_nasal rs c = Some n ->
                  N.eqb n ANUSVARA = false
                  /\ existsb (N.eqb n) (consonants r) = false).
Proof.
  unfold joins. intros H. apply andb_true_iff in H. destruct H as [H1 H2].
  apply negb_true_iff in H1. rewrite forallb_forall in H2.
  split; [exact H1 |]. split.
  - destruct (class_nasal rs ANUSVARA) as [n |] eqn:E; [exfalso | reflexivity].
    apply class_nasal_rule in E. destruct E as (r' & Hin & Hc & _).
    specialize (H2 r' Hin). rewrite Hc in H2. discriminate.
  - intros c n E. apply class_nasal_rule in E.
    destruct E as (r' & Hin & _ & ->). specialize (H2 r' Hin).
    apply andb_true_iff in H2. destruct H2 as [H2 H3].
    apply andb_true_iff in H2. destruct H2 as [_ H2].
    apply negb_true_iff in H2, H3. auto.
Qed.

Lemma apply_rules_homorganic (todo : list rule) :
  forall (done : list rule) (text : str),
    chain done todo = true ->
    apply_rules todo (homorganic done text) = homorganic (done ++ todo) text.
Proof.
  induction todo as [| r todo IH]; intros done text H.
  - rewrite app_nil_r. reflexivity.
  - cbn [chain] in H. apply andb_true_iff in H. destruct H as [Hj Hc].
    destruct (joins_sound done r Hj) as (H1 & H2 & H3).
    unfold apply_rules. cbn [fold_left]. rewrite apply_rule_nasalize.
    rewrite (nasalize_homorganic done r H1 H2 H3 text).
    change (fold_left apply_rule todo (homorganic (done ++ [r]) text))
      with (apply_rules todo (homorganic (done ++ [r]) text)).
    rewrite (IH (done ++ [r]) text Hc), <- app_assoc. reflexivity.
Qed.

Lemma normalize_text_homorganic (text : str) :
  normalize_text text = homorganic mappings text.
Proof.
  unfold normalize_text. rewrite <- (homorganic_no_rule text) at 1.
  exact (apply_rules_homorganic mappings [] text eq_refl).
Qed.

(** X18. The five substitutions, one after the other, are one pass over the
    text: every anusvara that stands before a consonant of one of the five
    classes becomes the nasal of that class and a virama, and nothing else
    changes; no substitution works on the result of another. *)
Theorem normalize_text_single_pass (text : str) :
  normalize_text text = homorganic mappings text.
Proof. exact (normalize_text_homorganic text). Qed.

Lemma clusters_skip (rs : list rule) (a : char) (s : str) :
  N.eqb a ANUSVARA = false -> clusters rs (a :: s) = clusters rs s.
Proof.
  intros Ha. destruct s as [| c s]; [reflexivity |].
  change (clusters rs (a :: c :: s))
    with ((if N.eqb a ANUSVARA
           then match class_nasal rs c with
                | Some _ => 1
                | None => 0
                end
           else 0) + clusters rs (c :: s))%nat.
  rewrite Ha. reflexivity.
Qed.

Lemma homorganic_length (rs : list rule) (s : str) :
  class_nasal rs ANUSVARA = None ->
  List.length (homorganic rs s) = (List.length s + clusters rs s)%nat.
Proof.
  intros Hrs. remember (List.length s) as len eqn:Hlen.
  assert (Hle : (List.length s <= len)%nat) by lia.
  rewrite Hlen. clear Hlen.
  revert s Hle. induction len as [| len IH]; intros s Hle.
  - destruct s; [reflexivity | cbn in Hle; lia].
  - destruct s as [| a [| c s2]]; [reflexivity | reflexivity |].
    assert (IH2 := IH s2 ltac:(cbn [List.length] in *; lia)).
    assert (IH1 := IH (c :: s2) ltac:(cbn [List.length] in *; lia)).
    rewrite homorganic_pair.
    change (clusters rs (a :: c :: s2))
      with ((if N.eqb a ANUSVARA
             then match class_nasal rs c with
                  | Some _ => 1
                  | None => 0
                  end
             else 0) + clusters rs (c :: s2))%nat.
    destruct (N.eqb a ANUSVARA).
    + destruct (class_nasal rs c) as [n |] eqn:Ec.
      * assert (Hc : N.eqb c ANUSVARA = false).
        { apply N.eqb_neq. intros ->. congruence. }
        rewrite (clusters_skip rs c s2 Hc).
        cbn [List.length]. rewrite IH2. lia.
      * cbn [List.length] in *. rewrite IH1. lia.
    + cbn [List.length] in *. rewrite IH1. lia.
Qed.

Lemma homorganic_fixed (rs : list rule) (s : str) :
  clusters rs s = 0%nat -> homorganic rs s = s.
Proof.
  induction s as [| a s1 IH]; [reflexivity |].
  destruct s1 as [| c s2]; [reflexivity |].
  change (clusters rs (a :: c :: s2))
    with ((if N.eqb a ANUSVARA
           then match class_nasal rs c with
                | Some _ => 1
                | None => 0
                end
           else 0) + clusters rs (c :: s2))%nat.
  intros H. rewrite homorganic_pair.
  destruct (N.eqb a ANUSVARA).
  - destruct (class_nasal rs c); [lia |]. rewrite IH by lia. reflexivity.
  - rewrite IH by lia. reflexivity.
Qed.

(** X19. The result is longer than the text by one character for every
    anusvara that stands before a consonant of one of the five classes. *)
Theorem normalize_text_length (text : str) :
  List.length (normalize_text text)
  = (List.length text + clusters mappings text)%nat.
Proof.
  rewrite normalize_text_homorganic. apply homorganic_length. reflexivity.
Qed.

(** X20. A text is left as it is exactly when no anusvara in it stands
    before a consonant of one of the five classes. *)
Theorem normalize_text_unchanged (text : str) :
  normalize_text text = text <-> clusters mappings text = 0%nat.
Proof.
  rewrite normalize_text_homorganic. split.
  - intros H. apply (f_equal (@List.length char)) in H.
    rewrite homorganic_length in H by reflexivity. lia.
  - apply homorganic_fixed.
Qed.

Lemma no_double_tail (a : char) (s : str) :
  no_double_anusvara (a :: s) = true -> no_double_anusvara s = true.
Proof.
  destruct s as [| c s]; [reflexivity |].
  change (no_double_anusvara (a :: c :: s))
    with (negb (N.eqb a ANUSVARA && N.eqb c ANUSVARA)
          && no_double_anusvara (c :: s)).
  intros H. apply andb_true_iff in H. tauto.
Qed.

Lemma homorganic_twice (rs : list rule) (s : str) :
  class_nasal rs ANUSVARA = None ->
  (forall c n, class_nasal rs c = Some n -> N.eqb n ANUSVARA = false) ->
  no_double_anusvara s = true ->
  homorganic rs (homorganic rs s) = homorganic rs s.
Proof.
  intros Hrs Hn. remember (List.length s) as len eqn:Hlen.
  assert (Hle : (List.length s <= len)%nat) by lia. clear Hlen.
  revert s Hle. induction len as [| len IH]; intros s Hle Hs.
  - destruct s; [reflexivity | cbn in Hle; lia].
  - destruct s as [| a [| c s2]]; [reflexivity | reflexivity |].
    pose proof (no_double_tail a (c :: s2) Hs) as Hs1.
    pose proof (no_double_tail c s2 Hs1) as Hs2.
    assert (IH2 := IH s2 ltac:(cbn [List.length] in *; lia) Hs2).
    assert (IH1 := IH (c :: s2) ltac:(cbn [List.length] in *; lia) Hs1).
    change (no_double_anusvara (a :: c :: s2))
      with (negb (N.eqb a ANUSVARA && N.eqb c ANUSVARA)
            && no_double_anusvara (c :: s2)) in Hs.
    apply andb_true_iff in Hs. destruct Hs as [Hac _].
    apply negb_true_iff in Hac.
    rewrite homorganic_pair.
    destruct (N.eqb a ANUSVARA) eqn:Ha.
    + cbn [andb] in Hac.
      destruct (class_nasal rs c) as [n |] eqn:Ec.
      * rewrite (homorganic_skip rs n _ (Hn c n Ec)),
          (homorganic_skip rs VIRAMA _ eq_refl),
          (homorganic_skip rs c _ Hac), IH2.
        reflexivity.
      * rewrite (homorganic_skip rs c s2 Hac), homorganic_pair, Ha, Ec.
        rewrite (homorganic_skip rs c _ Hac), IH2. reflexivity.
    + rewrite (homorganic_skip rs a _ Ha), IH1. reflexivity.
Qed.

(** X21. On a text in which no anusvara stands before another, a second
    run changes nothing. *)
Theorem normalize_text_idempotent (text : str) :
  no_double_anusvara text = true ->
  normalize_text (normalize_text text) = normalize_text text.
Proof.
  intros H. rewrite !normalize_text_homorganic.
  apply homorganic_twice; [reflexivity | | exact H].
  intros c n E. apply class_nasal_rule in E.
  destruct E as (r & Hin & _ & ->).
  unfold mappings in Hin. cbn [In] in Hin.
  repeat destruct Hin as [<- | Hin]; try reflexivity. destruct Hin.
Qed.

Lemma normalize_text_idempotent_witness :
  no_double_anusvara [0x915; 0x902; 0x92A; 0x902; 0x92D; 0x902]%N = true
  /\ normalize_text
       (normalize_text [0x915; 0x902; 0x92A; 0x902; 0x92D; 0x902]%N)
     = normalize_text [0x915; 0x902; 0x92A; 0x902; 0x92D; 0x902]%N.
Proof.
  assert (H : no_double_anusvara
                [0x915; 0x902; 0x92A; 0x902; 0x92D; 0x902]%N = true)
    by reflexivity.
  split; [exact H |].
  exact (normalize_text_idempotent _ H).
Defined.

(** ** The year-range reader *)

Lemma two_digits (c d : char) :
  isdecimal c = true -> isdecimal d = true ->
  exists n, int [c; d] = Ret n /\ (0 <= n < 100)%Z.
Proof.
  unfold isdecimal, int. cbn [int_digits].
  destruct (digit_value c) as [vc |] eqn:Hc; [| discriminate].
  destruct (digit_value d) as [vd |] eqn:Hd; [| discriminate]. intros _ _.
  apply digit_value_bound in Hc, Hd. eexists. split; [reflexivity | lia].
Qed.

Lemma year_range_pattern_on (a b c d e f : char) (rest : str) :
  forallb isdecimal [a; b; c; d; e; f] = true ->
  re_match false year_range_pattern
           (a :: b :: c :: d :: HYPHEN :: e :: f :: rest)
  = Some {| group0 := [a; b; c; d; HYPHEN; e; f];
            captures := [(2%nat, [e; f]); (1%nat, [a; b; c; d])] |}.
Proof.
  intros H. cbn [forallb] in H.
  repeat (apply andb_true_iff in H; destruct H as [? H]).
  unfold re_match, year_range_pattern. cbn [run rep atom_ok].
  repeat match goal with
         | E : isdecimal ?x = true |- _ => rewrite E; clear E
         end.
  change (lit_ok false HYPHEN HYPHEN) with true. cbv iota.
  pose proof (firstn_consumed [a; b; c; d; HYPHEN; e; f] rest) as E0.
  pose proof (firstn_consumed [a; b; c; d] (HYPHEN :: e :: f :: rest)) as E1.
  pose proof (firstn_consumed [e; f] rest) as E2.
  cbn [app] in E0, E1, E2. rewrite E0, E1, E2. reflexivity.
Qed.

(** X22. On a match of its pattern the year-range reader returns, and it
    reads the last two digits of the full year only: the result is
    "twenty <their word>-twenty <the word of the short year>", whatever the
    first two digits are. *)
Theorem process_year_range_reads (a b c d e f : char) (rest : str) :
  forallb isdecimal [a; b; c; d; e; f] = true ->
  exists m n1 n2 w1 w2,
    re_match false year_range_pattern
             (a :: b :: c :: d :: HYPHEN :: e :: f :: rest) = Some m
    /\ int [c; d] = Ret n1 /\ subscript number_lookup n1 = Ret w1
    /\ int [e; f] = Ret n2 /\ subscript number_lookup n2 = Ret w2
    /\ _process_year_range m
       = Ret (u "twenty " ++ w1 ++ u "-twenty " ++ w2).
Proof.
  intros H. pose proof (year_range_pattern_on a b c d e f rest H) as Hm.
  cbn [forallb] in H.
  repeat (apply andb_true_iff in H; destruct H as [? H]).
  destruct (two_digits c d) as (n1 & Hn1 & Hr1); try assumption.
  destruct (two_digits e f) as (n2 & Hn2 & Hr2); try assumption.
  destruct (number_lookup_inside n1 Hr1) as (w1 & Hw1).
  destruct (number_lookup_inside n2 Hr2) as (w2 & Hw2).
  eexists. exists n1, n2, w1, w2.
  split; [exact Hm |]. repeat (split; [assumption |]).
  unfold _process_year_range.
  change (group_str {| group0 := [a; b; c; d; HYPHEN; e; f];
                       captures := [(2%nat, [e; f]); (1%nat, [a; b; c; d])] |}
                    1) with [a; b; c; d].
  change (group_str {| group0 := [a; b; c; d; HYPHEN; e; f];
                       captures := [(2%nat, [e; f]); (1%nat, [a; b; c; d])] |}
                    2) with [e; f].
  cbn [skipn]. rewrite Hn1. cbn [bind]. rewrite Hw1. cbn [bind].
  rewrite Hn2. cbn [bind]. rewrite Hw2. cbn [bind].
  rewrite <- !app_assoc. reflexivity.
Qed.

Lemma process_year_range_reads_witness :
  forallb isdecimal (u "199900") = true
  /\ exists m n1 n2 w1 w2,
       re_match false year_range_pattern (u "1999-00 season") = Some m
       /\ int (u "99") = Ret n1 /\ subscript number_lookup n1 = Ret w1
       /\ int (u "00") = Ret n2 /\ subscript number_lookup n2 = Ret w2
       /\ _process_year_range m
          = Ret (u "twenty " ++ w1 ++ u "-twenty " ++ w2).
Proof.
  assert (H : forallb isdecimal (u "199900") = true) by reflexivity.
  split; [exact H |].
  exact (process_year_range_reads 0x31%N 0x39%N 0x39%N 0x39%N 0x30%N 0x30%N
           (u " season") H).
Defined.

(** ** Two numbers with a hyphen between them *)

Lemma scan_from_skip (ic : bool) (r : regex) (w : str) (c : char) (rest : str) :
  scan_from ic r (w ++ c :: rest) (List.length w)
  = scan_from ic r (c :: rest) 0.
Proof.
  induction w as [| x w IH]; [reflexivity |].
  cbn [app List.length]. exact IH.
Qed.

Lemma phrase_cat (a b : str) : phrase a -> phrase b -> phrase (a ++ b).
Proof.
  intros (wa & Ha & Fa & ->) (wb & Hb & Fb & ->).
  destruct wb as [| w wb]; [congruence |].
  inversion Fb as [| ? ? Hw Fb']; subst.
  induction wa as [| x wa IH]; [congruence |].
  inversion Fa as [| ? ? Hx Fa']; subst.
  assert (Hxw : word (x ++ w)).
  { destruct Hx as [Hx1 Hx2]. destruct Hw as [Hw1 Hw2]. split.
    - destruct x; [congruence | discriminate].
    - rewrite existsb_app, Hx2, Hw2. reflexivity. }
  destruct wa as [| x2 wa].
  - exists ((x ++ w) :: wb). split; [discriminate |].
    split; [constructor; assumption |].
    destruct wb as [| w2 wb]; [reflexivity |].
    rewrite !join_cons2. cbn [join]. rewrite <- app_assoc. reflexivity.
  - destruct (IH ltac:(discriminate) Fa') as (ws & Hne & Fw & E).
    exists (x :: ws). split; [discriminate |].
    split; [constructor; assumption |].
    destruct ws as [| y ws]; [congruence |].
    rewrite !join_cons2, <- E, <- !app_assoc. reflexivity.
Qed.

Lemma phrase_glue (a : str) (c : char) (b : str) :
  phrase a -> isspace c = false -> phrase b -> phrase (a ++ c :: b).
Proof.
  intros Ha Hc Hb. change (a ++ c :: b) with (a ++ [c] ++ b).
  rewrite app_assoc. apply phrase_cat; [apply phrase_snoc |]; assumption.
Qed.

(** Before a hyphen the numeral pattern takes the run of digits and no
    more. *)
Lemma pattern_before_hyphen (d : char) (ds rest : str) :
  isdecimal d = true -> forallb isdecimal ds = true ->
  re_match false pattern ((d :: ds) ++ HYPHEN :: rest)
  = Some {| group0 := d :: ds; captures := [] |}.
Proof.
  intros Hd Hds. unfold re_match, pattern. rewrite !run_alt.
  change ((d :: ds) ++ HYPHEN :: rest) with (d :: ds ++ HYPHEN :: rest) at 1.
  rewrite (digit_no_currency d _ [] rmatch _ Hd).
  match goal with
  | |- match ?a with _ => _ end = _ =>
      replace a with (Some {| group0 := d :: ds; captures := [] |});
      [reflexivity |]
  end.
  symmetry. rewrite run_cat.
  apply number_re_takes_digits; [exact Hd | exact Hds | split; reflexivity |].
  cbn [run star]. change (atom_ok false Space HYPHEN) with false. cbv iota.
  replace (run false era_re (HYPHEN :: rest) []
             (fun (s1 : str) (g1 : groups) =>
                Some {| group0 :=
                          firstn (List.length ((d :: ds) ++ HYPHEN :: rest)
                                  - List.length s1)
                                 ((d :: ds) ++ HYPHEN :: rest);
                        captures := g1 |}))
    with (@None rmatch).
  - rewrite firstn_consumed. reflexivity.
  - symmetry. apply run_first_fail; [reflexivity |].
    intros a Ha. revert a Ha. apply Forall_forall.
    repeat constructor.
Qed.

Lemma pattern_at_hyphen (s : str) : re_match false pattern (HYPHEN :: s) = None.
Proof.
  unfold re_match. apply run_first_fail; [reflexivity |].
  intros a Ha. revert a Ha. apply Forall_forall. repeat constructor.
Qed.

Lemma hyphen_text (fuel : nat) (ds1 ds2 : str) (n1 n2 : Z) :
  int ds1 = Ret n1 -> int ds2 = Ret n2 ->
  process_text (S fuel) (ds1 ++ HYPHEN :: ds2)
  = (w1 <- _process_number n1 ;;
     w2 <- _process_number n2 ;;
     Ret (w1 ++ HYPHEN :: w2)).
Proof.
  intros Hint1 Hint2.
  pose proof (int_returns ds1 n1 Hint1) as [Hne1 Hds1].
  pose proof (int_returns ds2 n2 Hint2) as [Hne2 Hds2].
  change (process_text (S fuel) (ds1 ++ HYPHEN :: ds2))
    with (process_text_body (process_text fuel) (ds1 ++ HYPHEN :: ds2)).
  rewrite later_passes_eq, letter_pass_no_letter.
  2:{ apply Forall_app. split; [exact (not_letters _ _ digit_not_letter Hds1) |].
      constructor; [| exact (not_letters _ _ digit_not_letter Hds2)].
      unfold letterish, HYPHEN. intros H. lia. }
  cbn [bind]. unfold later_passes.
  rewrite (re_sub_needs false (Lit PERCENT) percent_pattern _ _ eq_refl).
  2:{ rewrite existsb_app. cbn [existsb].
      rewrite (no_literal PERCENT isdecimal ds1 eq_refl Hds1),
        (no_literal PERCENT isdecimal ds2 eq_refl Hds2). reflexivity. }
  cbn [bind].
  rewrite symbol_loop_safe_text.
  2:{ apply Forall_app. split.
      - apply Forall_forall. intros c Hc. apply digit_safe.
        rewrite forallb_forall in Hds1. exact (Hds1 c Hc).
      - constructor; [reflexivity |].
        apply Forall_forall. intros c Hc. apply digit_safe.
        rewrite forallb_forall in Hds2. exact (Hds2 c Hc). }
  unfold re_sub, scan.
  destruct ds1 as [| d1 r1]; [congruence |].
  destruct ds2 as [| d2 r2]; [congruence |].
  pose proof Hds1 as Hall1. pose proof Hds2 as Hall2.
  cbn [forallb] in Hds1, Hds2.
  apply andb_true_iff in Hds1. destruct Hds1 as [Hd1 Hr1].
  apply andb_true_iff in Hds2. destruct Hds2 as [Hd2 Hr2].
  change ((d1 :: r1) ++ HYPHEN :: d2 :: r2)
    with (d1 :: r1 ++ HYPHEN :: d2 :: r2).
  rewrite scan_from_cons.
  change (d1 :: r1 ++ HYPHEN :: d2 :: r2)
    with ((d1 :: r1) ++ HYPHEN :: d2 :: r2).
  rewrite (pattern_before_hyphen d1 r1 (d2 :: r2) Hd1 Hr1).
  cbn [group0 List.length].
  rewrite scan_from_skip, scan_from_cons, pattern_at_hyphen.
  change (scan_from false pattern (d2 :: r2) 0)
    with (scan false pattern (d2 :: r2)).
  rewrite (scan_whole false pattern d2 r2 _
             (pattern_on_digits d2 r2 Hd2 Hr2) eq_refl eq_refl).
  cbn [fill].
  rewrite (process_match_digits _ (d1 :: r1) n1 [] Hint1),
    (process_match_digits _ (d2 :: r2) n2 [] Hint2).
  destruct (_process_number n1) as [w1 | e1 |] eqn:Hw1; cbn [bind];
    try reflexivity.
  destruct (_process_number n2) as [w2 | e2 |] eqn:Hw2; cbn [bind];
    try reflexivity.
  rewrite app_nil_r.
  pose proof (process_number_phrase n1 w1 (int_nonneg _ n1 Hint1) Hw1) as Hp1.
  pose proof (process_number_phrase n2 w2 (int_nonneg _ n2 Hint2) Hw2) as Hp2.
  fold SPACE.
  rewrite (phrase_collapse _ (phrase_glue w1 HYPHEN w2 Hp1 eq_refl Hp2)).
  reflexivity.
Qed.

(** X23. Two runs of digits with a hyphen between them are read as two
    numbers and the hyphen is kept.  This holds for a run of four digits
    and a run of two as well: the numeral pattern takes the first run
    before its year-range alternative is tried, and the reading
    "twenty ...-twenty ..." is never given. *)
Theorem process_text_reads_hyphenated (fuel : nat) (ds1 ds2 : str)
        (n1 n2 : Z) :
  int ds1 = Ret n1 ->
  int ds2 = Ret n2 ->
  process_text (S fuel) (ds1 ++ u "-" ++ ds2)
  = (w1 <- _process_number n1 ;;
     w2 <- _process_number n2 ;;
     Ret (w1 ++ u "-" ++ w2)).
Proof. exact (hyphen_text fuel ds1 ds2 n1 n2). Qed.

Lemma process_text_reads_hyphenated_witness :
  int (u "1999") = Ret 1999%Z
  /\ int (u "00") = Ret 0%Z
  /\ process_text 1 (u "1999-00")
     = Ret (u "one thousand, nine hundred, ninety-nine-zero").
Proof.
  assert (H1 : int (u "1999") = Ret 1999%Z) by reflexivity.
  assert (H2 : int (u "00") = Ret 0%Z) by reflexivity.
  split; [exact H1 | split; [exact H2 |]].
  exact (process_text_reads_hyphenated 0 _ _ _ _ H1 H2).
Defined.

(** ** Years with an era *)

Lemma era_facts (taken left : str) :
  In (taken, left) era_readings ->
  existsb (atom_ok false (Lit HYPHEN)) taken = false
  /\ existsb (atom_ok false (Lit PERCENT)) (taken ++ left) = false
  /\ Forall safe (taken ++ left)
  /\ Forall letterish (taken ++ left)
  /\ word taken
  /\ word (taken ++ left)
  /\ scan_from false pattern left 0 = map Keep left
  /\ match taken with
     | c :: _ => isdecimal c = false /\ N.eqb c DOT = false
                 /\ isspace c = false
     | [] => False
     end.
Proof.
  unfold era_readings. cbn [In].
  intros [E | [E | [E | [E | []]]]]; injection E as <- <-;
    (split; [reflexivity |]); (split; [reflexivity |]);
    (split; [repeat constructor |]);
    (split; [repeat constructor; unfold letterish; cbn; lia |]);
    (split; [split; [discriminate | reflexivity] |]);
    (split; [split; [discriminate | reflexivity] |]);
    (split; [reflexivity |]); repeat split; reflexivity.
Qed.

Lemma era_re_takes (R : Type) (taken left rest : str) (g : groups)
      (k : str -> groups -> option R) (x : R) :
  In (taken, left) era_readings -> k rest g = Some x ->
  run false era_re (taken ++ rest) g k = Some x.
Proof.
  unfold era_readings. cbn [In].
  intros [E | [E | [E | [E | []]]]] Hk; injection E as <- <-;
    unfold era_re; cbn; rewrite Hk; reflexivity.
Qed.

Lemma era_re_takes_all (R : Type) (taken left : str) (g : groups)
      (k : str -> groups -> option R) (x : R) :
  In (taken, left) era_readings -> k [] g = Some x ->
  run false era_re taken g k = Some x.
Proof.
  intros Hin Hk. pose proof (era_re_takes R taken left [] g k x Hin Hk) as H.
  rewrite app_nil_r in H. exact H.
Qed.

(** What follows the run of digits: white space and the era. *)
Lemma after_digits (sp taken rest : str) :
  forallb isspace sp = true ->
  match taken with
  | c :: _ => isdecimal c = false /\ N.eqb c DOT = false /\ isspace c = false
  | [] => False
  end ->
  match sp ++ taken ++ rest with
  | c :: _ => isdecimal c = false /\ N.eqb c DOT = false
  | [] => True
  end.
Proof.
  intros Hsp Ht. destruct sp as [| c sp]; cbn [app].
  - destruct taken as [| c t]; [destruct Ht |]. cbn [app]. tauto.
  - cbn [forallb] in Hsp. apply andb_true_iff in Hsp. destruct Hsp as [Hc _].
    split; [exact (space_not_digit c Hc) |].
    apply N.eqb_neq. intros ->. discriminate.
Qed.

Lemma era_not_space (taken rest : str) :
  match taken with
  | c :: _ => isdecimal c = false /\ N.eqb c DOT = false /\ isspace c = false
  | [] => False
  end ->
  match taken ++ rest with
  | c :: _ => isspace c = false
  | [] => True
  end.
Proof. destruct taken as [| c t]; [tauto |]. cbn [app]. tauto. Qed.

(** The numeral pattern takes a run of digits, white space and what the
    alternation reads of the era. *)
Lemma pattern_on_era (d : char) (ds sp taken left : str) :
  In (taken, left) era_readings ->
  isdecimal d = true -> forallb isdecimal ds = true ->
  forallb isspace sp = true ->
  re_match false pattern (((d :: ds) ++ sp ++ taken) ++ left)
  = Some {| group0 := (d :: ds) ++ sp ++ taken; captures := [] |}.
Proof.
  intros Hin Hd Hds Hsp.
  destruct (era_facts taken left Hin) as (_ & _ & _ & _ & _ & _ & _ & Hhead).
  unfold re_match, pattern. rewrite !run_alt.
  change (((d :: ds) ++ sp ++ taken) ++ left)
    with (d :: (ds ++ sp ++ taken) ++ left) at 1.
  rewrite (digit_no_currency d _ [] rmatch _ Hd).
  match goal with
  | |- match ?a with _ => _ end = _ =>
      replace a
        with (Some {| group0 := (d :: ds) ++ sp ++ taken; captures := [] |});
      [reflexivity |]
  end.
  symmetry. rewrite run_cat.
  rewrite <- (app_assoc (d :: ds) (sp ++ taken) left) at 1.
  rewrite <- (app_assoc sp taken left) at 1.
  apply number_re_takes_digits;
    [exact Hd | exact Hds | exact (after_digits sp taken left Hsp Hhead) |].
  cbn [run].
  match goal with
  | |- match ?a with _ => _ end = _ =>
      replace a
        with (Some {| group0 := (d :: ds) ++ sp ++ taken; captures := [] |});
      [reflexivity |]
  end.
  symmetry.
  apply star_exact; [exact Hsp | exact (era_not_space taken left Hhead) |].
  apply (era_re_takes rmatch taken left left _ _ _ Hin).
  rewrite firstn_consumed. reflexivity.
Qed.

(** The number pattern splits such a span into the run and the era. *)
Lemma num_pattern_on_era (d : char) (ds sp taken left : str) :
  In (taken, left) era_readings ->
  isdecimal d = true -> forallb isdecimal ds = true ->
  forallb isspace sp = true ->
  re_match false num_pattern ((d :: ds) ++ sp ++ taken)
  = Some {| group0 := (d :: ds) ++ sp ++ taken;
            captures := [(2%nat, taken); (1%nat, d :: ds)] |}.
Proof.
  intros Hin Hd Hds Hsp.
  destruct (era_facts taken left Hin) as (_ & _ & _ & _ & _ & _ & _ & Hhead).
  unfold re_match, num_pattern. rewrite run_cat, run_group.
  pose proof (after_digits sp taken [] Hsp Hhead) as Hafter.
  rewrite app_nil_r in Hafter.
  apply number_re_takes_digits; [exact Hd | exact Hds | exact Hafter |].
  rewrite run_cat. cbn [run].
  apply star_exact; [exact Hsp | |].
  { destruct taken as [| c t]; [exact I | tauto]. }
  match goal with
  | |- match ?a with _ => _ end = _ =>
      replace a
        with (Some {| group0 := (d :: ds) ++ sp ++ taken;
                      captures := [(2%nat, taken); (1%nat, d :: ds)] |});
      [reflexivity |]
  end.
  symmetry. apply (era_re_takes_all rmatch taken left _ _ _ Hin).
  rewrite !firstn_whole, firstn_prefix. reflexivity.
Qed.

Lemma digit_no_currency_pattern (d : char) (s : str) :
  isdecimal d = true -> re_match false currency_pattern (d :: s) = None.
Proof.
  intros Hd. unfold re_match. apply run_first_fail; [reflexivity |].
  intros a Ha.
  assert (Hall : forallb other_atom (first_atoms currency_pattern) = true)
    by reflexivity.
  rewrite forallb_forall in Hall.
  destruct (atom_ok false a d) eqn:E; [| reflexivity].
  pose proof (@other_atom_ok a d (Hall a Ha) E) as Hn.
  unfold numeral_char in Hn. rewrite Hd in Hn. discriminate.
Qed.

Lemma strip_phrase (p : str) : phrase p -> strip p = p.
Proof.
  intros (ws & Hne & F & ->). unfold strip.
  assert (Hnil : join SPACE ws <> []).
  { destruct ws as [| w1 ws]; [congruence |].
    inversion F as [| w' l Hw _]; subst.
    destruct (word_ends w1 Hw) as [(c & s & -> & _) _].
    destruct ws; discriminate. }
  destruct (join SPACE ws) as [| c s] eqn:E; [congruence |].
  pose proof (phrase_head ws c s F E) as Hc.
  destruct (exists_last (l := c :: s) ltac:(discriminate)) as (s' & c' & E').
  assert (Hc' : isspace c' = false)
    by (apply (phrase_last ws s' c' F); rewrite E; exact E').
  rewrite (lstrip_head c _ Hc), E', rev_app_distr.
  cbn [rev app]. rewrite (lstrip_head c' _ Hc').
  change (c' :: rev s') with ([c'] ++ rev s').
  rewrite rev_app_distr, rev_involutive. reflexivity.
Qed.

Lemma process_match_era (f : str -> outcome str) (d : char)
      (ds sp taken left : str) (n : Z) (g : groups) :
  In (taken, left) era_readings ->
  int (d :: ds) = Ret n ->
  forallb isspace sp = true ->
  process_match f {| group0 := (d :: ds) ++ sp ++ taken; captures := g |}
  = (w <- _process_number n ;; Ret (w ++ u " " ++ taken)).
Proof.
  intros Hin Hint Hsp.
  pose proof (int_returns (d :: ds) n Hint) as [_ Hall].
  pose proof Hall as Hds. cbn [forallb] in Hds.
  apply andb_true_iff in Hds. destruct Hds as [Hd Hds].
  destruct (era_facts taken left Hin) as (Hhy & _ & _ & _ & Hword & _).
  unfold process_match.
  change (group_str {| group0 := (d :: ds) ++ sp ++ taken; captures := g |} 0)
    with ((d :: ds) ++ sp ++ taken).
  rewrite (re_search_needs false (Lit HYPHEN) year_range_pattern _ eq_refl).
  2:{ rewrite !existsb_app, Hhy, (no_literal HYPHEN isspace sp eq_refl Hsp),
        (no_literal HYPHEN isdecimal (d :: ds) eq_refl Hall). reflexivity. }
  change ((d :: ds) ++ sp ++ taken) with (d :: ds ++ sp ++ taken) at 1.
  rewrite (digit_no_currency_pattern d _ Hd).
  change (d :: ds ++ sp ++ taken) with ((d :: ds) ++ sp ++ taken).
  rewrite (num_pattern_on_era d ds sp taken left Hin Hd Hds Hsp).
  change (group_str {| group0 := (d :: ds) ++ sp ++ taken;
                       captures := [(2%nat, taken); (1%nat, d :: ds)] |} 1)
    with (d :: ds).
  change (group_str {| group0 := (d :: ds) ++ sp ++ taken;
                       captures := [(2%nat, taken); (1%nat, d :: ds)] |} 2)
    with taken.
  rewrite (digits_no_point (d :: ds) Hall), Hint. cbn [bind].
  destruct (_process_number n) as [w | e |] eqn:Hw; cbn [bind];
    try reflexivity.
  pose proof (process_number_phrase n w (int_nonneg _ n Hint) Hw) as Hp.
  fold SPACE.
  rewrite (strip_phrase _ (phrase_app w taken Hp (phrase_word taken Hword))).
  reflexivity.
Qed.

(** The letter-prefix pattern finds nothing in a text whose letters all
    stand at its end. *)
Lemma letter_pass_trailing_letters (pre l : str) :
  Forall (fun c => ~ letterish c) pre -> Forall letterish l ->
  _process_letter_number_combination (pre ++ l) = Ret (pre ++ l).
Proof.
  intros Hpre Hl. unfold _process_letter_number_combination.
  apply (@re_sub_no_match true letter_pattern
           (fun s => exists p' l',
                       s = p' ++ l' /\ Forall (fun c => ~ letterish c) p'
                       /\ Forall letterish l')).
  - intros x s (p' & l' & E & Hp' & Hl').
    destruct p' as [| y p'']; cbn [app] in E.
    + destruct l' as [| y l'']; [discriminate |]. injection E as _ ->.
      exists [], l''. split; [reflexivity |].
      split; [constructor | inversion Hl'; assumption].
    + injection E as _ ->. exists p'', l'. split; [reflexivity |].
      split; [inversion Hp'; assumption | exact Hl'].
  - intros s (p' & l' & -> & Hp' & Hl').
    destruct (re_match true letter_pattern (p' ++ l')) as [m |] eqn:Hm;
      [exfalso | reflexivity].
    apply letter_match_shape in Hm.
    destruct Hm as (w & d & rest & E & Hne & Hw & Hd).
    destruct w as [| y w]; [congruence |].
    inversion Hw as [| ? ? Hy _]; subst.
    destruct p' as [| x p'']; cbn [app] in E.
    + assert (Hin : In d l').
      { rewrite E. right. apply in_or_app. right. left. reflexivity. }
      rewrite Forall_forall in Hl'.
      exact (digit_not_letter d Hd (Hl' d Hin)).
    + injection E as -> _. inversion Hp'; contradiction.
  - exists pre, l. auto.
Qed.

Lemma era_text (fuel : nat) (ds sp taken left : str) (n : Z) :
  In (taken, left) era_readings ->
  forallb isspace sp = true ->
  int ds = Ret n ->
  process_text (S fuel) (ds ++ sp ++ taken ++ left)
  = (w <- _process_number n ;; Ret (w ++ u " " ++ taken ++ left)).
Proof.
  intros Hin Hsp Hint. pose proof (int_returns ds n Hint) as [Hne Hds].
  destruct (era_facts taken left Hin)
    as (_ & Hpc & Hsafe & Hletters & _ & Hword & Hleft & _).
  change (process_text (S fuel) (ds ++ sp ++ taken ++ left))
    with (process_text_body (process_text fuel) (ds ++ sp ++ taken ++ left)).
  rewrite later_passes_eq.
  replace (ds ++ sp ++ taken ++ left) with ((ds ++ sp) ++ taken ++ left)
    by (rewrite <- app_assoc; reflexivity).
  rewrite letter_pass_trailing_letters.
  2:{ apply Forall_app. split.
      - exact (not_letters _ _ digit_not_letter Hds).
      - exact (not_letters _ _ space_not_letter Hsp). }
  2:{ exact Hletters. }
  cbn [bind]. unfold later_passes.
  rewrite (re_sub_needs false (Lit PERCENT) percent_pattern _ _ eq_refl).
  2:{ rewrite !existsb_app in *.
      rewrite (no_literal PERCENT isdecimal ds eq_refl Hds),
        (no_literal PERCENT isspace sp eq_refl Hsp).
      exact Hpc. }
  cbn [bind].
  rewrite symbol_loop_safe_text.
  2:{ rewrite !Forall_app in *. repeat split; try tauto.
      - apply Forall_forall. intros c Hc. apply digit_safe.
        rewrite forallb_forall in Hds. exact (Hds c Hc).
      - apply Forall_forall. intros c Hc. apply space_safe.
        rewrite forallb_forall in Hsp. exact (Hsp c Hc). }
  unfold re_sub, scan.
  destruct ds as [| d ds]; [congruence |].
  pose proof Hds as Hall.
  cbn [forallb] in Hds. apply andb_true_iff in Hds. destruct Hds as [Hd Hds].
  replace (((d :: ds) ++ sp) ++ taken ++ left)
    with (((d :: ds) ++ sp ++ taken) ++ left)
    by (rewrite <- !app_assoc; reflexivity).
  pose proof (pattern_on_era d ds sp taken left Hin Hd Hds Hsp) as Hpat.
  change (((d :: ds) ++ sp ++ taken) ++ left)
    with (d :: (ds ++ sp ++ taken) ++ left) in Hpat |- *.
  rewrite scan_from_cons, Hpat.
  cbn [group0 List.length app].
  replace (scan_from false pattern ((ds ++ sp ++ taken) ++ left)
             (List.length (ds ++ sp ++ taken)))
    with (scan_from false pattern left 0).
  2:{ destruct left as [| c left'].
      - rewrite app_nil_r,
          (scan_from_skip_all false pattern (ds ++ sp ++ taken)).
        destruct (ds ++ sp ++ taken); reflexivity.
      - rewrite scan_from_skip. reflexivity. }
  rewrite Hleft. cbn [fill].
  change (d :: ds ++ sp ++ taken) with ((d :: ds) ++ sp ++ taken).
  rewrite (process_match_era _ d ds sp taken left n [] Hin Hint Hsp).
  destruct (_process_number n) as [w | e |] eqn:Hw; cbn [bind];
    try reflexivity.
  rewrite fill_keep. cbn [bind].
  pose proof (process_number_phrase n w (int_nonneg _ n Hint) Hw) as Hp.
  replace ((w ++ u " " ++ taken) ++ left) with (w ++ SPACE ++ taken ++ left)
    by (rewrite <- !app_assoc; reflexivity).
  fold SPACE.
  rewrite (phrase_collapse _
             (phrase_app w (taken ++ left) Hp
                (phrase_word (taken ++ left) Hword))).
  reflexivity.
Qed.

(** X24. A run of digits, white space or none, and one of the eras AD, BC,
    CE and BCE read as the number in words, one space and the era.  Of BCE
    the pattern takes BC only, and the letter left over ends up behind it
    again. *)
Theorem process_text_reads_year_with_era (fuel : nat) (ds sp era : str)
        (n : Z) :
  In era [u "AD"; u "BC"; u "CE"; u "BCE"] ->
  forallb isspace sp = true ->
  int ds = Ret n ->
  process_text (S fuel) (ds ++ sp ++ era)
  = (w <- _process_number n ;; Ret (w ++ u " " ++ era)).
Proof.
  cbn [In]. intros [<- | [<- | [<- | [<- | []]]]] Hsp Hint.
  - apply (era_text fuel ds sp (u "AD") [] n); auto. left. reflexivity.
  - apply (era_text fuel ds sp (u "BC") [] n); auto.
    right. left. reflexivity.
  - apply (era_text fuel ds sp (u "CE") [] n); auto.
    right. right. left. reflexivity.
  - apply (era_text fuel ds sp (u "BC") (u "E") n); auto.
    right. right. right. left. reflexivity.
Qed.

Lemma process_text_reads_year_with_era_witness :
  In (u "BCE") [u "AD"; u "BC"; u "CE"; u "BCE"]
  /\ forallb isspace (u " ") = true
  /\ int (u "323") = Ret 323%Z
  /\ process_text 1 (u "323 BCE")
     = Ret (u "three hundred, twenty-three BCE").
Proof.
  assert (H1 : In (u "BCE") [u "AD"; u "BC"; u "CE"; u "BCE"]).
  { cbn [In]. do 3 right. left. reflexivity. }
  assert (H2 : forallb isspace (u " ") = true) by reflexivity.
  assert (H3 : int (u "323") = Ret 323%Z) by reflexivity.
  split; [exact H1 | split; [exact H2 | split; [exact H3 |]]].
  exact (process_text_reads_year_with_era 0 _ _ _ _ H1 H2 H3).
Defined.

(** ** The symbol pass, character by character *)

Lemma spell_in_other (table : dict str str) (c : char) :
  (forall k w, In (k, w) table -> In (k, w) symbols) ->
  generic_symbol c = false -> spell_in table c = [c].
Proof.
  intros Hsub Hc. unfold spell_in.
  destruct (find _ table) as [[k w] |] eqn:E; [exfalso | reflexivity].
  apply find_some in E. destruct E as [Hin E]. cbn [fst] in E.
  unfold generic_symbol in Hc.
  assert (H : existsb (fun kw : str * str =>
                         match fst kw with
                         | [k] => N.eqb c k && negb (N.eqb k PERCENT)
                         | _ => false
                         end) symbols = true).
  { apply existsb_exists. exists (k, w). split; [apply Hsub, Hin | exact E]. }
  congruence.
Qed.

Lemma flat_map_single (f : char -> str) (s : str) :
  (forall c, In c s -> f c = [c]) -> flat_map f s = s.
Proof.
  induction s as [| x s IH]; intros H; [reflexivity |].
  cbn [flat_map]. rewrite (H x (or_introl eq_refl)), IH; [reflexivity |].
  intros c Hc. apply H. right. exact Hc.
Qed.

Lemma flat_map_twice (f g : char -> str) (s : str) :
  flat_map g (flat_map f s) = flat_map (fun x => flat_map g (f x)) s.
Proof.
  induction s as [| x s IH]; [reflexivity |].
  cbn [flat_map]. rewrite flat_map_app, IH. reflexivity.
Qed.

(** The loop over the table is one substitution, character by character:
    the words written for the symbols hold no symbol of the table. *)
Lemma symbol_loop_spell (table : dict str str) :
  (forall k w, In (k, w) table ->
               (exists c, k = [c]) /\ forallb wordy w = true) ->
  (forall k w, In (k, w) table -> In (k, w) symbols) ->
  forall text, symbol_loop table text = flat_map (spell_in table) text.
Proof.
  induction table as [| [symbol w] table IH]; intros Htab Hsub text.
  - cbn [symbol_loop]. symmetry. apply flat_map_single. reflexivity.
  - destruct (Htab symbol w (or_introl eq_refl)) as [[k ->] Hw].
    assert (Htab' : forall k w, In (k, w) table ->
                                (exists c, k = [c]) /\ forallb wordy w = true)
      by (intros; apply Htab; right; assumption).
    assert (Hsub' : forall k w, In (k, w) table -> In (k, w) symbols)
      by (intros; apply Hsub; right; assumption).
    cbn [symbol_loop].
    assert (Hk : str_eqb [k] (u "%") = N.eqb k PERCENT).
    { cbn [str_eqb u map list_ascii_of_string]. apply andb_true_r. }
    rewrite Hk. destruct (N.eqb k PERCENT) eqn:Hp.
    + rewrite (IH Htab' Hsub'). apply flat_map_ext. intros c.
      unfold spell_in. cbn [find fst]. rewrite Hp, andb_false_r.
      reflexivity.
    + rewrite (IH Htab' Hsub'), replace_single, flat_map_twice.
      apply flat_map_ext. intros c.
      unfold spell_in at 2. cbn [find fst snd]. rewrite Hp, andb_true_r.
      rewrite (N.eqb_sym c k).
      destruct (N.eqb k c).
      * apply flat_map_single. intros x Hx.
        apply (spell_in_other table x Hsub'), wordy_not_symbol.
        assert (Hall : forallb wordy (u " " ++ w ++ u " ") = true)
          by (rewrite !forallb_app, Hw; reflexivity).
        rewrite forallb_forall in Hall. exact (Hall x Hx).
      * cbn [flat_map]. apply app_nil_r.
Qed.

Lemma symbols_spell (text : str) :
  symbol_loop symbols text = flat_map spell_symbol text.
Proof.
  apply symbol_loop_spell; [| auto]. intros k w Hin.
  assert (Hall : forallb (fun kw : str * str =>
                            match fst kw with
                            | [_] => forallb wordy (snd kw)
                            | _ => false
                            end) symbols = true) by reflexivity.
  rewrite forallb_forall in Hall. specialize (Hall _ Hin).
  cbn [fst snd] in Hall. destruct k as [| c [| c' k]]; try discriminate.
  split; [exists c; reflexivity | exact Hall].
Qed.

Lemma spell_symbol_nondigit (c : char) :
  isdecimal c = false -> existsb isdecimal (spell_symbol c) = false.
Proof.
  intros Hc. unfold spell_symbol, spell_in.
  destruct (find _ symbols) as [[k w] |] eqn:E.
  - apply find_some in E. destruct E as [Hin _].
    assert (Hall : forallb (fun kw : str * str =>
                              forallb wordy (u " " ++ snd kw ++ u " "))
                           symbols = true) by reflexivity.
    rewrite forallb_forall in Hall. specialize (Hall _ Hin).
    apply nondigit_existsb, wordy_all_nondigit. exact Hall.
  - cbn [existsb]. rewrite Hc. reflexivity.
Qed.

Lemma spelled_nondigit (t : str) :
  existsb isdecimal t = false ->
  existsb isdecimal (flat_map spell_symbol t) = false.
Proof.
  induction t as [| c t IH]; intros H; [reflexivity |].
  cbn [existsb] in H. apply orb_false_iff in H. destruct H as [Hc Ht].
  cbn [flat_map]. rewrite existsb_app, (spell_symbol_nondigit c Hc), (IH Ht).
  reflexivity.
Qed.

(** X25. On a text without a decimal digit [process_text] is the symbol
    pass and the white-space collapse: every symbol of the table but [%]
    becomes its word between spaces, character by character, and the
    words are joined by single spaces. *)
Theorem process_text_spells_symbols (fuel : nat) (t : str) :
  existsb isdecimal t = false ->
  process_text (S fuel) t
  = Ret (join (u " ") (split (flat_map spell_symbol t))).
Proof.
  intros Hd. cbn [process_text]. unfold process_text_body.
  unfold _process_letter_number_combination.
  rewrite re_sub_no_digit by (reflexivity || exact Hd). cbn [bind].
  rewrite re_sub_no_digit by (reflexivity || exact Hd). cbn [bind].
  rewrite symbols_spell.
  rewrite re_sub_no_digit by (reflexivity || exact (spelled_nondigit t Hd)).
  reflexivity.
Qed.

Lemma process_text_spells_symbols_witness :
  existsb isdecimal (u "A&B  made profit @ their store = a/b") = false
  /\ process_text 1 (u "A&B  made profit @ their store = a/b")
     = Ret (u "A and B made profit at their store equals a per b").
Proof.
  assert (H : existsb isdecimal (u "A&B  made profit @ their store = a/b")
              = false) by reflexivity.
  split; [exact H |].
  exact (process_text_spells_symbols 0 _ H).
Defined.

(** ** One letter before a number *)

Lemma letter_literal_on_digit (y d : char) :
  letter_atom (Lit y) = true -> isdecimal d = true -> lit_ok true y d = false.
Proof.
  intros Hy Hd. destruct (lit_ok true y d) eqn:E; [exfalso | reflexivity].
  exact (digit_not_letter d Hd (@letter_atom_ok (Lit y) d Hy E)).
Qed.

(** A key tried at a letter with a digit behind it either fails or takes
    the letter alone. *)
Lemma key_on_letter_digit (R : Type) (k : str) (c d : char) (ds : str)
      (g : groups) (K : str -> groups -> option R) :
  forallb (fun y => letter_atom (Lit y)) k = true -> k <> [] ->
  isdecimal d = true ->
  run true (lit_str k) (c :: d :: ds) g K = K (d :: ds) g
  \/ run true (lit_str k) (c :: d :: ds) g K = None.
Proof.
  intros Hk Hne Hd. destruct k as [| x [| y k']]; [congruence | |].
  - cbn [lit_str run atom_ok]. destruct (lit_ok true x c); auto.
  - cbn [forallb] in Hk. apply andb_true_iff in Hk. destruct Hk as [_ Hk].
    apply andb_true_iff in Hk. destruct Hk as [Hy _].
    right. change (lit_str (x :: y :: k'))
      with (Cat (Atom (Lit x)) (lit_str (y :: k'))).
    cbn [run atom_ok]. destruct (lit_ok true x c); [| reflexivity].
    destruct k' as [| z k'']; cbn [lit_str run atom_ok];
      rewrite (letter_literal_on_digit y d Hy Hd); reflexivity.
Qed.

Lemma keys_on_letter_digit (R : Type) (keys : list str) (c d : char)
      (ds : str) (g : groups) (K : str -> groups -> option R) :
  Forall (fun k => forallb (fun y => letter_atom (Lit y)) k = true /\ k <> [])
         keys ->
  keys <> [] ->
  isdecimal d = true ->
  run true (alt_of (map lit_str keys)) (c :: d :: ds) g K = K (d :: ds) g
  \/ run true (alt_of (map lit_str keys)) (c :: d :: ds) g K = None.
Proof.
  intros Hkeys Hne Hd. revert Hne.
  induction Hkeys as [| k keys [Hk Hkne] _ IH]; intros Hne;
    [exfalso; apply Hne; reflexivity |].
  destruct keys as [| k2 keys].
  - cbn [map alt_of]. exact (key_on_letter_digit R k c d ds g K Hk Hkne Hd).
  - change (alt_of (map lit_str (k :: k2 :: keys)))
      with (Alt (lit_str k) (alt_of (map lit_str (k2 :: keys)))).
    rewrite run_alt.
    destruct (key_on_letter_digit R k c d ds g K Hk Hkne Hd) as [-> | ->].
    + destruct (K (d :: ds) g) eqn:E; [left; reflexivity |].
      destruct (IH ltac:(discriminate)) as [H | H]; rewrite H; auto.
    + exact (IH ltac:(discriminate)).
Qed.

Lemma ascii_letter_range (c : char) :
  in_range 0x41%N 0x5A%N c || in_range 0x61%N 0x7A%N c = true ->
  atom_ok true (Range 0x41%N 0x5A%N) c = true.
Proof.
  unfold atom_ok, in_range, tolower, toupper. intros H. nbool.
Qed.

(** On an ASCII letter and a run of digits the pattern matches the whole,
    the letter in group 1. *)
Lemma letter_pattern_on_letter (c d : char) (ds : str) :
  in_range 0x41%N 0x5A%N c || in_range 0x61%N 0x7A%N c = true ->
  isdecimal d = true -> forallb isdecimal ds = true ->
  re_match true letter_pattern (c :: d :: ds)
  = Some {| group0 := c :: d :: ds;
            captures := [(3%nat, []); (2%nat, d :: ds); (1%nat, [c])] |}.
Proof.
  intros Hc Hd Hds. unfold re_match, letter_pattern.
  rewrite run_cat, run_group.
  match goal with
  | |- run true _ _ [] ?K0 = _ => set (K' := K0)
  end.
  assert (HK' : K' (d :: ds) []
                = Some {| group0 := c :: d :: ds;
                          captures := [(3%nat, []); (2%nat, d :: ds);
                                       (1%nat, [c])] |}).
  { unfold K'. cbv beta. unfold plus. rewrite run_cat, run_group, run_cat.
    cbn [run atom_ok]. rewrite Hd.
    apply star_all; [exact Hds |].
    cbn [run star]. rewrite !firstn_whole.
    pose proof (firstn_consumed [c] (d :: ds)) as E. cbn [app] in E.
    rewrite E. reflexivity. }
  clearbody K'. rewrite run_alt.
  assert (Hkeys : Forall (fun k => forallb (fun y => letter_atom (Lit y)) k
                                   = true /\ k <> [])
                         (map fst letter_prefixes)).
  { unfold letter_prefixes. cbn [map fst].
    repeat (constructor; [split; [reflexivity | discriminate] |]).
    constructor. }
  pose proof (keys_on_letter_digit rmatch (map fst letter_prefixes) c d ds []
                K' Hkeys ltac:(discriminate) Hd) as Halt.
  unfold prefix_pattern. rewrite <- (map_map fst lit_str).
  destruct Halt as [-> | ->].
  - rewrite HK'. reflexivity.
  - cbn [run]. rewrite (ascii_letter_range c Hc). exact HK'.
Qed.

Lemma one_letter_facts (c : char) :
  in_range 0x41%N 0x5A%N c || in_range 0x61%N 0x7A%N c = true ->
  word (get_default letter_prefixes [c] [c])
  /\ forallb wordy (get_default letter_prefixes [c] [c]) = true.
Proof.
  intros Hc.
  destruct (get_default_cases letter_prefixes [c] [c]) as [-> | Hin].
  - split.
    + split; [discriminate |]. cbn [existsb]. rewrite orb_false_r.
      revert Hc. unfold in_range, isspace. intros Hc. nbool.
    + cbn [forallb]. rewrite andb_true_r. unfold wordy.
      rewrite Hc. reflexivity.
  - destruct Hin as (k' & Hin).
    destruct (letter_prefix_facts _ _ Hin) as (_ & Hw & Hwy & _). auto.
Qed.

Lemma one_letter_text (fuel : nat) (c : char) (ds : str) (n : Z) :
  in_range 0x41%N 0x5A%N c || in_range 0x61%N 0x7A%N c = true ->
  int ds = Ret n ->
  process_text (S fuel) (c :: ds)
  = (w <- _process_number n ;;
     Ret (get_default letter_prefixes [c] [c] ++ u " " ++ w)).
Proof.
  intros Hc Hint. pose proof (int_returns ds n Hint) as [Hne Hds].
  destruct (one_letter_facts c Hc) as [Hword Hwordy].
  change (process_text (S fuel) (c :: ds))
    with (process_text_body (process_text fuel) (c :: ds)).
  rewrite later_passes_eq.
  unfold _process_letter_number_combination, re_sub.
  destruct ds as [| d ds]; [congruence |].
  cbn [forallb] in Hds. apply andb_true_iff in Hds. destruct Hds as [Hd Hds].
  rewrite (scan_whole true letter_pattern c (d :: ds) _
             (letter_pattern_on_letter c d ds Hc Hd Hds) eq_refl eq_refl).
  cbn [fill]. unfold replace_match.
  change (group_str {| group0 := c :: d :: ds;
                       captures := [(3%nat, []); (2%nat, d :: ds);
                                    (1%nat, [c])] |} 1) with [c].
  change (group_str {| group0 := c :: d :: ds;
                       captures := [(3%nat, []); (2%nat, d :: ds);
                                    (1%nat, [c])] |} 2) with (d :: ds).
  change (group_str {| group0 := c :: d :: ds;
                       captures := [(3%nat, []); (2%nat, d :: ds);
                                    (1%nat, [c])] |} 3) with (@nil char).
  cbv iota. rewrite Hint. cbn [bind].
  destruct (_process_number n) as [w | e |] eqn:Hw; cbn [bind];
    try reflexivity.
  rewrite app_nil_r.
  pose proof (process_number_phrase n w (int_nonneg _ n Hint) Hw) as Hp.
  assert (Hpw : phrase (get_default letter_prefixes [c] [c] ++ u " " ++ w))
    by exact (phrase_app _ w (phrase_word _ Hword) Hp).
  assert (Hww : forallb wordy
                  (get_default letter_prefixes [c] [c] ++ u " " ++ w) = true).
  { rewrite !forallb_app, Hwordy, (@process_number_wordy n w Hw).
    reflexivity. }
  exact (proj1 (wordy_phrase_passes _ _ Hww Hpw)).
Qed.

(** X26. One ASCII letter, of either case, and a run of digits read as the
    letter, a space and the number in words; the letter is replaced by an
    expansion only if the letter as written is a key of the prefix table,
    so [Q], [P] and [V] are expanded and [q], [p] and [v] are not. *)
Theorem process_text_reads_lettered_number (fuel : nat) (c : char) (ds : str)
        (n : Z) :
  in_range 0x41%N 0x5A%N c || in_range 0x61%N 0x7A%N c = true ->
  int ds = Ret n ->
  process_text (S fuel) (c :: ds)
  = (w <- _process_number n ;;
     Ret (get_default letter_prefixes [c] [c] ++ u " " ++ w)).
Proof. exact (one_letter_text fuel c ds n). Qed.

Lemma process_text_reads_lettered_number_witness :
  in_range 0x41%N 0x5A%N 0x71%N || in_range 0x61%N 0x7A%N 0x71%N = true
  /\ int (u "42") = Ret 42%Z
  /\ process_text 1 (u "q42") = Ret (u "q forty-two").
Proof.
  assert (H1 : in_range 0x41%N 0x5A%N 0x71%N || in_range 0x61%N 0x7A%N 0x71%N
               = true) by reflexivity.
  assert (H2 : int (u "42") = Ret 42%Z) by reflexivity.
  split; [exact H1 | split; [exact H2 |]].
  exact (process_text_reads_lettered_number 0 0x71%N _ _ H1 H2).
Defined.

(** ** No two numbers are read alike *)

Lemma number_lookup_plain (k : Z) (w : str) :
  subscript number_lookup k = Ret w ->
  w <> [] /\ ~ In 0x20%N w /\ ~ In 0x2C%N w.
Proof.
  unfold subscript.
  destruct (dict_find Z.eqb k number_lookup) as [v |] eqn:Hf; [| discriminate].
  intros [= <-]. apply dict_find_in in Hf. destruct Hf as (k' & Hin).
  assert (Hall : forallb (fun kv : Z * str =>
                            match snd kv with
                            | [] => false
                            | _ => negb (existsb (N.eqb 0x20%N) (snd kv))
                                   && negb (existsb (N.eqb 0x2C%N) (snd kv))
                            end) number_lookup = true) by reflexivity.
  rewrite forallb_forall in Hall. specialize (Hall _ Hin). cbn [snd] in Hall.
  destruct v as [| c v]; [discriminate |].
  apply andb_true_iff in Hall. destruct Hall as [H1 H2].
  apply negb_true_iff in H1, H2.
  split; [discriminate |]. split; intros Hc.
  - assert (E : existsb (N.eqb 0x20%N) (c :: v) = true)
      by (apply existsb_exists; exists 0x20%N; split; [exact Hc | reflexivity]).
    congruence.
  - assert (E : existsb (N.eqb 0x2C%N) (c :: v) = true)
      by (apply existsb_exists; exists 0x2C%N; split; [exact Hc | reflexivity]).
    congruence.
Qed.

(** A string is cut at the first occurrence of a separator in one way. *)
Lemma first_separator (x : char) (p q r1 r2 : str) :
  ~ In x p -> ~ In x q ->
  (r1 = [] \/ exists t, r1 = x :: t) ->
  (r2 = [] \/ exists t, r2 = x :: t) ->
  p ++ r1 = q ++ r2 -> p = q /\ r1 = r2.
Proof.
  revert q. induction p as [| a p IH]; intros q Hp Hq H1 H2 E.
  - destruct q as [| b q]; [split; [reflexivity | exact E] |].
    cbn [app] in E. exfalso.
    destruct H1 as [-> | (t & ->)]; [discriminate |].
    injection E as -> _. apply Hq. left. reflexivity.
  - destruct q as [| b q].
    + cbn [app] in E. exfalso.
      destruct H2 as [-> | (t & ->)]; [discriminate |].
      injection E as -> _. apply Hp. left. reflexivity.
    + cbn [app] in E. injection E as -> E.
      destruct (IH q) as [-> ->]; try assumption; [| | split; reflexivity].
      * intros H. apply Hp. right. exact H.
      * intros H. apply Hq. right. exact H.
Qed.

Lemma before_after_space (w s : str) :
  ~ In 0x20%N w ->
  before_space (w ++ 0x20%N :: s) = w /\ after_space (w ++ 0x20%N :: s) = s.
Proof.
  induction w as [| c w IH]; intros H; [split; reflexivity |].
  cbn [app before_space after_space].
  destruct (N.eqb_spec c 0x20%N) as [-> | Hc].
  - exfalso. apply H. left. reflexivity.
  - destruct IH as [-> ->]; [| split; reflexivity].
    intros Hin. apply H. right. exact Hin.
Qed.

Lemma before_after_none (w : str) :
  ~ In 0x20%N w -> before_space w = w /\ after_space w = [].
Proof.
  induction w as [| c w IH]; intros H; [split; reflexivity |].
  cbn [before_space after_space].
  destruct (N.eqb_spec c 0x20%N) as [-> | Hc].
  - exfalso. apply H. left. reflexivity.
  - destruct IH as [-> ->]; [| split; reflexivity].
    intros Hin. apply H. right. exact Hin.
Qed.

Lemma str_eqb_eq (a b : str) : str_eqb a b = true -> a = b.
Proof.
  revert b. induction a as [| x a IH]; intros [| y b] H; try discriminate;
    [reflexivity |].
  cbn [str_eqb] in H. apply andb_true_iff in H. destruct H as [H1 H2].
  apply N.eqb_eq in H1. rewrite H1, (IH b H2). reflexivity.
Qed.

(** What a segment and the leftover hold, through [count_word]. *)
Lemma segment_count_word (k : Z) (scale : str) (ps : list str) :
  segment k scale = Ret ps ->
  ps = map (fun w : str => w ++ 0x20%N :: scale) (count_word k)
  /\ (count_word k = [] -> k = 0%Z)
  /\ Forall (fun w : str => w <> [] /\ ~ In 0x20%N w /\ ~ In 0x2C%N w)
            (count_word k).
Proof.
  unfold segment, count_word. destruct (Z.eqb_spec k 0) as [-> | Hk].
  - intros [= <-]. repeat split. constructor.
  - destruct (subscript number_lookup k) as [w | e |] eqn:E; try discriminate.
    cbn [bind]. intros [= <-]. split; [reflexivity |].
    split; [discriminate |].
    constructor; [exact (number_lookup_plain k w E) | constructor].
Qed.

Lemma leftover_count_word (k : Z) (ps : list str) :
  leftover k = Ret ps ->
  ps = count_word k
  /\ (count_word k = [] -> k = 0%Z)
  /\ Forall (fun w : str => w <> [] /\ ~ In 0x20%N w /\ ~ In 0x2C%N w)
            (count_word k).
Proof.
  unfold leftover, count_word. destruct (Z.eqb_spec k 0) as [-> | Hk].
  - intros [= <-]. repeat split. constructor.
  - destruct (subscript number_lookup k) as [w | e |] eqn:E; try discriminate.
    cbn [bind]. intros [= <-]. split; [reflexivity |].
    split; [discriminate |].
    constructor; [exact (number_lookup_plain k w E) | constructor].
Qed.

Lemma slot_app (t : str) (a b : list str) :
  slot t (a ++ b) = slot t a ++ slot t b.
Proof. unfold slot. rewrite filter_app, map_app. reflexivity. Qed.

Lemma slot_scaled (t scale : str) (ws : list str) :
  Forall (fun w : str => w <> [] /\ ~ In 0x20%N w /\ ~ In 0x2C%N w) ws ->
  slot t (map (fun w : str => w ++ 0x20%N :: scale) ws)
  = if str_eqb scale t then ws else [].
Proof.
  intros H. induction H as [| w ws (_ & Hw & _) _ IH].
  - destruct (str_eqb scale t); reflexivity.
  - destruct (before_after_space w scale Hw) as [Hb Ha].
    unfold slot in *. cbn [map filter]. rewrite Ha.
    destruct (str_eqb scale t); [| exact IH].
    cbn [map]. rewrite Hb, IH. reflexivity.
Qed.

Lemma slot_bare (t : str) (ws : list str) :
  Forall (fun w : str => w <> [] /\ ~ In 0x20%N w /\ ~ In 0x2C%N w) ws ->
  slot t ws = if str_eqb [] t then ws else [].
Proof.
  intros H. induction H as [| w ws (_ & Hw & _) _ IH].
  - destruct (str_eqb [] t); reflexivity.
  - destruct (before_after_none w Hw) as [Hb Ha].
    unfold slot in *. cbn [map filter]. rewrite Ha.
    destruct (str_eqb [] t); [| exact IH].
    cbn [map]. rewrite Hb, IH. reflexivity.
Qed.

Lemma count_word_same (i j : Z) :
  (count_word i = [] -> i = 0%Z) -> (count_word j = [] -> j = 0%Z) ->
  count_word i = count_word j -> i = j.
Proof.
  unfold count_word. intros Hi Hj E.
  destruct (Z.eqb_spec i 0) as [-> | Hi0].
  - symmetry. apply Hj. symmetry. exact E.
  - destruct (Z.eqb_spec j 0) as [-> | Hj0]; [apply Hi; exact E |].
    destruct (subscript number_lookup i) as [wi | |] eqn:Ei;
      try (exfalso; apply Hi0, Hi; reflexivity).
    destruct (subscript number_lookup j) as [wj | |] eqn:Ej;
      try (exfalso; apply Hj0, Hj; reflexivity).
    injection E as ->. exact (number_lookup_same_word i j wj Ei Ej).
Qed.

Lemma join_cons_tail (sep p : str) (ps : list str) :
  join sep (p :: ps)
  = p ++ match ps with
         | [] => []
         | _ => sep ++ join sep ps
         end.
Proof. destruct ps; [symmetry; apply app_nil_r | reflexivity]. Qed.

(** Parts without a comma are found again in their join. *)
Lemma join_comma_parts (ps : list str) :
  forall qs,
    Forall (fun p : str => p <> [] /\ ~ In 0x2C%N p) ps ->
    Forall (fun p : str => p <> [] /\ ~ In 0x2C%N p) qs ->
    join (u ", ") ps = join (u ", ") qs -> ps = qs.
Proof.
  induction ps as [| p ps IH]; intros qs Hps Hqs E.
  - destruct qs as [| q qs]; [reflexivity | exfalso].
    inversion Hqs as [| ? ? [Hq _] _]; subst.
    rewrite join_cons_tail in E. destruct q; [congruence | discriminate].
  - inversion Hps as [| ? ? [Hp Hpc] Hps']; subst.
    destruct qs as [| q qs].
    + exfalso. rewrite join_cons_tail in E.
      destruct p; [congruence | discriminate].
    + inversion Hqs as [| ? ? [Hq Hqc] Hqs']; subst.
      rewrite !join_cons_tail in E.
      apply (first_separator 0x2C%N) in E; try assumption.
      * destruct E as [-> E]. f_equal.
        destruct ps as [| p2 ps], qs as [| q2 qs];
          [reflexivity | discriminate | discriminate |].
        apply (IH (q2 :: qs) Hps' Hqs').
        change (u ", ") with ([0x2C%N; 0x20%N]) in E. cbn [app] in E.
        injection E as E. exact E.
      * destruct ps; [left; reflexivity | right; eexists; reflexivity].
      * destruct qs; [left; reflexivity | right; eexists; reflexivity].
Qed.

Lemma scaled_parts_plain (scale : str) (ws : list str) :
  ~ In 0x2C%N scale ->
  Forall (fun w : str => w <> [] /\ ~ In 0x20%N w /\ ~ In 0x2C%N w) ws ->
  Forall (fun p : str => p <> [] /\ ~ In 0x2C%N p)
         (map (fun w : str => w ++ 0x20%N :: scale) ws).
Proof.
  intros Hs H. induction H as [| w ws (Hne & _ & Hc) _ IH]; [constructor |].
  cbn [map]. constructor; [| exact IH]. split.
  - destruct w; [congruence | discriminate].
  - intros Hin. apply in_app_or in Hin.
    destruct Hin as [Hin | [Hin | Hin]]; [exact (Hc Hin) | discriminate |].
    exact (Hs Hin).
Qed.

Lemma bare_parts_plain (ws : list str) :
  Forall (fun w : str => w <> [] /\ ~ In 0x20%N w /\ ~ In 0x2C%N w) ws ->
  Forall (fun p : str => p <> [] /\ ~ In 0x2C%N p) ws.
Proof. apply Forall_impl. tauto. Qed.

(** What a returned reading of a number other than zero is made of. *)
Lemma to_words_parts (n : Z) (s : str) :
  n <> 0%Z -> to_words n = Ret s ->
  s = join (u ", ") (reading_parts n)
  /\ Forall (fun p : str => p <> [] /\ ~ In 0x2C%N p) (reading_parts n)
  /\ (count_word (n / 10000000) = [] -> (n / 10000000 = 0)%Z)
  /\ (count_word (n mod 10000000 / 100000) = []
      -> (n mod 10000000 / 100000 = 0)%Z)
  /\ (count_word (n mod 100000 / 1000) = [] -> (n mod 100000 / 1000 = 0)%Z)
  /\ (count_word (n mod 1000 / 100) = [] -> (n mod 1000 / 100 = 0)%Z)
  /\ (count_word (n mod 100) = [] -> (n mod 100 = 0)%Z)
  /\ slot (u "crore") (reading_parts n) = count_word (n / 10000000)
  /\ slot (u "lakh") (reading_parts n) = count_word (n mod 10000000 / 100000)
  /\ slot (u "thousand") (reading_parts n) = count_word (n mod 100000 / 1000)
  /\ slot (u "hundred") (reading_parts n) = count_word (n mod 1000 / 100)
  /\ slot [] (reading_parts n) = count_word (n mod 100).
Proof.
  intros Hn. unfold to_words. destruct (Z.eqb_spec n 0) as [E | _]; [lia |].
  destruct (segment (n / 10000000) (u "crore")) as [c | |] eqn:Hc;
    try discriminate.
  destruct (segment (n mod 10000000 / 100000) (u "lakh")) as [l | |] eqn:Hl;
    try discriminate.
  destruct (segment (n mod 100000 / 1000) (u "thousand")) as [t | |] eqn:Ht;
    try discriminate.
  destruct (segment (n mod 1000 / 100) (u "hundred")) as [h | |] eqn:Hh;
    try discriminate.
  destruct (leftover (n mod 100)) as [r | |] eqn:Hr; try discriminate.
  cbn [bind]. intros [= <-].
  apply segment_count_word in Hc, Hl, Ht, Hh. apply leftover_count_word in Hr.
  destruct Hc as (-> & Zc & Pc). destruct Hl as (-> & Zl & Pl).
  destruct Ht as (-> & Zt & Pt). destruct Hh as (-> & Zh & Ph).
  destruct Hr as (-> & Zr & Pr).
  split; [reflexivity |]. split.
  { unfold reading_parts. rewrite !Forall_app.
    repeat split;
      try (apply scaled_parts_plain;
           [intros H; cbn in H; intuition discriminate | assumption]).
    exact (bare_parts_plain _ Pr). }
  repeat (split; [assumption |]).
  unfold reading_parts.
  repeat split; rewrite !slot_app, !slot_scaled, slot_bare by assumption;
    repeat match goal with
           | |- context [str_eqb ?a ?b] =>
               let v := eval vm_compute in (str_eqb a b) in
               change (str_eqb a b) with v
           end;
    cbv iota; rewrite ?app_nil_r; reflexivity.
Qed.

Lemma five_counts (n m : Z) :
  (n / 10000000 = m / 10000000)%Z ->
  (n mod 10000000 / 100000 = m mod 10000000 / 100000)%Z ->
  (n mod 100000 / 1000 = m mod 100000 / 1000)%Z ->
  (n mod 1000 / 100 = m mod 1000 / 100)%Z ->
  (n mod 100 = m mod 100)%Z ->
  n = m.
Proof.
  intros H1 H2 H3 H4 H5.
  assert (E : forall x : Z,
             x = (10000000 * (x / 10000000)
                  + (100000 * (x mod 10000000 / 100000)
                     + (1000 * (x mod 100000 / 1000)
                        + (100 * (x mod 1000 / 100) + x mod 100))))%Z).
  { intros x.
    pose proof (Z.div_mod x 10000000 ltac:(lia)) as E1.
    pose proof (Z.div_mod (x mod 10000000) 100000 ltac:(lia)) as E2.
    pose proof (Z.div_mod (x mod 100000) 1000 ltac:(lia)) as E3.
    pose proof (Z.div_mod (x mod 1000) 100 ltac:(lia)) as E4.
    rewrite (Z.mod_mod_divide x 10000000 100000) in E2
      by (exists 100%Z; reflexivity).
    rewrite (Z.mod_mod_divide x 100000 1000) in E3
      by (exists 100%Z; reflexivity).
    rewrite (Z.mod_mod_divide x 1000 100) in E4
      by (exists 10%Z; reflexivity).
    lia. }
  rewrite (E n), (E m), H1, H2, H3, H4, H5. reflexivity.
Qed.

Lemma to_words_same (n m : Z) (s : str) :
  n <> 0%Z -> m <> 0%Z ->
  to_words n = Ret s -> to_words m = Ret s -> n = m.
Proof.
  intros Hn Hm En Em.
  destruct (to_words_parts n s Hn En)
    as (Sn & Pn & Z1 & Z2 & Z3 & Z4 & Z5 & S1 & S2 & S3 & S4 & S5).
  destruct (to_words_parts m s Hm Em)
    as (Sm & Pm & Y1 & Y2 & Y3 & Y4 & Y5 & T1 & T2 & T3 & T4 & T5).
  assert (E : reading_parts n = reading_parts m).
  { apply join_comma_parts; [exact Pn | exact Pm |]. congruence. }
  rewrite E in S1, S2, S3, S4, S5.
  apply five_counts; apply count_word_same; try assumption; congruence.
Qed.

Lemma to_words_zero (m : Z) :
  m <> 0%Z -> to_words m <> Ret (u "zero").
Proof.
  intros Hm Em.
  destruct (to_words_parts m _ Hm Em)
    as (Sm & Pm & _ & _ & _ & _ & Y5 & _ & _ & _ & _ & T5).
  assert (E : [u "zero"] = reading_parts m).
  { apply join_comma_parts; [| exact Pm | exact Sm].
    constructor; [| constructor]. split; [discriminate |].
    cbn. intuition discriminate. }
  rewrite <- E in T5. change (slot [] [u "zero"]) with [u "zero"] in T5.
  unfold count_word in T5, Y5.
  destruct (Z.eqb_spec (m mod 100) 0) as [E0 | Hne]; [discriminate |].
  destruct (subscript number_lookup (m mod 100)) as [w | |] eqn:Ew;
    try discriminate.
  injection T5 as <-.
  exact (Hne (number_lookup_same_word (m mod 100) 0 (u "zero") Ew eq_refl)).
Qed.

Lemma process_number_same (n m : Z) (w : str) :
  (0 <= n)%Z -> (0 <= m)%Z ->
  _process_number n = Ret w -> _process_number m = Ret w -> n = m.
Proof.
  intros Hn Hm. rewrite !process_number_to_words by assumption.
  intros En Em.
  destruct (Z.eq_dec n 0) as [-> | Hn0], (Z.eq_dec m 0) as [-> | Hm0].
  - reflexivity.
  - exfalso. injection En as <-. exact (to_words_zero m Hm0 Em).
  - exfalso. injection Em as <-. exact (to_words_zero n Hn0 En).
  - exact (to_words_same n m w Hn0 Hm0 En Em).
Qed.

(** X27. No two numbers are read alike: two non-negative numbers that the
    cardinal converter gives the same words are the same number. *)
Theorem process_number_injective (n m : Z) (w : str) :
  (0 <= n)%Z -> (0 <= m)%Z ->
  _process_number n = Ret w -> _process_number m = Ret w -> n = m.
Proof. exact (process_number_same n m w). Qed.

Lemma process_number_injective_witness :
  (0 <= 120005)%Z /\ (0 <= 120005)%Z
  /\ _process_number 120005 = Ret (u "one lakh, twenty thousand, five")
  /\ _process_number 120005 = Ret (u "one lakh, twenty thousand, five")
  /\ 120005%Z = 120005%Z.
Proof.
  assert (H : _process_number 120005 = Ret (u "one lakh, twenty thousand, five"))
    by reflexivity.
  split; [lia | split; [lia | split; [exact H | split; [exact H |]]]].
  apply (process_number_injective 120005 120005 _ ltac:(lia) ltac:(lia) H H).
Defined.
